(** * NetBIOS session layer: frame codec, read pump, handshake and write path

    A shallow embedding of [session.js] of node-netbios-session.  Two
    revisions of the file are covered:

    - the EventEmitter revision (constants inlined, [write], [pause],
      [resume], [_doRead] driven by [process.nextTick]) in module-level
      definitions below;
    - the Duplex revision's write pipeline ([_write], [_writeChunk],
      [_writeFlow]) in [Module Duplex].

    Buffers are lists of bytes, JavaScript numbers that appear in the code are
    integers in [Z], exceptions are a [Throw] result, and the session object
    together with its socket, its input stream, the [nextTick] queue and the
    registered listeners is one record that every method passes along. *)

From Stdlib Require Import ZArith Zbitwise List String DecimalString Bool Lia.
From Stdlib Require Strings.Byte.
Import Stdlib.Init.Byte.
Import ListNotations.

Local Open Scope string_scope.
Local Open Scope list_scope.
Local Open Scope Z_scope.

(** ** Results of JavaScript calls *)

Inductive Res (A : Type) : Type :=
| Ok (a : A)
| Throw (e : string).
Arguments Ok {A} a.
Arguments Throw {A} e.

Definition rbind {A B} (r : Res A) (k : A -> Res B) : Res B :=
  match r with
  | Ok a => k a
  | Throw e => Throw e
  end.

Notation "'let*' x ':=' r 'in' k" := (rbind r (fun x => k))
  (at level 10, x pattern, r at level 100, k at level 200).

(** ** Protocol constants (session.js, lines 37-86) *)

Inductive msg_type : Type :=
| message
| request
| positive_response
| negative_response
| retarget_response
| keep_alive.

(** [ss.mode]: [null] is [None]. *)
Inductive Mode : Type :=
| establishingIn
| establishingOut
| established.

(** [VALID_TYPES[mode][type]] for a mode that has a row and a type string of
    [TYPE_TO_STRING]. *)
Definition VALID_TYPES (m : Mode) (t : msg_type) : bool :=
  match m, t with
  | establishingIn, request => true
  | establishingOut, positive_response => true
  | establishingOut, negative_response => true
  | established, message => true
  | established, keep_alive => true
  | _, _ => false
  end.

Definition DEFAULT_PORT : Z := 139.

(** [TYPE_TO_STRING[t]]; [undefined] is [None]. *)
Definition TYPE_TO_STRING (t : Z) : option msg_type :=
  if t =? 0x00 then Some message
  else if t =? 0x81 then Some request
  else if t =? 0x82 then Some positive_response
  else if t =? 0x83 then Some negative_response
  else if t =? 0x84 then Some retarget_response
  else if t =? 0x85 then Some keep_alive
  else None.

Definition TYPE_FROM_STRING (t : msg_type) : Z :=
  match t with
  | message => 0x00
  | request => 0x81
  | positive_response => 0x82
  | negative_response => 0x83
  | retarget_response => 0x84
  | keep_alive => 0x85
  end.

Definition FLAGS_E_MASK : Z := 0x80.
Definition FLAGS_RESERVED_MASK : Z := 0x7f.

(** [ERROR_CODE_TO_STRING[code]]; [undefined] is [None]. *)
Definition ERROR_CODE_TO_STRING (c : Z) : option string :=
  if c =? 0x80 then Some "Not listening on called name"
  else if c =? 0x81 then Some "Not listening for calling name"
  else if c =? 0x82 then Some "Called name not present"
  else if c =? 0x83 then Some "Called name present, but insufficient resources"
  else if c =? 0x8f then Some "Unspecified error"
  else None.

(** A JavaScript number as the code hands it to [Buffer.writeUInt8]: an
    integer, or [NaN] (what [ToNumber] makes of a function or an object). *)
Inductive jsnum : Type :=
| Num (z : Z)
| NaN.

(** The result of the property read [table[key]] on an object literal: a
    property of the literal itself, a member inherited from
    [Object.prototype], or [undefined]. *)
Inductive prop (A : Type) : Type :=
| Own (a : A)
| Inherited
| Undefined.
Arguments Own {A} a.
Arguments Inherited {A}.
Arguments Undefined {A}.

(** The property names every object literal inherits from
    [Object.prototype]. *)
Definition Object_prototype_names : list string :=
  [ "constructor"; "toString"; "toLocaleString"; "valueOf";
    "hasOwnProperty"; "isPrototypeOf"; "propertyIsEnumerable";
    "__proto__"; "__defineGetter__"; "__defineSetter__";
    "__lookupGetter__"; "__lookupSetter__" ].

Definition inherited_name (s : string) : bool :=
  existsb (String.eqb s) Object_prototype_names.

(** The own properties of [ERROR_CODE_FROM_STRING]. *)
Definition ERROR_CODE_FROM_STRING_own : list (string * Z) :=
  [ ("Not listening on called name", 0x80);
    ("Not listening for calling name", 0x81);
    ("Called name not present", 0x82);
    ("Called name present, but insufficient resources", 0x83);
    ("Unspecified error", 0x8f) ].

Fixpoint assoc (k : string) (l : list (string * Z)) : option Z :=
  match l with
  | [] => None
  | (k', v) :: l' => if String.eqb k k' then Some v else assoc k l'
  end.

(** [ERROR_CODE_FROM_STRING[errorString]].  The argument of [reject] is any
    JavaScript value; [None] stands for an absent one ([undefined] or [null],
    whose property keys "undefined" and "null" name nothing). *)
Definition ERROR_CODE_FROM_STRING (errorString : option string) : prop Z :=
  match errorString with
  | None => Undefined
  | Some s =>
      match assoc s ERROR_CODE_FROM_STRING_own with
      | Some c => Own c
      | None => if inherited_name s then Inherited else Undefined
      end
  end.

Definition EXTENSION_LENGTH : Z := Z.shiftl 1 16.
Definition MAX_TRAILER_LENGTH : Z := Z.shiftl 1 17 - 1.
Definition HEADER_LENGTH : Z := 4.

(** The [highWaterMark] handed to the input stream by [_initInputStream]. *)
Definition highWaterMark : Z := MAX_TRAILER_LENGTH + HEADER_LENGTH.

(** ** Buffers *)

Definition Buffer : Type := list byte.

Definition blen (b : Buffer) : Z := Z.of_nat (List.length b).

(** [new Buffer(n)]: [n] bytes of unspecified content, here zeros; the code
    overwrites every byte it later sends. *)
Definition new_Buffer (n : Z) : Buffer := repeat x00 (Z.to_nat n).

Definition u8 (b : byte) : Z := Z.of_N (Byte.to_N b).

Definition byte_of (z : Z) : option byte :=
  if (0 <=? z) && (z <=? 255) then Byte.of_N (Z.to_N z) else None.

(** [buf.slice(start, end)] for [0 <= start <= end]. *)
Definition slice (buf : Buffer) (start stop : Z) : Buffer :=
  firstn (Z.to_nat (stop - start)) (skipn (Z.to_nat start) buf).

Definition set_byte (buf : Buffer) (offset : Z) (b : byte) : Res Buffer :=
  if (0 <=? offset) && (offset <? blen buf)
  then Ok (firstn (Z.to_nat offset) buf ++ b :: skipn (S (Z.to_nat offset)) buf)
  else Throw "trying to write beyond buffer length".

(** [buf.writeUInt8(value, offset)]: an integer outside [0, 255] is refused;
    [NaN] is stored as the byte 0. *)
Definition writeUInt8 (buf : Buffer) (value : jsnum) (offset : Z) : Res Buffer :=
  match value with
  | NaN => set_byte buf offset x00
  | Num z =>
      match byte_of z with
      | Some b => set_byte buf offset b
      | None => Throw "value is out of bounds"
      end
  end.

(** [buf.writeUInt16BE(value, offset)]. *)
Definition writeUInt16BE (buf : Buffer) (value : Z) (offset : Z) : Res Buffer :=
  if (0 <=? value) && (value <=? 0xffff)
  then
    match byte_of (Z.shiftr value 8), byte_of (Z.land value 0xff) with
    | Some hi, Some lo =>
        let* buf1 := set_byte buf offset hi in
        set_byte buf1 (offset + 1) lo
    | _, _ => Throw "value is out of bounds"
    end
  else Throw "value is out of bounds".

Definition readUInt8 (buf : Buffer) (offset : Z) : Res Z :=
  if (0 <=? offset) && (offset <? blen buf)
  then match nth_error buf (Z.to_nat offset) with
       | Some b => Ok (u8 b)
       | None => Throw "trying to read beyond buffer length"
       end
  else Throw "trying to read beyond buffer length".

Definition readUInt16BE (buf : Buffer) (offset : Z) : Res Z :=
  let* hi := readUInt8 buf offset in
  let* lo := readUInt8 buf (offset + 1) in
  Ok (Z.lor (Z.shiftl hi 8) lo).

(** ** Frame codec *)

(** [NetbiosSession.prototype._packHeader] (lines 325-342): writes the header
    into [buf] at [offset] and returns the offset after it. *)
Definition _packHeader (buf : Buffer) (offset : Z) (typeString : msg_type)
    (length : Z) : Res (Buffer * Z) :=
  let type := TYPE_FROM_STRING typeString in
  let* buf := writeUInt8 buf (Num type) offset in
  let offset := offset + 1 in
  let flags := 0 in
  let '(flags, length) :=
    if length >=? EXTENSION_LENGTH
    then (Z.lor flags FLAGS_E_MASK, length - EXTENSION_LENGTH)
    else (flags, length) in
  let* buf := writeUInt8 buf (Num flags) offset in
  let offset := offset + 1 in
  let* buf := writeUInt16BE buf length offset in
  let offset := offset + 2 in
  Ok (buf, offset).

(** [ss.trailerType]: a type string of the table, or ['ignore']. *)
Inductive tag : Type :=
| T (t : msg_type)
| ignore.

(** Lines 374-400 of [_readHeader]: the trailer type and the trailer length
    decoded from the header [chunk] while the session is in [mode].
    [VALID_TYPES[null]] is [undefined], and reading a property of it throws. *)
Definition decodeHeader (mode : option Mode) (chunk : Buffer) : Res (tag * Z) :=
  let bytes := 0 in
  let* t := readUInt8 chunk bytes in
  let bytes := bytes + 1 in
  let type := TYPE_TO_STRING t in
  let* type :=
    match mode with
    | None => Throw "TypeError: Cannot read property of undefined"
    | Some m =>
        match type with
        | Some ty => if VALID_TYPES m ty then Ok (T ty) else Ok ignore
        | None => Ok ignore
        end
    end in
  let* flags := readUInt8 chunk bytes in
  let bytes := bytes + 1 in
  let* length := readUInt16BE chunk bytes in
  let length :=
    if negb (Z.land flags FLAGS_E_MASK =? 0)
    then length + EXTENSION_LENGTH
    else length in
  Ok (type, length).

(** The wire header as a whole: the four bytes [_packHeader] leaves in a
    fresh buffer. *)
Definition encodeHeader (t : msg_type) (length : Z) : Res Buffer :=
  let* (buf, _) := _packHeader (new_Buffer HEADER_LENGTH) 0 t length in
  Ok buf.

(** ** The session and its surroundings *)

(** What [NBName.fromBuffer] of the netbios-name package returns, as far as
    [session.js] looks at it. *)
Record NBName : Type := {
  error : option string;
  bytesRead : option Z;
  name : string
}.

(** What the application's [attach] callback does with the request object
    before it returns: call [request.accept()], call [request.reject(s)], or
    keep the object and decide later. *)
Inductive Decision : Type :=
| Accept
| Reject (reason : option string)
| Defer.

Definition AttachCallback : Type := NBName -> NBName -> Decision.

(** Completion callbacks of [connect] and [write] are identified by a number;
    [None] is a missing argument ([typeof cb !== 'function']). *)
Definition Callback : Type := option nat.

Inductive Error : Type :=
| MessageLengthExceedsMaximum (length maximum : Z)
| CannotAttach
| MalformedNegativeResponse
| ConnectionFailed (errString : string)
| NameError (e : string).

Definition decimal (z : Z) : string :=
  DecimalString.NilZero.string_of_int (Z.to_int z).

(** The text of [error.message]. *)
Definition Error_message (e : Error) : string :=
  match e with
  | MessageLengthExceedsMaximum length maximum =>
      ("Message length [" ++ decimal length ++ "] exceeds maximum ["
       ++ decimal maximum ++ "]")%string
  | CannotAttach => "Cannot attach Session already active."
  | MalformedNegativeResponse => "Malformed negative response.  Connection failed."
  | ConnectionFailed s =>
      ("Connection failed with response code [" ++ s ++ "]")%string
  | NameError e => e
  end.

Inductive ReadFunc : Type :=
| readHeader
| readTrailer.

(** [this._sessionState], built by [NetbiosSessionState] (lines 90-104).
    [socket] tells whether [ss.socket] refers to the socket or is [null]. *)
Record SessionState : Type := {
  mode : option Mode;
  direct : bool;
  autoAccept : bool;
  paused : bool;
  attachCallback : option AttachCallback;
  connectCallback : Callback;
  trailerType : option tag;
  trailerLength : Z;
  readFunc : ReadFunc;
  socket : bool;
  needDrain : bool
}.

Definition is_established (m : option Mode) : bool :=
  match m with
  | Some established => true
  | _ => false
  end.

(** [ss.acceptDefault]: no statement of the file assigns this property, so
    reading it gives [undefined] in every state. *)
Definition acceptDefault (ss : SessionState) : prop bool := Undefined.

Definition truthy_bool (p : prop bool) : bool :=
  match p with
  | Own b => b
  | Inherited => true
  | Undefined => false
  end.

(** Listeners the session leaves on the socket with [once('drain', ...)]. *)
Inductive DrainListener : Type :=
| drain_writeMsg (msg : Buffer) (callback : Callback)
| drain_doDrain (callback : Callback)
| drain_end.

(** The [net.Socket]: the buffers handed to [write] so far, whether [end]
    was called, what the coming [write] calls will return ([true] once the
    list is used up), and the pending drain listeners. *)
Record Socket : Type := {
  written : list Buffer;
  ended : bool;
  flushes : list bool;
  drainL : list DrainListener
}.

(** [ss.inputStream]: the bytes buffered and not yet read, the number of
    pending [once('readable', _doRead)] listeners, and the sizes asked of
    [read] so far. *)
Record Readable : Type := {
  buffered : Buffer;
  readableL : nat;
  reads : list Z
}.

(** The request object of [_handleRequest]; a handle is [true] while it holds
    its function and [false] once it is [null]. *)
Record Request : Type := {
  callTo : NBName;
  callFrom : NBName;
  accept : bool;
  reject : bool
}.

(** Callbacks waiting in [process.nextTick]. *)
Inductive Task : Type :=
| tick_doRead
| tick_attachCallback (e : Error)
| tick_connectCallback (id : nat) (e : Error)
| tick_writeCallback (id : nat) (e : option Error).

(** What the application observes, in order. *)
Inductive Event : Type :=
| emit_connect
| emit_message (chunk : Buffer)
| emit_error (e : Error)
| emit_drain
| call_attachCallback_error (e : Error)
| call_attachCallback (request : nat)
| call_connectCallback (id : nat) (e : option Error)
| call_writeCallback (id : nat) (e : option Error).

Record World : Type := {
  ss : SessionState;
  sock : Socket;
  inputStream : option Readable;
  ticks : list Task;
  requests : list Request;
  log : list Event;
  (** the application's ['message'] listener calls [session.pause()] on the
      messages for which this holds *)
  pause_on_message : Buffer -> bool
}.

(** *** Field updates *)

Definition set_mode (v : option Mode) (s : SessionState) : SessionState :=
  {| mode := v; direct := direct s; autoAccept := autoAccept s;
     paused := paused s; attachCallback := attachCallback s;
     connectCallback := connectCallback s; trailerType := trailerType s;
     trailerLength := trailerLength s; readFunc := readFunc s;
     socket := socket s; needDrain := needDrain s |}.

Definition set_paused (v : bool) (s : SessionState) : SessionState :=
  {| mode := mode s; direct := direct s; autoAccept := autoAccept s;
     paused := v; attachCallback := attachCallback s;
     connectCallback := connectCallback s; trailerType := trailerType s;
     trailerLength := trailerLength s; readFunc := readFunc s;
     socket := socket s; needDrain := needDrain s |}.

Definition set_attachCallback (v : option AttachCallback) (s : SessionState)
    : SessionState :=
  {| mode := mode s; direct := direct s; autoAccept := autoAccept s;
     paused := paused s; attachCallback := v;
     connectCallback := connectCallback s; trailerType := trailerType s;
     trailerLength := trailerLength s; readFunc := readFunc s;
     socket := socket s; needDrain := needDrain s |}.

Definition set_connectCallback (v : Callback) (s : SessionState)
    : SessionState :=
  {| mode := mode s; direct := direct s; autoAccept := autoAccept s;
     paused := paused s; attachCallback := attachCallback s;
     connectCallback := v; trailerType := trailerType s;
     trailerLength := trailerLength s; readFunc := readFunc s;
     socket := socket s; needDrain := needDrain s |}.

Definition set_trailer (t : option tag) (n : Z) (s : SessionState)
    : SessionState :=
  {| mode := mode s; direct := direct s; autoAccept := autoAccept s;
     paused := paused s; attachCallback := attachCallback s;
     connectCallback := connectCallback s; trailerType := t;
     trailerLength := n; readFunc := readFunc s;
     socket := socket s; needDrain := needDrain s |}.

Definition set_readFunc (v : ReadFunc) (s : SessionState) : SessionState :=
  {| mode := mode s; direct := direct s; autoAccept := autoAccept s;
     paused := paused s; attachCallback := attachCallback s;
     connectCallback := connectCallback s; trailerType := trailerType s;
     trailerLength := trailerLength s; readFunc := v;
     socket := socket s; needDrain := needDrain s |}.

Definition set_socket (v : bool) (s : SessionState) : SessionState :=
  {| mode := mode s; direct := direct s; autoAccept := autoAccept s;
     paused := paused s; attachCallback := attachCallback s;
     connectCallback := connectCallback s; trailerType := trailerType s;
     trailerLength := trailerLength s; readFunc := readFunc s;
     socket := v; needDrain := needDrain s |}.

Definition set_needDrain (v : bool) (s : SessionState) : SessionState :=
  {| mode := mode s; direct := direct s; autoAccept := autoAccept s;
     paused := paused s; attachCallback := attachCallback s;
     connectCallback := connectCallback s; trailerType := trailerType s;
     trailerLength := trailerLength s; readFunc := readFunc s;
     socket := socket s; needDrain := v |}.

Definition with_ss (f : SessionState -> SessionState) (w : World) : World :=
  {| ss := f (ss w); sock := sock w; inputStream := inputStream w;
     ticks := ticks w; requests := requests w; log := log w;
     pause_on_message := pause_on_message w |}.

Definition with_sock (f : Socket -> Socket) (w : World) : World :=
  {| ss := ss w; sock := f (sock w); inputStream := inputStream w;
     ticks := ticks w; requests := requests w; log := log w;
     pause_on_message := pause_on_message w |}.

Definition with_inputStream (v : option Readable) (w : World) : World :=
  {| ss := ss w; sock := sock w; inputStream := v;
     ticks := ticks w; requests := requests w; log := log w;
     pause_on_message := pause_on_message w |}.

Definition with_ticks (f : list Task -> list Task) (w : World) : World :=
  {| ss := ss w; sock := sock w; inputStream := inputStream w;
     ticks := f (ticks w); requests := requests w; log := log w;
     pause_on_message := pause_on_message w |}.

Definition with_requests (f : list Request -> list Request) (w : World)
    : World :=
  {| ss := ss w; sock := sock w; inputStream := inputStream w;
     ticks := ticks w; requests := f (requests w); log := log w;
     pause_on_message := pause_on_message w |}.

Definition with_log (f : list Event -> list Event) (w : World) : World :=
  {| ss := ss w; sock := sock w; inputStream := inputStream w;
     ticks := ticks w; requests := requests w; log := f (log w);
     pause_on_message := pause_on_message w |}.

(** *** The monad of session methods: state and exceptions *)

Definition M (A : Type) : Type := World -> Res (A * World).

Definition ret {A} (a : A) : M A := fun w => Ok (a, w).

Definition bind {A B} (m : M A) (k : A -> M B) : M B :=
  fun w =>
    match m w with
    | Ok (a, w') => k a w'
    | Throw e => Throw e
    end.

Definition throw {A} (e : string) : M A := fun _ => Throw e.

Definition lift {A} (r : Res A) : M A :=
  fun w => match r with Ok a => Ok (a, w) | Throw e => Throw e end.

Definition gets {A} (f : World -> A) : M A := fun w => Ok (f w, w).

Definition modify (f : World -> World) : M unit := fun w => Ok (tt, f w).

Notation "x <- m ;; k" := (bind m (fun x => k))
  (at level 61, m at next level, right associativity).
Notation "m ;; k" := (bind m (fun _ => k))
  (at level 61, right associativity).

Definition when (b : bool) (m : M unit) : M unit :=
  if b then m else ret tt.

Definition emit (e : Event) : M unit :=
  modify (with_log (fun l => l ++ [e])).

Definition nextTick (t : Task) : M unit :=
  modify (with_ticks (fun q => q ++ [t])).

(** The application is taken to listen for every event the session emits
    (an ['error'] nobody listens for is raised by [EventEmitter] itself). *)

(** *** The socket and the input stream *)

(** What the next [write] on the socket returns. *)
Definition next_flush (s : Socket) : bool :=
  match flushes s with
  | [] => true
  | f :: _ => f
  end.

(** The socket after one more [write(buf)]. *)
Definition wrote (buf : Buffer) (s : Socket) : Socket :=
  {| written := written s ++ [buf]; ended := ended s;
     flushes := tl (flushes s); drainL := drainL s |}.

(** [ss.socket.write(buf)]: a [TypeError] when [ss.socket] is [null]. *)
Definition socket_write (buf : Buffer) : M bool :=
  fun w =>
    if socket (ss w)
    then Ok (next_flush (sock w), with_sock (wrote buf) w)
    else Throw "TypeError: Cannot call method 'write' of null".

(** [ss.socket.once('drain', listener)]. *)
Definition socket_once_drain (l : DrainListener) : M unit :=
  fun w =>
    if socket (ss w)
    then
      let s := sock w in
      Ok (tt,
          with_sock (fun _ =>
            {| written := written s; ended := ended s;
               flushes := flushes s; drainL := drainL s ++ [l] |}) w)
    else Throw "TypeError: Cannot call method 'once' of null".

(** [ss.inputStream.read(n)] on a stream that has not ended: the first [n]
    buffered bytes, or [null] while fewer are buffered. *)
Definition stream_read (n : Z) : M (option Buffer) :=
  fun w =>
    match inputStream w with
    | None => Throw "TypeError: Cannot call method 'read' of undefined"
    | Some st =>
        if n <=? blen (buffered st)
        then Ok (Some (firstn (Z.to_nat n) (buffered st)),
                 with_inputStream
                   (Some {| buffered := skipn (Z.to_nat n) (buffered st);
                            readableL := readableL st;
                            reads := reads st ++ [n] |}) w)
        else Ok (None,
                 with_inputStream
                   (Some {| buffered := buffered st;
                            readableL := readableL st;
                            reads := reads st ++ [n] |}) w)
    end.

(** [ss.inputStream.once('readable', self._doRead.bind(self))]. *)
Definition stream_once_readable : M unit :=
  fun w =>
    match inputStream w with
    | None => Throw "TypeError: Cannot call method 'once' of undefined"
    | Some st =>
        Ok (tt,
            with_inputStream
              (Some {| buffered := buffered st;
                       readableL := S (readableL st);
                       reads := reads st |}) w)
    end.

(** *** Methods of [NetbiosSession] *)

(** [new NetbiosSession(opts)] with an application whose message listener
    pauses on [pom]; no socket is attached yet. *)
Definition NetbiosSession (opt_direct opt_autoAccept opt_paused : bool)
    (pom : Buffer -> bool) : World :=
  {| ss := {| mode := None;
              direct := opt_direct;
              autoAccept := opt_autoAccept;
              paused := opt_paused;
              attachCallback := None;
              connectCallback := None;
              trailerType := None;
              trailerLength := 0;
              readFunc := readHeader;
              socket := false;
              needDrain := false |};
     sock := {| written := []; ended := false; flushes := []; drainL := [] |};
     inputStream := None;
     ticks := [];
     requests := [];
     log := [];
     pause_on_message := pom |}.

(** [NetbiosSession.prototype.pause] (lines 195-197). *)
Definition pause : M unit :=
  modify (with_ss (set_paused true)).

(** [NetbiosSession.prototype._doRead] (lines 344-364) up to the call of
    [process.nextTick]; the closure it queues is [doRead_tick] below. *)
Definition _doRead : M unit :=
  nextTick tick_doRead.

(** [NetbiosSession.prototype.resume] (lines 199-205). *)
Definition resume : M unit :=
  p <- gets (fun w => paused (ss w)) ;;
  if p then
    modify (with_ss (set_paused false)) ;;
    _doRead
  else ret tt.

(** [NetbiosSession.prototype._initInputStream] (lines 207-216): a fresh
    stream wrapped around the socket. *)
Definition _initInputStream : M unit :=
  modify (with_inputStream
            (Some {| buffered := []; readableL := 0; reads := [] |})).

(** [NetbiosSession.prototype.end] (lines 315-323). *)
Definition end_ : M unit :=
  s <- gets (fun w => socket (ss w)) ;;
  if s then
    modify (with_ss (set_mode None)) ;;
    modify (with_ss (set_paused false)) ;;
    modify (with_sock (fun s =>
      {| written := written s; ended := true;
         flushes := flushes s; drainL := drainL s |})) ;;
    modify (with_ss (set_socket false))
  else ret tt.

(** [NetbiosSession.prototype._established] (lines 506-509). *)
Definition _established : M unit :=
  modify (with_ss (set_mode (Some established))) ;;
  emit emit_connect.

(** [NetbiosSession.prototype._handleMessage] (lines 511-513), followed by
    what the application's listener does. *)
Definition _handleMessage (chunk : Buffer) : M unit :=
  emit (emit_message chunk) ;;
  pom <- gets pause_on_message ;;
  when (pom chunk) pause.

(** [NetbiosSession.prototype._handlePositiveResponse] (lines 515-529). *)
Definition _handlePositiveResponse : M unit :=
  m <- gets (fun w => mode (ss w)) ;;
  match m with
  | Some establishingOut =>
      cb <- gets (fun w => connectCallback (ss w)) ;;
      modify (with_ss (set_connectCallback None)) ;;
      _established ;;
      match cb with
      | Some id => emit (call_connectCallback id None)
      | None => ret tt
      end
  | _ => ret tt
  end.

(** [NetbiosSession.prototype._handleNegativeResponse] (lines 531-560). *)
Definition _handleNegativeResponse (chunk : Buffer) : M unit :=
  m <- gets (fun w => mode (ss w)) ;;
  match m with
  | Some establishingOut =>
      cb <- gets (fun w => connectCallback (ss w)) ;;
      modify (with_ss (set_connectCallback None)) ;;
      let rest :=
        errCode <- lift (readUInt8 chunk 0) ;;
        let errString :=
          match ERROR_CODE_TO_STRING errCode with
          | Some s => s
          | None => "unknown error"
          end in
        match cb with
        | Some id =>
            emit (call_connectCallback id (Some (ConnectionFailed errString)))
        | None => ret tt
        end ;;
        end_ in
      if negb (blen chunk =? 1) then
        match cb with
        | Some id =>
            emit (call_connectCallback id (Some MalformedNegativeResponse)) ;;
            end_
        | None => rest
        end
      else rest
  | _ => ret tt
  end.

(** [NetbiosSession.prototype._sendPositiveResponse] (lines 562-572). *)
Definition _sendPositiveResponse : M unit :=
  let buf := new_Buffer HEADER_LENGTH in
  let bytes := 0 in
  r <- lift (_packHeader buf bytes positive_response 0) ;;
  let '(buf, len) := r in
  let bytes := bytes + len in
  _ <- socket_write buf ;;
  ret tt.

(** [NetbiosSession.prototype._sendNegativeResponse] (lines 574-599). *)
Definition _sendNegativeResponse (errorString : option string) : M unit :=
  let buf := new_Buffer (HEADER_LENGTH + 1) in
  let bytes := 0 in
  r <- lift (_packHeader buf bytes negative_response 1) ;;
  let '(buf, len) := r in
  let bytes := bytes + len in
  let errorCode := ERROR_CODE_FROM_STRING errorString in
  let errorCode :=
    match errorCode with
    | Undefined | Own 0 => ERROR_CODE_FROM_STRING (Some "Unspecified error")
    | _ => errorCode
    end in
  let value :=
    match errorCode with
    | Own c => Num c
    | Inherited | Undefined => NaN
    end in
  buf <- lift (writeUInt8 buf value bytes) ;;
  let bytes := bytes + 1 in
  flushed <- socket_write buf ;;
  if flushed then end_
  else socket_once_drain drain_end.

(** What [name.write(buf, offset)] of the netbios-name package returns,
    together with the buffer it has written into. *)
Record WriteResult : Type := {
  write_error : option string;
  bytesWritten : Z;
  write_buf : Buffer
}.

Fixpoint update_nth {A} (n : nat) (f : A -> A) (l : list A) : list A :=
  match l, n with
  | [], _ => []
  | x :: l', O => f x :: l'
  | x :: l', S n' => x :: update_nth n' f l'
  end.

Definition null_handles (r : Request) : Request :=
  {| callTo := callTo r; callFrom := callFrom r;
     accept := false; reject := false |}.

(** The function stored in [request.accept] (lines 481-486); [r] is the
    request object the closure refers to. *)
Definition accept_function (r : nat) : M unit :=
  _established ;;
  _sendPositiveResponse ;;
  modify (with_requests (update_nth r null_handles)).

(** The function stored in [request.reject] (lines 487-491). *)
Definition reject_function (r : nat) (s : option string) : M unit :=
  _sendNegativeResponse s ;;
  modify (with_requests (update_nth r null_handles)).

(** The application's call [request.accept()]: calling [null] is a
    [TypeError]. *)
Definition request_accept (r : nat) : M unit :=
  o <- gets (fun w => nth_error (requests w) r) ;;
  match o with
  | Some req =>
      if accept req then accept_function r
      else throw "TypeError: Property 'accept' of object is not a function"
  | None => throw "ReferenceError: no such request object"
  end.

(** The application's call [request.reject(s)]. *)
Definition request_reject (r : nat) (s : option string) : M unit :=
  o <- gets (fun w => nth_error (requests w) r) ;;
  match o with
  | Some req =>
      if reject req then reject_function r s
      else throw "TypeError: Property 'reject' of object is not a function"
  | None => throw "ReferenceError: no such request object"
  end.

(** [NetbiosSession.prototype._doDrain] (lines 303-313). *)
Definition _doDrain (callback : Callback) : M unit :=
  nd <- gets (fun w => needDrain (ss w)) ;;
  when nd (modify (with_ss (set_needDrain false)) ;; emit emit_drain) ;;
  match callback with
  | Some id => nextTick (tick_writeCallback id None)
  | None => ret tt
  end.

(** [NetbiosSession.prototype._writeMsg] (lines 288-301). *)
Definition _writeMsg (msg : Buffer) (callback : Callback) : M bool :=
  flushed <- socket_write msg ;;
  if negb flushed then
    modify (with_ss (set_needDrain true)) ;;
    socket_once_drain (drain_doDrain callback) ;;
    ret false
  else
    _doDrain callback ;;
    ret true.

(** [NetbiosSession.prototype.write] (lines 260-286). *)
Definition write (msg : Buffer) (callback : Callback) : M bool :=
  if blen msg >? MAX_TRAILER_LENGTH then
    let error := MessageLengthExceedsMaximum (blen msg) MAX_TRAILER_LENGTH in
    emit (emit_error error) ;;
    match callback with
    | Some id => nextTick (tick_writeCallback id (Some error))
    | None => ret tt
    end ;;
    ret true
  else
    let buf := new_Buffer HEADER_LENGTH in
    r <- lift (_packHeader buf 0 message (blen msg)) ;;
    let '(buf, _) := r in
    flushed <- socket_write buf ;;
    if negb flushed then
      modify (with_ss (set_needDrain true)) ;;
      socket_once_drain (drain_writeMsg msg callback) ;;
      ret false
    else _writeMsg msg callback.

Section Session.

(** [NBName.fromBuffer(chunk, offset)]; the name codec is a package of its
    own and is left open here. *)
Variable fromBuffer : Buffer -> option Z -> NBName.

(** [name.write(buf, offset)] of the same package. *)
Variable NBName_write : NBName -> Buffer -> Z -> WriteResult.

(** [NetbiosSession.prototype._handleRequest] (lines 446-504). *)
Definition _handleRequest (chunk : Buffer) : M unit :=
  let nbname := fromBuffer chunk (Some 0) in
  cb <- gets (fun w => attachCallback (ss w)) ;;
  match error nbname, cb with
  | Some e, Some _ => emit (call_attachCallback_error (NameError e))
  | _, _ => ret tt
  end ;;
  let callTo := nbname in
  let nbname := fromBuffer chunk (bytesRead callTo) in
  cb <- gets (fun w => attachCallback (ss w)) ;;
  match error nbname with
  | Some e =>
      match cb with
      | Some _ => emit (call_attachCallback_error (NameError e))
      | None => ret tt
      end
  | None =>
      let callFrom := nbname in
      match cb with
      | Some f =>
          r <- gets (fun w => List.length (requests w)) ;;
          modify (with_requests (fun l =>
            l ++ [{| callTo := callTo; callFrom := callFrom;
                     accept := true; reject := true |}])) ;;
          emit (call_attachCallback r) ;;
          match f callTo callFrom with
          | Accept => request_accept r
          | Reject s => request_reject r s
          | Defer => ret tt
          end
      | None =>
          ad <- gets (fun w => acceptDefault (ss w)) ;;
          if negb (truthy_bool ad) then
            _established ;;
            _sendPositiveResponse
          else _sendNegativeResponse None
      end
  end.

(** [NetbiosSession.prototype._readTrailer] (lines 419-444). *)
Definition _readTrailer : M bool :=
  n <- gets (fun w => trailerLength (ss w)) ;;
  chunk <- stream_read n ;;
  match chunk with
  | None => ret false
  | Some chunk =>
      type <- gets (fun w => trailerType (ss w)) ;;
      modify (with_ss (set_readFunc readHeader)) ;;
      modify (with_ss (set_trailer None 0)) ;;
      match type with
      | Some (T request) => _handleRequest chunk
      | Some (T message) => _handleMessage chunk
      | Some (T negative_response) => _handleNegativeResponse chunk
      | _ => ret tt
      end ;;
      ret true
  end.

(** [NetbiosSession.prototype._readHeader] (lines 366-417). *)
Definition _readHeader : M bool :=
  chunk <- stream_read HEADER_LENGTH ;;
  match chunk with
  | None => ret false
  | Some chunk =>
      m <- gets (fun w => mode (ss w)) ;;
      d <- lift (decodeHeader m chunk) ;;
      let '(type, length) := d in
      modify (with_ss (set_trailer (Some type) length)) ;;
      if length >? 0 then
        modify (with_ss (set_readFunc readTrailer)) ;;
        _readTrailer
      else
        modify (with_ss (set_trailer None 0)) ;;
        match type with
        | T positive_response => _handlePositiveResponse
        | _ => ret tt
        end ;;
        ret true
  end.

(** The call [ss.readFunc()]. *)
Definition call_readFunc : M bool :=
  f <- gets (fun w => readFunc (ss w)) ;;
  match f with
  | readHeader => _readHeader
  | readTrailer => _readTrailer
  end.

(** The closure [_doRead] hands to [process.nextTick] (lines 350-363). *)
Definition doRead_tick : M unit :=
  complete <- call_readFunc ;;
  m <- gets (fun w => mode (ss w)) ;;
  p <- gets (fun w => paused (ss w)) ;;
  if is_established m && p then ret tt
  else if negb complete then stream_once_readable
  else _doRead.

(** [NetbiosSession.prototype.attach] (lines 170-193); the socket handed in
    is the one of the world. *)
Definition attach (callback : option AttachCallback) : M unit :=
  m <- gets (fun w => mode (ss w)) ;;
  s <- gets (fun w => socket (ss w)) ;;
  if (match m with Some _ => true | None => false end) || s then
    match callback with
    | Some _ => nextTick (tick_attachCallback CannotAttach)
    | None => ret tt
    end
  else
    modify (with_ss (set_socket true)) ;;
    _initInputStream ;;
    d <- gets (fun w => direct (ss w)) ;;
    if d then
      _established ;;
      _doRead
    else
      modify (with_ss (set_mode (Some establishingIn))) ;;
      modify (with_ss (set_attachCallback callback)) ;;
      _doRead.

(** [NetbiosSession.prototype._sendRequest] (lines 218-258). *)
Definition _sendRequest (callTo callFrom : NBName) (callback : Callback)
    : M unit :=
  let bytes := 0 in
  let buf := new_Buffer (HEADER_LENGTH + MAX_TRAILER_LENGTH) in
  let bytes := bytes + HEADER_LENGTH in
  let res := NBName_write callTo buf bytes in
  match write_error res with
  | Some e =>
      match callback with
      | Some id => nextTick (tick_connectCallback id (NameError e))
      | None => ret tt
      end
  | None =>
      let bytes := bytes + bytesWritten res in
      let res := NBName_write callFrom (write_buf res) bytes in
      match write_error res with
      | Some e =>
          match callback with
          | Some id => nextTick (tick_connectCallback id (NameError e))
          | None => ret tt
          end
      | None =>
          let bytes := bytes + bytesWritten res in
          let trailerLen := bytes - HEADER_LENGTH in
          let bytes := 0 in
          r <- lift (_packHeader (write_buf res) bytes request trailerLen) ;;
          let '(buf, len) := r in
          let bytes := bytes + len in
          let bytes := bytes + trailerLen in
          modify (with_ss (set_connectCallback callback)) ;;
          _ <- socket_write (slice buf 0 bytes) ;;
          ret tt
      end
  end.

(** [NetbiosSession.prototype._connectSocket] (lines 150-168). *)
Definition _connectSocket (callFrom callTo : NBName) (cb : Callback)
    : M unit :=
  modify (with_ss (set_socket true)) ;;
  _initInputStream ;;
  modify (with_ss (set_mode (Some establishingOut))) ;;
  d <- gets (fun w => direct (ss w)) ;;
  if d then
    match cb with
    | Some id => emit (call_connectCallback id None)
    | None => ret tt
    end ;;
    _established ;;
    _doRead
  else
    _sendRequest callTo callFrom cb ;;
    _doRead.

(** *** The event loop around the session *)

Fixpoint repeatM (n : nat) (m : M unit) : M unit :=
  match n with
  | O => ret tt
  | S n' => m ;; repeatM n' m
  end.

(** The input stream buffers bytes the socket has delivered. *)
Definition stream_push (chunk : Buffer) : M unit :=
  st <- gets inputStream ;;
  match st with
  | None => ret tt
  | Some st =>
      modify (with_inputStream
                (Some {| buffered := buffered st ++ chunk;
                         readableL := readableL st;
                         reads := reads st |}))
  end.

(** The input stream emits ['readable']: every pending [_doRead] listener is
    called once. *)
Definition stream_readable : M unit :=
  st <- gets inputStream ;;
  match st with
  | None => ret tt
  | Some st =>
      modify (with_inputStream
                (Some {| buffered := buffered st;
                         readableL := 0;
                         reads := reads st |})) ;;
      repeatM (readableL st) _doRead
  end.

(** Bytes arrive on the socket: the input stream buffers them and emits
    ['readable']. *)
Definition socket_data (chunk : Buffer) : M unit :=
  stream_push chunk ;;
  stream_readable.

Definition run_drain_listener (l : DrainListener) : M unit :=
  match l with
  | drain_writeMsg msg callback => _ <- _writeMsg msg callback ;; ret tt
  | drain_doDrain callback => _doDrain callback
  | drain_end => end_
  end.

Fixpoint run_drain_listeners (ls : list DrainListener) : M unit :=
  match ls with
  | [] => ret tt
  | l :: ls' => run_drain_listener l ;; run_drain_listeners ls'
  end.

(** The socket emits ['drain']: every [once] listener runs, in the order of
    registration. *)
Definition socket_drain : M unit :=
  ls <- gets (fun w => drainL (sock w)) ;;
  modify (with_sock (fun s =>
    {| written := written s; ended := ended s;
       flushes := flushes s; drainL := [] |})) ;;
  run_drain_listeners ls.

Definition run_task (t : Task) : M unit :=
  match t with
  | tick_doRead => doRead_tick
  | tick_attachCallback e => emit (call_attachCallback_error e)
  | tick_connectCallback id e => emit (call_connectCallback id (Some e))
  | tick_writeCallback id e => emit (call_writeCallback id e)
  end.

(** The oldest [nextTick] callback runs. *)
Definition run_tick : M unit :=
  q <- gets ticks ;;
  match q with
  | [] => ret tt
  | t :: q' =>
      modify (with_ticks (fun _ => q')) ;;
      run_task t
  end.

Fixpoint run_ticks (n : nat) : M unit :=
  match n with
  | O => ret tt
  | S n' => run_tick ;; run_ticks n'
  end.

End Session.

(** ** The write pipeline of the Duplex revision (session.js, lines 196-254)

    [_packHeader] is the same function in both revisions; [con.HEADER_LENGTH],
    [con.MAX_TRAILER_LENGTH] and the other members of [lib/constant] are the
    constants above. *)

Module Duplex.

(** The functions [_writeFlow] is given to call once a write is accepted. *)
Inductive Hook : Type :=
| after_header (chunk : Buffer) (offset msgLength : Z)
    (** the function literal of [_writeChunk], lines 216-226 *)
| writeChunk_bound (chunk : Buffer) (offset : Z)
    (** [self._writeChunk.bind(self, chunk, end, callback)] *)
| callback.
    (** the completion callback [_write] was called with *)

(** What happens on the socket and to the callback, in order. *)
Inductive WEvent : Type :=
| ev_write (buf : Buffer) (flushed : bool)
| ev_drain
| ev_callback.

Record State : Type := {
  trace : list WEvent;
  flushes : list bool;   (** what the coming [write] calls return *)
  drainL : list Hook     (** [once('drain', ...)] listeners *)
}.

(** [stream.write(buf)]. *)
Definition socket_write (buf : Buffer) (s : State) : bool * State :=
  let flushed := match flushes s with [] => true | f :: _ => f end in
  (flushed,
   {| trace := trace s ++ [ev_write buf flushed];
      flushes := tl (flushes s);
      drainL := drainL s |}).

(** [stream.once('drain', callback)]. *)
Definition once_drain (h : Hook) (s : State) : State :=
  {| trace := trace s; flushes := flushes s; drainL := drainL s ++ [h] |}.

(** [_writeFlow] (lines 229-235); [call] runs the function it is given. *)
Definition _writeFlow (call : Hook -> State -> Res State)
    (buf : Buffer) (h : Hook) (s : State) : Res State :=
  let '(flushed, s) := socket_write buf s in
  if flushed then call h s
  else Ok (once_drain h s).

(** Calling one of the functions above; every call uses one unit of [fuel].
    The case [writeChunk_bound] is the body of
    [NetbiosSession.prototype._writeChunk] (lines 206-227). *)
Fixpoint call (fuel : nat) (h : Hook) (s : State) : Res State :=
  match fuel with
  | O => Throw "out of fuel"
  | S fuel =>
      match h with
      | callback =>
          Ok {| trace := trace s ++ [ev_callback];
                flushes := flushes s; drainL := drainL s |}
      | writeChunk_bound chunk offset =>
          let msgLength := Z.min (blen chunk - offset) MAX_TRAILER_LENGTH in
          let buf := new_Buffer HEADER_LENGTH in
          let* (buf, _) := _packHeader buf 0 message msgLength in
          _writeFlow (call fuel) buf (after_header chunk offset msgLength) s
      | after_header chunk offset msgLength =>
          let end_ := offset + msgLength in
          let completeHook :=
            if end_ <? blen chunk then writeChunk_bound chunk end_
            else callback in
          _writeFlow (call fuel) (slice chunk offset end_) completeHook s
      end
  end.

Definition _writeChunk (fuel : nat) (chunk : Buffer) (offset : Z)
    (s : State) : Res State :=
  call fuel (writeChunk_bound chunk offset) s.

(** [NetbiosSession.prototype._write] (lines 196-204). *)
Definition _write (fuel : nat) (chunk : Buffer) (s : State) : Res State :=
  _writeChunk fuel chunk 0 s.

Fixpoint call_all (fuel : nat) (hs : list Hook) (s : State) : Res State :=
  match hs with
  | [] => Ok s
  | h :: hs' => let* s := call fuel h s in call_all fuel hs' s
  end.

(** The socket emits ['drain']: the pending listeners run once. *)
Definition drain (fuel : nat) (s : State) : Res State :=
  call_all fuel (drainL s)
    {| trace := trace s ++ [ev_drain]; flushes := flushes s; drainL := [] |}.

(** The socket drains whenever a listener waits for it, until none does. *)
Fixpoint settle (fuel : nat) (s : State) : Res State :=
  match drainL s with
  | [] => Ok s
  | _ :: _ =>
      match fuel with
      | O => Throw "out of fuel"
      | S fuel => let* s := drain fuel s in settle fuel s
      end
  end.

(** A whole [_write(chunk, callback)] on a socket whose [write] calls return
    [fl], with every drain it waits for. *)
Definition run_write (fuel : nat) (chunk : Buffer) (fl : list bool)
    : Res State :=
  let* s := _write fuel chunk {| trace := []; flushes := fl; drainL := [] |} in
  settle fuel s.

(** The buffers written, in order. *)
Fixpoint writes_of (tr : list WEvent) : list Buffer :=
  match tr with
  | [] => []
  | ev_write buf _ :: tr' => buf :: writes_of tr'
  | _ :: tr' => writes_of tr'
  end.

Fixpoint callbacks_of (tr : list WEvent) : nat :=
  match tr with
  | [] => O
  | ev_callback :: tr' => S (callbacks_of tr')
  | _ :: tr' => callbacks_of tr'
  end.

End Duplex.

(** * Properties *)

(** ** Bytes and buffers *)

Lemma Ok_pair_inj {A B} (a c : A) (b d : B) :
  Ok (a, b) = Ok (c, d) -> a = c /\ b = d.
Proof. intros H. inversion H. split; reflexivity. Qed.

Lemma u8_range (b : byte) : 0 <= u8 b <= 255.
Proof.
  unfold u8. pose proof (Byte.to_N_bounded b). lia.
Qed.

Lemma byte_of_Some (z : Z) :
  0 <= z <= 255 -> exists b, byte_of z = Some b /\ u8 b = z.
Proof.
  intros Hz. unfold byte_of.
  replace ((0 <=? z) && (z <=? 255)) with true
    by (symmetry; apply andb_true_iff; split; apply Z.leb_le; lia).
  destruct (Byte.of_N (Z.to_N z)) as [b|] eqn:E.
  - exists b. split; [reflexivity|].
    apply Byte.to_of_N in E. unfold u8. lia.
  - apply Byte.of_N_None_iff in E. lia.
Qed.

Lemma byte_of_u8 (b : byte) : byte_of (u8 b) = Some b.
Proof.
  pose proof (u8_range b) as H. unfold byte_of.
  replace ((0 <=? u8 b) && (u8 b <=? 255)) with true
    by (symmetry; apply andb_true_iff; split; apply Z.leb_le; lia).
  unfold u8. rewrite N2Z.id. apply Byte.of_to_N.
Qed.

Lemma split_16 (v : Z) :
  Z.lor (Z.shiftl (Z.shiftr v 8) 8) (Z.land v 0xff) = v.
Proof.
  apply Z.bits_inj'. intros n Hn.
  rewrite Z.lor_spec, Z.shiftl_spec by assumption.
  change 0xff with (Z.ones 8). rewrite Z.land_ones by lia.
  destruct (Z.ltb_spec n 8).
  - rewrite Z.testbit_neg_r by lia.
    rewrite Z.mod_pow2_bits_low by lia. reflexivity.
  - rewrite Z.shiftr_spec by lia.
    rewrite Z.mod_pow2_bits_high by lia.
    replace (n - 8 + 8) with n by lia. apply orb_false_r.
Qed.

Lemma shiftr_8_range (v : Z) : 0 <= v <= 0xffff -> 0 <= Z.shiftr v 8 <= 255.
Proof.
  intros H. rewrite Z.shiftr_div_pow2 by lia. change (2 ^ 8) with 256.
  split.
  - apply Z.div_pos; lia.
  - apply Z.lt_succ_r. apply Z.div_lt_upper_bound; lia.
Qed.

Lemma land_ff_range (v : Z) : 0 <= Z.land v 0xff <= 255.
Proof.
  change (Z.land v 0xff) with (Z.land v (Z.ones 8)).
  rewrite Z.land_ones by lia.
  pose proof (Z.mod_pos_bound v (2 ^ 8)). change (2 ^ 8) with 256 in *. lia.
Qed.

(** The 16-bit big-endian field holds whatever fits in it. *)
Lemma writeUInt16BE_header (a b c d : byte) (v : Z) :
  0 <= v <= 0xffff ->
  exists hi lo,
    writeUInt16BE [a; b; c; d] v 2 = Ok [a; b; hi; lo] /\
    Z.lor (Z.shiftl (u8 hi) 8) (u8 lo) = v.
Proof.
  intros Hv.
  destruct (byte_of_Some _ (shiftr_8_range v Hv)) as [hi [Ehi Hhi]].
  destruct (byte_of_Some _ (land_ff_range v)) as [lo [Elo Hlo]].
  exists hi, lo. split.
  - unfold writeUInt16BE.
    replace ((0 <=? v) && (v <=? 0xffff)) with true
      by (symmetry; apply andb_true_iff; split; apply Z.leb_le; lia).
    rewrite Ehi, Elo. reflexivity.
  - rewrite Hhi, Hlo. apply split_16.
Qed.

(** ** The frame codec *)

Lemma TYPE_roundtrip (ty : msg_type) :
  TYPE_TO_STRING (TYPE_FROM_STRING ty) = Some ty.
Proof. destruct ty; reflexivity. Qed.

(** What [_packHeader] leaves in a fresh 4-byte buffer. *)
Lemma encodeHeader_bytes (ty : msg_type) (len : Z) :
  0 <= len <= MAX_TRAILER_LENGTH ->
  exists t f hi lo,
    encodeHeader ty len = Ok [t; f; hi; lo] /\
    u8 t = TYPE_FROM_STRING ty /\
    u8 f = (if len >=? EXTENSION_LENGTH then FLAGS_E_MASK else 0) /\
    Z.lor (Z.shiftl (u8 hi) 8) (u8 lo) =
      (if len >=? EXTENSION_LENGTH then len - EXTENSION_LENGTH else len).
Proof.
  intros Hlen. unfold MAX_TRAILER_LENGTH in Hlen. cbn in Hlen.
  unfold encodeHeader, _packHeader.
  change (new_Buffer HEADER_LENGTH) with [x00; x00; x00; x00].
  destruct (byte_of_Some (TYPE_FROM_STRING ty)) as [t [Et Ht]];
    [destruct ty; cbn; lia|].
  unfold writeUInt8 at 1. rewrite Et. cbn [rbind set_byte].
  change (set_byte [x00; x00; x00; x00] 0 t) with (Ok [t; x00; x00; x00]).
  cbn [rbind].
  destruct (len >=? EXTENSION_LENGTH) eqn:E.
  - assert (65536 <= len) by (unfold EXTENSION_LENGTH in E; cbn in E; lia).
    change (Z.lor 0 FLAGS_E_MASK) with 128.
    change (writeUInt8 [t; x00; x00; x00] (Num 128) (0 + 1))
      with (Ok [t; x80; x00; x00]).
    cbn [rbind].
    destruct (writeUInt16BE_header t x80 x00 x00 (len - EXTENSION_LENGTH))
      as [hi [lo [Ew Hw]]];
      [unfold EXTENSION_LENGTH; cbn; lia|].
    change (0 + 1 + 1) with 2. rewrite Ew. cbn [rbind].
    exists t, x80, hi, lo. repeat split; assumption.
  - assert (len < 65536) by (unfold EXTENSION_LENGTH in E; cbn in E; lia).
    change (writeUInt8 [t; x00; x00; x00] (Num 0) (0 + 1))
      with (Ok [t; x00; x00; x00]).
    cbn [rbind].
    destruct (writeUInt16BE_header t x00 x00 x00 len) as [hi [lo [Ew Hw]]];
      [lia|].
    change (0 + 1 + 1) with 2. rewrite Ew. cbn [rbind].
    exists t, x00, hi, lo. repeat split; assumption.
Qed.

(** The decoding steps of [_readHeader] on any four bytes. *)
Lemma decodeHeader_bytes (m : Mode) (t f hi lo : byte) :
  decodeHeader (Some m) [t; f; hi; lo] =
  Ok (match TYPE_TO_STRING (u8 t) with
      | Some ty => if VALID_TYPES m ty then T ty else ignore
      | None => ignore
      end,
      if negb (Z.land (u8 f) FLAGS_E_MASK =? 0)
      then Z.lor (Z.shiftl (u8 hi) 8) (u8 lo) + EXTENSION_LENGTH
      else Z.lor (Z.shiftl (u8 hi) 8) (u8 lo)).
Proof.
  unfold decodeHeader.
  change (readUInt8 [t; f; hi; lo] 0) with (Ok (u8 t)).
  cbn [rbind].
  change (readUInt8 [t; f; hi; lo] (0 + 1)) with (Ok (u8 f)).
  change (readUInt16BE [t; f; hi; lo] (0 + 1 + 1))
    with (Ok (Z.lor (Z.shiftl (u8 hi) 8) (u8 lo))).
  destruct (TYPE_TO_STRING (u8 t)) as [ty|]; [destruct (VALID_TYPES m ty)|];
    reflexivity.
Qed.

Lemma field_16_range (hi lo : byte) :
  0 <= Z.lor (Z.shiftl (u8 hi) 8) (u8 lo) <= 0xffff.
Proof.
  pose proof (u8_range hi) as Hh. pose proof (u8_range lo) as Hl.
  assert (Hs : Z.shiftl (u8 hi) 8 = u8 hi * 256)
    by (rewrite Z.shiftl_mul_pow2 by lia; reflexivity).
  pose proof (Zbitwise.Z.add_lor_land (Z.shiftl (u8 hi) 8) (u8 lo)) as Hadd.
  assert (0 <= Z.land (Z.shiftl (u8 hi) 8) (u8 lo))
    by (apply Z.land_nonneg; lia).
  assert (0 <= Z.lor (Z.shiftl (u8 hi) 8) (u8 lo))
    by (apply Z.lor_nonneg; lia).
  lia.
Qed.

(** A header that [_packHeader] has written decodes, by the steps of
    [_readHeader], to the type and the length it was written from: the first
    byte is the type's code, and in every mode the decoded length is [len]
    and the decoded type is [ty] wherever the mode admits [ty]. *)
Definition roundtrips (ty : msg_type) (len : Z) : Prop :=
  exists hdr,
    encodeHeader ty len = Ok hdr /\
    blen hdr = HEADER_LENGTH /\
    (let* t := readUInt8 hdr 0 in Ok (TYPE_TO_STRING t)) = Ok (Some ty) /\
    forall m,
      decodeHeader (Some m) hdr =
      Ok (if VALID_TYPES m ty then T ty else ignore, len).

Lemma packed_header_decodes (ty : msg_type) (len : Z) :
  0 <= len <= MAX_TRAILER_LENGTH -> roundtrips ty len.
Proof.
  intros Hlen.
  destruct (encodeHeader_bytes ty len Hlen) as [t [f [hi [lo [E [Ht [Hf Hl]]]]]]].
  exists [t; f; hi; lo]. split; [exact E|]. split; [reflexivity|]. split.
  - change (readUInt8 [t; f; hi; lo] 0) with (Ok (u8 t)). cbn [rbind].
    rewrite Ht, TYPE_roundtrip. reflexivity.
  - intros m. rewrite decodeHeader_bytes, Ht, TYPE_roundtrip, Hf, Hl.
    destruct (len >=? EXTENSION_LENGTH).
    + change (negb (Z.land FLAGS_E_MASK FLAGS_E_MASK =? 0)) with true.
      cbn [negb]. do 2 f_equal. lia.
    + reflexivity.
Qed.

(** C1.  Header codec round trip: for every frame type and every length in
    [0, 131071], decoding the four bytes written by [_packHeader] with the
    decoding steps of [_readHeader] gives back the type and the length; the
    extension bit that stands for 65536 is set and undone correctly. *)
Theorem header_roundtrip (ty : msg_type) (len : Z) :
  0 <= len <= MAX_TRAILER_LENGTH -> roundtrips ty len.
Proof.
  intros Hlen. unfold roundtrips.
  destruct (packed_header_decodes ty len Hlen) as [hdr [E [Hl [Ht Hd]]]].
  exists hdr. repeat split; assumption.
Qed.

Lemma header_roundtrip_witness :
  0 <= 70000 <= MAX_TRAILER_LENGTH /\ roundtrips message 70000.
Proof.
  assert (H : 0 <= 70000 <= MAX_TRAILER_LENGTH)
    by (unfold MAX_TRAILER_LENGTH; cbn; lia).
  split; [exact H | exact (header_roundtrip message 70000 H)].
Defined.

(** Whatever the four header bytes are, the length [_readHeader] computes
    from them lies in [0, 131071]. *)
Lemma decodeHeader_length_bound (m : Mode) (t f hi lo : byte) :
  exists tg len,
    decodeHeader (Some m) [t; f; hi; lo] = Ok (tg, len) /\
    0 <= len <= MAX_TRAILER_LENGTH.
Proof.
  rewrite decodeHeader_bytes. eexists. eexists. split; [reflexivity|].
  pose proof (field_16_range hi lo) as H.
  change MAX_TRAILER_LENGTH with 131071.
  change EXTENSION_LENGTH with 65536.
  destruct (negb _); lia.
Qed.

Lemma decodeHeader_bound (m : option Mode) (chunk : Buffer) tg len :
  decodeHeader m chunk = Ok (tg, len) -> 0 <= len <= MAX_TRAILER_LENGTH.
Proof.
  unfold decodeHeader, readUInt16BE. intros H.
  destruct (readUInt8 chunk 0) as [t|]; [|discriminate]. cbn [rbind] in H.
  destruct m as [m|]; [|discriminate].
  assert (Hb : forall o v, readUInt8 chunk o = Ok v -> exists b, v = u8 b).
  { intros o v. unfold readUInt8. destruct (_ && _); [|discriminate].
    destruct (nth_error chunk (Z.to_nat o)) as [b|]; [|discriminate].
    intros [= <-]. exists b. reflexivity. }
  destruct (match TYPE_TO_STRING t with
            | Some ty => if VALID_TYPES m ty then Ok (T ty) else Ok ignore
            | None => Ok ignore end) as [tg'|]; [|discriminate].
  cbn [rbind] in H.
  destruct (readUInt8 chunk (0 + 1)) as [f|]; [|discriminate].
  cbn [rbind] in H.
  destruct (readUInt8 chunk (0 + 1 + 1)) as [hi|] eqn:Ehi; [|discriminate].
  cbn [rbind] in H.
  destruct (readUInt8 chunk (0 + 1 + 1 + 1)) as [lo|] eqn:Elo; [|discriminate].
  cbn [rbind] in H.
  destruct (Hb _ _ Ehi) as [bh ->]. destruct (Hb _ _ Elo) as [bl ->].
  pose proof (field_16_range bh bl) as Hr.
  apply Ok_pair_inj in H. destruct H as [_ <-].
  change MAX_TRAILER_LENGTH with 131071.
  change EXTENSION_LENGTH with 65536.
  destruct (negb _); lia.
Qed.

(** ** Evaluating session methods *)

Lemma firstn_blen_app (l1 l2 : Buffer) :
  firstn (Z.to_nat (blen l1)) (l1 ++ l2) = l1.
Proof.
  unfold blen. rewrite Nat2Z.id, firstn_app, Nat.sub_diag, firstn_all.
  cbn. apply app_nil_r.
Qed.

Lemma skipn_blen_app (l1 l2 : Buffer) :
  skipn (Z.to_nat (blen l1)) (l1 ++ l2) = l2.
Proof.
  unfold blen. rewrite Nat2Z.id, skipn_app, Nat.sub_diag, skipn_all.
  reflexivity.
Qed.

Lemma blen_app (l1 l2 : Buffer) : blen (l1 ++ l2) = blen l1 + blen l2.
Proof. unfold blen. rewrite length_app. lia. Qed.

Lemma blen_nonneg (l : Buffer) : 0 <= blen l.
Proof. unfold blen. lia. Qed.

(** Reduction of session code: the monad, the field updates and the
    methods are unfolded; arithmetic, lists, the codec and the primitives of
    socket and stream are left for lemmas. *)
Ltac run :=
  cbv beta iota zeta delta
    [bind ret throw lift gets modify when emit nextTick rbind fst snd
     with_ss with_sock with_inputStream with_ticks with_requests with_log
     set_mode set_paused set_attachCallback set_connectCallback set_trailer
     set_readFunc set_socket set_needDrain
     wrote null_handles is_established truthy_bool acceptDefault
     pause _doRead resume _initInputStream _established _handleMessage
     _handlePositiveResponse _handleNegativeResponse _doDrain
     _handleRequest _readTrailer _readHeader call_readFunc doRead_tick
     accept_function reject_function request_accept request_reject
     socket_once_drain stream_once_readable stream_push stream_readable
     socket_data run_drain_listener run_task run_tick negb andb orb];
  cbn [ss sock inputStream ticks requests log pause_on_message
       mode direct autoAccept paused attachCallback connectCallback
       trailerType trailerLength readFunc socket needDrain
       written ended flushes drainL buffered readableL reads
       callTo callFrom accept reject error bytesRead name
       write_error bytesWritten write_buf].

(** [stream_read] when enough bytes are buffered, and when not. *)
Lemma stream_read_enough (w : World) (st : Readable) (chunk rest : Buffer) :
  inputStream w = Some st ->
  buffered st = chunk ++ rest ->
  stream_read (blen chunk) w =
  Ok (Some chunk,
      with_inputStream
        (Some {| buffered := rest; readableL := readableL st;
                 reads := reads st ++ [blen chunk] |}) w).
Proof.
  intros Hst Hbuf. unfold stream_read. rewrite Hst, Hbuf.
  replace (blen chunk <=? blen (chunk ++ rest)) with true
    by (symmetry; apply Z.leb_le; rewrite blen_app;
        pose proof (blen_nonneg rest); lia).
  rewrite firstn_blen_app, skipn_blen_app. reflexivity.
Qed.

Lemma stream_read_short (w : World) (st : Readable) (n : Z) :
  inputStream w = Some st ->
  blen (buffered st) < n ->
  stream_read n w =
  Ok (None,
      with_inputStream
        (Some {| buffered := buffered st; readableL := readableL st;
                 reads := reads st ++ [n] |}) w).
Proof.
  intros Hst Hn. unfold stream_read. rewrite Hst.
  replace (n <=? blen (buffered st)) with false
    by (symmetry; apply Z.leb_gt; lia).
  reflexivity.
Qed.

(** ** Unexpected frames *)

(** Everything of the world the parser of inbound frames does not own: the
    application's view of the session, the socket, the tick queue, the
    request objects and the events seen so far. *)
Definition outside_parser (w : World) :=
  (mode (ss w), direct (ss w), autoAccept (ss w), paused (ss w),
   connectCallback (ss w), socket (ss w), needDrain (ss w),
   sock w, ticks w, requests w, log w).

(** The parser is back in its header-reading phase with [rest] as the bytes
    still to be parsed. *)
Definition at_header (w : World) (rest : Buffer) : Prop :=
  readFunc (ss w) = readHeader /\
  trailerType (ss w) = None /\
  trailerLength (ss w) = 0 /\
  exists st, inputStream w = Some st /\ buffered st = rest.

(** A header decodes to ['ignore'] exactly when its type byte is unknown or
    names a type the mode does not admit. *)
Lemma decodeHeader_ignore_iff (m : Mode) (t f hi lo : byte) :
  (exists len, decodeHeader (Some m) [t; f; hi; lo] = Ok (ignore, len)) <->
  (TYPE_TO_STRING (u8 t) = None \/
   exists ty, TYPE_TO_STRING (u8 t) = Some ty /\ VALID_TYPES m ty = false).
Proof.
  rewrite decodeHeader_bytes. split.
  - intros [len H]. apply Ok_pair_inj in H. destruct H as [H _].
    destruct (TYPE_TO_STRING (u8 t)) as [ty|]; [|left; reflexivity].
    right. exists ty. split; [reflexivity|].
    destruct (VALID_TYPES m ty); [discriminate|reflexivity].
  - intros [H|[ty [H1 H2]]].
    + rewrite H. eexists. reflexivity.
    + rewrite H1, H2. eexists. reflexivity.
Qed.

Section Draining.

Variable fromBuffer : Buffer -> option Z -> NBName.

(** A frame to be ignored whose bytes are all buffered is consumed by one
    call of [ss.readFunc]. *)
Lemma ignored_frame_whole (w : World) (m : Mode) (st : Readable)
    (hdr trailer rest : Buffer) :
  mode (ss w) = Some m ->
  readFunc (ss w) = readHeader ->
  inputStream w = Some st ->
  blen hdr = HEADER_LENGTH ->
  decodeHeader (Some m) hdr = Ok (ignore, blen trailer) ->
  buffered st = hdr ++ trailer ++ rest ->
  exists w',
    call_readFunc fromBuffer w = Ok (true, w') /\
    outside_parser w' = outside_parser w /\
    at_header w' rest.
Proof.
  intros Hm Hrf Hst Hh Hd Hbuf.
  run. rewrite Hrf. rewrite <- Hh.
  rewrite (stream_read_enough w st hdr (trailer ++ rest) Hst Hbuf).
  run. rewrite Hm, Hd. run.
  destruct (blen trailer >? 0) eqn:Hpos; run.
  - erewrite stream_read_enough by reflexivity.
    run. eexists. split; [reflexivity|]. split.
    + unfold outside_parser. run. rewrite Hm. reflexivity.
    + unfold at_header. run. repeat split. eexists. split; reflexivity.
  - assert (Hnil : trailer = []).
    { destruct trailer; [reflexivity|]. unfold blen in Hpos. cbn in Hpos.
      lia. }
    subst trailer. eexists. split; [reflexivity|]. split.
    + unfold outside_parser. run. rewrite Hm. reflexivity.
    + unfold at_header. run. rewrite Hrf. repeat split.
      eexists. split; reflexivity.
Qed.

(** The same frame when only the header and a part [pre] of the trailer are
    buffered: the call reports that it is not complete and waits; once the
    missing bytes [post] are buffered, the next call consumes the trailer and
    not a byte more. *)
Lemma ignored_frame_split (w : World) (m : Mode) (st : Readable)
    (hdr trailer pre post rest : Buffer) :
  mode (ss w) = Some m ->
  readFunc (ss w) = readHeader ->
  inputStream w = Some st ->
  blen hdr = HEADER_LENGTH ->
  decodeHeader (Some m) hdr = Ok (ignore, blen trailer) ->
  buffered st = hdr ++ pre ->
  blen pre < blen trailer ->
  pre ++ post = trailer ++ rest ->
  exists w1,
    call_readFunc fromBuffer w = Ok (false, w1) /\
    outside_parser w1 = outside_parser w /\
    exists w2 w',
      stream_push post w1 = Ok (tt, w2) /\
      call_readFunc fromBuffer w2 = Ok (true, w') /\
      outside_parser w' = outside_parser w /\
      at_header w' rest.
Proof.
  intros Hm Hrf Hst Hh Hd Hbuf Hshort Hsplit.
  run. rewrite Hrf. rewrite <- Hh.
  rewrite (stream_read_enough w st hdr pre Hst Hbuf).
  run. rewrite Hm, Hd. run.
  replace (blen trailer >? 0) with true
    by (symmetry; apply Z.gtb_lt; pose proof (blen_nonneg pre); lia).
  run.
  erewrite stream_read_short by (first [reflexivity | exact Hshort]).
  eexists. split; [reflexivity|]. split.
  { unfold outside_parser. run. rewrite Hm. reflexivity. }
  run. rewrite Hsplit.
  eexists. eexists. split; [reflexivity|]. run.
  erewrite stream_read_enough by reflexivity.
  run. split; [reflexivity|]. split.
  - unfold outside_parser. run. rewrite Hm. reflexivity.
  - unfold at_header. run. repeat split. eexists. split; reflexivity.
Qed.

(** C3.  Unexpected-frame draining keeps the stream aligned: when the
    session is in a mode of the legality table and a header decodes to
    ['ignore'] (its type byte is unknown, or not legal in that mode), the
    parser consumes the header and exactly the decoded number of trailer
    bytes, whether they are buffered at once or arrive later; it throws
    nothing, emits and calls nothing, leaves session, socket and tick queue
    as they were, and is back in the header-reading phase at the first byte
    after the frame. *)
Theorem unexpected_frame_drained (w : World) (m : Mode) (st : Readable)
    (hdr trailer : Buffer) :
  mode (ss w) = Some m ->
  readFunc (ss w) = readHeader ->
  inputStream w = Some st ->
  blen hdr = HEADER_LENGTH ->
  decodeHeader (Some m) hdr = Ok (ignore, blen trailer) ->
  (forall rest,
     buffered st = hdr ++ trailer ++ rest ->
     exists w',
       call_readFunc fromBuffer w = Ok (true, w') /\
       outside_parser w' = outside_parser w /\
       at_header w' rest) /\
  (forall pre post rest,
     buffered st = hdr ++ pre ->
     blen pre < blen trailer ->
     pre ++ post = trailer ++ rest ->
     exists w1,
       call_readFunc fromBuffer w = Ok (false, w1) /\
       outside_parser w1 = outside_parser w /\
       exists w2 w',
         stream_push post w1 = Ok (tt, w2) /\
         call_readFunc fromBuffer w2 = Ok (true, w') /\
         outside_parser w' = outside_parser w /\
         at_header w' rest).
Proof.
  intros Hm Hrf Hst Hh Hd. split.
  - intros rest Hbuf. eapply ignored_frame_whole; eassumption.
  - intros pre post rest Hbuf Hshort Hsplit.
    eapply ignored_frame_split; eassumption.
Qed.

(** In a session that has ended ([ss.mode] is [null]) the legality table has
    no row, and reading a header throws. *)
Remark readHeader_after_end_throws (w : World) (st : Readable)
    (hdr rest : Buffer) :
  mode (ss w) = None ->
  readFunc (ss w) = readHeader ->
  inputStream w = Some st ->
  blen hdr = HEADER_LENGTH ->
  buffered st = hdr ++ rest ->
  exists e, call_readFunc fromBuffer w = Throw e.
Proof.
  intros Hm Hrf Hst Hh Hbuf.
  run. rewrite Hrf. rewrite <- Hh.
  rewrite (stream_read_enough w st hdr rest Hst Hbuf).
  run. rewrite Hm. unfold decodeHeader.
  destruct (readUInt8 hdr 0); run; eexists; reflexivity.
Qed.

End Draining.

(** A session attached to a socket in mode [m], not paused, with [buf]
    buffered in its input stream and nothing else pending. *)
Definition session_in (m : Mode) (buf : Buffer) : World :=
  with_inputStream (Some {| buffered := buf; readableL := 0; reads := [] |})
    (with_ss (fun s => set_socket true (set_mode (Some m) s))
       (NetbiosSession false false false (fun _ => false))).

(** A stand-in for the name codec in examples: every name record takes 34
    bytes, and a record that does not fit in the chunk is an error. *)
Definition fixed_fromBuffer (chunk : Buffer) (offset : option Z) : NBName :=
  match offset with
  | Some o =>
      if o + 34 <=? blen chunk
      then {| error := None; bytesRead := Some 34; name := "" |}
      else {| error := Some "Name truncated"; bytesRead := None; name := "" |}
  | None => {| error := Some "Bad offset"; bytesRead := None; name := "" |}
  end.

(** A message frame of two bytes, which [establishingIn] does not admit,
    followed by the first byte of the next header. *)
Lemma unexpected_frame_drained_witness :
  (forall rest,
     [x00; x00; x00; x02; xaa; xbb; x81] = [x00; x00; x00; x02] ++ [xaa; xbb] ++ rest ->
     exists w',
       call_readFunc fixed_fromBuffer
         (session_in establishingIn [x00; x00; x00; x02; xaa; xbb; x81])
       = Ok (true, w') /\
       outside_parser w' =
         outside_parser (session_in establishingIn [x00; x00; x00; x02; xaa; xbb; x81]) /\
       at_header w' rest) /\
  (forall pre post rest,
     [x00; x00; x00; x02; xaa; xbb; x81] = [x00; x00; x00; x02] ++ pre ->
     blen pre < blen [xaa; xbb] ->
     pre ++ post = [xaa; xbb] ++ rest ->
     exists w1,
       call_readFunc fixed_fromBuffer
         (session_in establishingIn [x00; x00; x00; x02; xaa; xbb; x81])
       = Ok (false, w1) /\
       outside_parser w1 =
         outside_parser (session_in establishingIn [x00; x00; x00; x02; xaa; xbb; x81]) /\
       exists w2 w',
         stream_push post w1 = Ok (tt, w2) /\
         call_readFunc fixed_fromBuffer w2 = Ok (true, w') /\
         outside_parser w' =
           outside_parser (session_in establishingIn [x00; x00; x00; x02; xaa; xbb; x81]) /\
         at_header w' rest).
Proof.
  apply (unexpected_frame_drained fixed_fromBuffer
           (session_in establishingIn [x00; x00; x00; x02; xaa; xbb; x81])
           establishingIn
           {| buffered := [x00; x00; x00; x02; xaa; xbb; x81];
              readableL := 0; reads := [] |}
           [x00; x00; x00; x02] [xaa; xbb]);
    reflexivity.
Defined.

(** ** Sending responses *)

Lemma socket_write_bound (w : World) (buf : Buffer) :
  socket (ss w) = true ->
  socket_write buf w = Ok (next_flush (sock w), with_sock (wrote buf) w).
Proof. intros H. unfold socket_write. rewrite H. reflexivity. Qed.

Lemma packHeader_offset (buf : Buffer) (ty : msg_type) (len : Z) b o :
  _packHeader buf 0 ty len = Ok (b, o) -> o = HEADER_LENGTH.
Proof.
  unfold _packHeader.
  destruct (writeUInt8 buf (Num (TYPE_FROM_STRING ty)) 0); [|discriminate].
  cbn [rbind].
  destruct (len >=? EXTENSION_LENGTH).
  - destruct (writeUInt8 _ _ _); [|discriminate]. cbn [rbind].
    destruct (writeUInt16BE _ _ _); [|discriminate]. cbn [rbind].
    intros H. apply Ok_pair_inj in H. destruct H as [_ <-]. reflexivity.
  - destruct (writeUInt8 _ _ _); [|discriminate]. cbn [rbind].
    destruct (writeUInt16BE _ _ _); [|discriminate]. cbn [rbind].
    intros H. apply Ok_pair_inj in H. destruct H as [_ <-]. reflexivity.
Qed.

Lemma packHeader_encode (ty : msg_type) (len : Z) (hdr : Buffer) :
  encodeHeader ty len = Ok hdr ->
  _packHeader (new_Buffer HEADER_LENGTH) 0 ty len = Ok (hdr, HEADER_LENGTH).
Proof.
  unfold encodeHeader.
  destruct (_packHeader (new_Buffer HEADER_LENGTH) 0 ty len) as [[b o]|] eqn:E;
    [|discriminate].
  cbn [rbind]. intros [= <-].
  rewrite (packHeader_offset _ _ _ _ _ E). reflexivity.
Qed.

Lemma packHeader_positive_response :
  _packHeader (new_Buffer HEADER_LENGTH) 0 positive_response 0 =
  Ok ([x82; x00; x00; x00], 4).
Proof. reflexivity. Qed.

Lemma packHeader_negative_response :
  _packHeader (new_Buffer (HEADER_LENGTH + 1)) 0 negative_response 1 =
  Ok ([x83; x00; x00; x01; x00], 4).
Proof. reflexivity. Qed.

(** [_sendPositiveResponse] on a bound socket writes the four bytes
    82 00 00 00 and nothing else happens. *)
Lemma sendPositiveResponse_bound (w : World) :
  socket (ss w) = true ->
  _sendPositiveResponse w =
  Ok (tt, with_sock (wrote [x82; x00; x00; x00]) w).
Proof.
  intros H. unfold _sendPositiveResponse. run.
  rewrite packHeader_positive_response. run.
  rewrite socket_write_bound by exact H. reflexivity.
Qed.

(** The code byte a reason stands for in the frame [reject] sends. *)
Definition reason_code (reason : option string) : byte :=
  match ERROR_CODE_FROM_STRING reason with
  | Own 0x80 => x80
  | Own 0x81 => x81
  | Own 0x82 => x82
  | Own 0x83 => x83
  | Inherited => x00
  | _ => x8f
  end.

Lemma ERROR_CODE_FROM_STRING_cases (reason : option string) :
  ERROR_CODE_FROM_STRING reason = Own 0x80 \/
  ERROR_CODE_FROM_STRING reason = Own 0x81 \/
  ERROR_CODE_FROM_STRING reason = Own 0x82 \/
  ERROR_CODE_FROM_STRING reason = Own 0x83 \/
  ERROR_CODE_FROM_STRING reason = Own 0x8f \/
  ERROR_CODE_FROM_STRING reason = Inherited \/
  ERROR_CODE_FROM_STRING reason = Undefined.
Proof.
  destruct reason as [s|]; [|tauto].
  unfold ERROR_CODE_FROM_STRING, ERROR_CODE_FROM_STRING_own, assoc.
  repeat (destruct (String.eqb s _); [tauto|]).
  destruct (inherited_name s); tauto.
Qed.

(** The frame [_sendNegativeResponse] builds: a negative-response header
    with length 1 and the reason's code byte. *)
Definition negative_response_frame (reason : option string) : Buffer :=
  [x83; x00; x00; x01; reason_code reason].

(** [_sendNegativeResponse] on a bound socket: the frame is written; the
    session ends at once when the write is flushed, and otherwise [end] is
    left as a drain listener. *)
Lemma sendNegativeResponse_bound (w : World) (reason : option string) :
  socket (ss w) = true ->
  _sendNegativeResponse reason w =
  if next_flush (sock w)
  then end_ (with_sock (wrote (negative_response_frame reason)) w)
  else socket_once_drain drain_end
         (with_sock (wrote (negative_response_frame reason)) w).
Proof.
  intros H. unfold _sendNegativeResponse. run.
  rewrite packHeader_negative_response. run.
  unfold negative_response_frame, reason_code.
  destruct (ERROR_CODE_FROM_STRING_cases reason)
    as [E|[E|[E|[E|[E|[E|E]]]]]]; rewrite E; run;
    match goal with
    | |- context [writeUInt8 ?b ?v ?o] =>
        let r := eval vm_compute in (writeUInt8 b v o) in
        change (writeUInt8 b v o) with r
    end;
    run; rewrite socket_write_bound by exact H;
    destruct (next_flush (sock w)); reflexivity.
Qed.

Lemma end_bound (w : World) :
  socket (ss w) = true ->
  exists w',
    end_ w = Ok (tt, w') /\
    mode (ss w') = None /\ paused (ss w') = false /\
    socket (ss w') = false /\
    ended (sock w') = true /\ written (sock w') = written (sock w) /\
    drainL (sock w') = drainL (sock w) /\
    log w' = log w /\ requests w' = requests w /\ ticks w' = ticks w /\
    connectCallback (ss w') = connectCallback (ss w).
Proof.
  intros H. unfold end_. run. rewrite H.
  eexists. split; [reflexivity|]. run. repeat split; reflexivity.
Qed.

(** ** The default policy of [_handleRequest] *)

Section Handshake.

Variable fromBuffer : Buffer -> option Z -> NBName.

(** C5.  The no-callback branch of [_handleRequest] does not consult the
    constructor's flag: whenever no [attach] callback is registered and both
    names of the call request decode, the session becomes established, emits
    ['connect'] and writes the positive response 82 00 00 00, whatever
    [autoAccept] is. *)
Theorem default_policy_always_accepts (w : World) (chunk : Buffer) :
  attachCallback (ss w) = None ->
  socket (ss w) = true ->
  error (fromBuffer chunk (Some 0)) = None ->
  error (fromBuffer chunk (bytesRead (fromBuffer chunk (Some 0)))) = None ->
  exists w',
    _handleRequest fromBuffer chunk w = Ok (tt, w') /\
    autoAccept (ss w') = autoAccept (ss w) /\
    mode (ss w') = Some established /\
    written (sock w') = written (sock w) ++ [[x82; x00; x00; x00]] /\
    ended (sock w') = ended (sock w) /\
    log w' = log w ++ [emit_connect].
Proof.
  intros Hcb Hs He1 He2.
  repeat progress (run; rewrite ?Hcb, ?He1, ?He2).
  rewrite sendPositiveResponse_bound by (run; exact Hs).
  eexists. split; [reflexivity|]. run. repeat split; reflexivity.
Qed.

End Handshake.

(** A session constructed without [autoAccept], attached without a
    callback, that receives a call request of two name records. *)
Lemma default_policy_always_accepts_witness :
  autoAccept (ss (session_in establishingIn [])) = false /\
  exists w',
    _handleRequest fixed_fromBuffer (repeat x20 68)
      (session_in establishingIn []) = Ok (tt, w') /\
    autoAccept (ss w') = autoAccept (ss (session_in establishingIn [])) /\
    mode (ss w') = Some established /\
    written (sock w') =
      written (sock (session_in establishingIn [])) ++ [[x82; x00; x00; x00]] /\
    ended (sock w') = ended (sock (session_in establishingIn [])) /\
    log w' = log (session_in establishingIn []) ++ [emit_connect].
Proof.
  split; [reflexivity|].
  apply (default_policy_always_accepts fixed_fromBuffer
           (session_in establishingIn []) (repeat x20 68));
    reflexivity.
Defined.

(** ** [reject] *)

(** Reasons of the table get their code, and an absent reason or a string
    that names no property at all gets 0x8f. *)
Lemma reason_code_table (s : string) (c : Z) :
  assoc s ERROR_CODE_FROM_STRING_own = Some c ->
  u8 (reason_code (Some s)) = c.
Proof.
  unfold reason_code, ERROR_CODE_FROM_STRING, ERROR_CODE_FROM_STRING_own, assoc.
  repeat (destruct (String.eqb s _); [intros [= <-]; reflexivity|]).
  discriminate.
Qed.

Lemma reason_code_unspecified (reason : option string) :
  match reason with
  | None => True
  | Some s =>
      assoc s ERROR_CODE_FROM_STRING_own = None /\ inherited_name s = false
  end ->
  reason_code reason = x8f.
Proof.
  destruct reason as [s|]; [|reflexivity].
  intros [H1 H2]. unfold reason_code, ERROR_CODE_FROM_STRING.
  rewrite H1, H2. reflexivity.
Qed.

(** On a bound socket [_sendNegativeResponse] writes one frame of five
    bytes whose header says negative response with trailer length 1; the
    socket is ended in the same call when the write was flushed, and
    otherwise it stays open with [end] waiting for ['drain']. *)
Lemma sendNegativeResponse_frame (w : World) (reason : option string) :
  socket (ss w) = true ->
  exists w',
    _sendNegativeResponse reason w = Ok (tt, w') /\
    written (sock w') = written (sock w) ++ [negative_response_frame reason] /\
    decodeHeader (Some establishingOut)
      (firstn 4 (negative_response_frame reason)) =
      Ok (T negative_response, 1) /\
    skipn 4 (negative_response_frame reason) = [reason_code reason] /\
    requests w' = requests w /\
    if next_flush (sock w)
    then ended (sock w') = true /\ socket (ss w') = false
    else ended (sock w') = ended (sock w) /\ socket (ss w') = true /\
         drainL (sock w') = drainL (sock w) ++ [drain_end].
Proof.
  intros H. rewrite sendNegativeResponse_bound by exact H.
  destruct (next_flush (sock w)).
  - destruct (end_bound (with_sock (wrote (negative_response_frame reason)) w))
      as [w' [E [_ [_ [Hs [He [Hw [_ [_ [Hr _]]]]]]]]]]; [exact H|].
    exists w'. split; [exact E|]. rewrite Hw, Hr.
    repeat split; assumption.
  - unfold socket_once_drain. run. rewrite H.
    eexists. split; [reflexivity|]. run. repeat split; assumption.
Qed.

(** A session in [establishingIn] whose application has been handed a
    request object and has not decided yet. *)
Definition undecided : World :=
  with_requests
    (fun _ => [{| callTo := fixed_fromBuffer (repeat x20 68) (Some 0);
                  callFrom := fixed_fromBuffer (repeat x20 68) (Some 34);
                  accept := true; reject := true |}])
    (with_ss (set_attachCallback (Some (fun _ _ => Defer)))
       (session_in establishingIn [])).

(** C6, at a reason outside the table: ["constructor"] is not one of the
    enumerated strings, yet the lookup finds the member every object
    inherits, the fallback to ['Unspecified error'] is skipped, and the
    frame goes out with the code byte 00 instead of 8f. *)
Theorem reject_inherited_name_code :
  assoc "constructor" ERROR_CODE_FROM_STRING_own = None /\
  exists w',
    request_reject 0 (Some "constructor") undecided = Ok (tt, w') /\
    written (sock w') = [[x83; x00; x00; x01; x00]].
Proof.
  split; [reflexivity|]. eexists. split; reflexivity.
Qed.

(** ** Negative responses *)

Section NegativeResponse.

Variable fromBuffer : Buffer -> option Z -> NBName.

(** C7, at trailer length 0: a negative-response header with a zero length
    is consumed by [_readHeader] without reaching
    [_handleNegativeResponse]; the connect callback stays registered and is
    not called, nothing is logged, and the socket is not ended. *)
Theorem empty_negative_response_ignored (w : World) (st : Readable)
    (rest : Buffer) :
  mode (ss w) = Some establishingOut ->
  readFunc (ss w) = readHeader ->
  inputStream w = Some st ->
  buffered st = [x83; x00; x00; x00] ++ rest ->
  exists w',
    call_readFunc fromBuffer w = Ok (true, w') /\
    outside_parser w' = outside_parser w /\
    at_header w' rest.
Proof.
  intros Hm Hrf Hst Hbuf.
  unfold call_readFunc, bind at 1, gets at 1. rewrite Hrf.
  unfold _readHeader, bind at 1.
  change HEADER_LENGTH with (blen [x83; x00; x00; x00]).
  rewrite (stream_read_enough w st _ rest Hst Hbuf).
  run. rewrite Hm.
  change (decodeHeader (Some establishingOut) [x83; x00; x00; x00])
    with (Ok (T negative_response, 0) : Res (tag * Z)).
  run. eexists. split; [reflexivity|]. split.
  - unfold outside_parser. run. rewrite Hm. reflexivity.
  - unfold at_header. run. rewrite Hrf. repeat split.
    eexists. split; reflexivity.
Qed.

End NegativeResponse.

Lemma empty_negative_response_ignored_witness :
  exists w',
    call_readFunc fixed_fromBuffer
      (with_ss (set_connectCallback (Some 7%nat))
         (session_in establishingOut [x83; x00; x00; x00])) = Ok (true, w') /\
    outside_parser w' =
      outside_parser
        (with_ss (set_connectCallback (Some 7%nat))
           (session_in establishingOut [x83; x00; x00; x00])) /\
    at_header w' [].
Proof.
  apply (empty_negative_response_ignored fixed_fromBuffer
           (with_ss (set_connectCallback (Some 7%nat))
              (session_in establishingOut [x83; x00; x00; x00]))
           {| buffered := [x83; x00; x00; x00]; readableL := 0; reads := [] |}
           []);
    reflexivity.
Defined.

(** A negative response whose trailer has two bytes or more is treated as
    a protocol violation: the connect callback, if there is one, is called
    with the malformed-response error, and the session ends either way. *)
Lemma long_negative_response_closes (w : World) (chunk : Buffer) :
  mode (ss w) = Some establishingOut ->
  socket (ss w) = true ->
  1 < blen chunk ->
  exists w',
    _handleNegativeResponse chunk w = Ok (tt, w') /\
    mode (ss w') = None /\
    socket (ss w') = false /\
    ended (sock w') = true /\
    connectCallback (ss w') = None /\
    log w' =
      log w ++
      match connectCallback (ss w) with
      | Some id => [call_connectCallback id (Some MalformedNegativeResponse)]
      | None => []
      end.
Proof.
  intros Hm Hs Hlen.
  unfold _handleNegativeResponse, bind at 1, gets at 1. rewrite Hm. run.
  replace (blen chunk =? 1) with false by (symmetry; apply Z.eqb_neq; lia).
  run. destruct (connectCallback (ss w)) as [id|]; run.
  - match goal with
    | |- context [end_ ?x] =>
        destruct (end_bound x) as [w' [E [H1 [_ [H2 [H3 [_ [_ [H4 [_ [_ H5]]]]]]]]]]];
          [exact Hs|]
    end.
    rewrite E. exists w'. split; [reflexivity|].
    rewrite H4. repeat split; assumption.
  - destruct chunk as [|b chunk]; [unfold blen in Hlen; cbn in Hlen; lia|].
    replace (readUInt8 (b :: chunk) 0) with (Ok (u8 b)).
    2:{ unfold readUInt8.
        replace ((0 <=? 0) && (0 <? blen (b :: chunk))) with true
          by (symmetry; apply andb_true_iff; split;
              [reflexivity | apply Z.ltb_lt; lia]).
        reflexivity. }
    run.
    match goal with
    | |- context [end_ ?x] =>
        destruct (end_bound x) as [w' [E [H1 [_ [H2 [H3 [_ [_ [H4 [_ [_ H5]]]]]]]]]]];
          [exact Hs|]
    end.
    rewrite E. exists w'. split; [reflexivity|].
    rewrite H4, app_nil_r. repeat split; assumption.
Qed.

(** ** [write] *)

(** What [write] leaves behind for a message of at most 131071 bytes on a
    socket whose next two [write] calls return [f1] and [f2]. *)
Definition written_as_frame (w : World) (msg : Buffer) (callback : Callback)
    (hdr : Buffer) (r : bool) (w' : World) : Prop :=
  let f1 := next_flush (sock w) in
  let f2 := next_flush (wrote hdr (sock w)) in
  r = (if f1 then f2 else false) /\
  log w' = log w ++ (if f1 && f2 && needDrain (ss w) then [emit_drain] else []) /\
  if f1 then
    written (sock w') = written (sock w) ++ [hdr; msg] /\
    if f2 then
      drainL (sock w') = drainL (sock w) /\
      ticks w' =
        ticks w ++
        match callback with
        | Some id => [tick_writeCallback id None]
        | None => []
        end
    else
      drainL (sock w') = drainL (sock w) ++ [drain_doDrain callback] /\
      needDrain (ss w') = true /\ ticks w' = ticks w
  else
    written (sock w') = written (sock w) ++ [hdr] /\
    drainL (sock w') = drainL (sock w) ++ [drain_writeMsg msg callback] /\
    needDrain (ss w') = true /\ ticks w' = ticks w /\
    exists w'',
      run_drain_listener (drain_writeMsg msg callback) w' = Ok (tt, w'') /\
      written (sock w'') = written (sock w) ++ [hdr; msg].

Lemma writeMsg_bound (w : World) (msg : Buffer) (callback : Callback) :
  socket (ss w) = true ->
  exists w',
    _writeMsg msg callback w = Ok (next_flush (sock w), w') /\
    written (sock w') = written (sock w) ++ [msg] /\
    socket (ss w') = true /\
    log w' =
      log w ++
      (if next_flush (sock w) && needDrain (ss w) then [emit_drain] else []) /\
    if next_flush (sock w) then
      drainL (sock w') = drainL (sock w) /\
      ticks w' =
        ticks w ++
        match callback with
        | Some id => [tick_writeCallback id None]
        | None => []
        end
    else
      drainL (sock w') = drainL (sock w) ++ [drain_doDrain callback] /\
      needDrain (ss w') = true /\ ticks w' = ticks w.
Proof.
  intros H. unfold _writeMsg. run.
  rewrite socket_write_bound by exact H.
  destruct (next_flush (sock w)); run.
  - destruct (needDrain (ss w)) eqn:Hnd, callback as [id|]; run;
      rewrite ?Hnd; run;
      (eexists; split; [reflexivity|]; run;
       rewrite ?app_nil_r; repeat split; first [exact H | reflexivity]).
  - unfold socket_once_drain. run. rewrite H. run.
    eexists. split; [reflexivity|]. run.
    rewrite ?app_nil_r. repeat split; first [exact H | reflexivity].
Qed.

(** C8.  The contract of [write]: a message longer than 131071 bytes makes
    [write] emit ['error'], queue the completion callback (if there is one)
    with that error, write nothing and return [true]; a message of at most
    131071 bytes, on a bound socket, is sent as a message header whose
    length is the message's, followed by the message itself (after the
    drain, when the header was not flushed), and [write] returns whether
    the socket flushed both. *)
Theorem write_contract (w : World) (msg : Buffer) (callback : Callback) :
  (MAX_TRAILER_LENGTH < blen msg ->
   exists w',
     write msg callback w = Ok (true, w') /\
     ss w' = ss w /\ sock w' = sock w /\
     log w' =
       log w ++
       [emit_error (MessageLengthExceedsMaximum (blen msg) MAX_TRAILER_LENGTH)] /\
     ticks w' =
       ticks w ++
       match callback with
       | Some id =>
           [tick_writeCallback id
              (Some (MessageLengthExceedsMaximum (blen msg) MAX_TRAILER_LENGTH))]
       | None => []
       end) /\
  (blen msg <= MAX_TRAILER_LENGTH ->
   socket (ss w) = true ->
   exists hdr r w',
     encodeHeader message (blen msg) = Ok hdr /\
     decodeHeader (Some established) hdr = Ok (T message, blen msg) /\
     write msg callback w = Ok (r, w') /\
     written_as_frame w msg callback hdr r w').
Proof.
  split.
  - intros Hlen. unfold write.
    replace (blen msg >? MAX_TRAILER_LENGTH) with true
      by (symmetry; apply Z.gtb_lt; lia).
    destruct callback as [id|]; run;
      (eexists; split; [reflexivity|]; run;
       rewrite ?app_nil_r; repeat split; reflexivity).
  - intros Hlen Hs.
    destruct (packed_header_decodes message (blen msg)) as [hdr [E [_ [_ Hd]]]];
      [pose proof (blen_nonneg msg); lia|].
    exists hdr. unfold write.
    replace (blen msg >? MAX_TRAILER_LENGTH) with false
      by (symmetry; rewrite Z.gtb_ltb; apply Z.ltb_ge; lia).
    run. rewrite (packHeader_encode _ _ _ E). run.
    rewrite socket_write_bound by exact Hs.
    unfold written_as_frame.
    destruct (next_flush (sock w)) eqn:F1; run.
    + destruct (writeMsg_bound (with_sock (wrote hdr) w) msg callback)
        as [w' [Ew [Hw [_ [Hl Hrest]]]]]; [exact Hs|].
      revert Ew Hw Hl Hrest. run. intros Ew Hw Hl Hrest.
      eexists. exists w'. split; [exact E|]. split; [apply (Hd established)|].
      split; [exact Ew|]. split; [reflexivity|]. split; [exact Hl|].
      split; [rewrite Hw, <- app_assoc; reflexivity|exact Hrest].
    + unfold socket_once_drain. run. rewrite Hs. run.
      eexists. eexists. split; [exact E|]. split; [apply (Hd established)|].
      split; [reflexivity|]. run. split; [reflexivity|].
      split; [rewrite app_nil_r; reflexivity|].
      repeat (split; [reflexivity|]).
      match goal with
      | |- context [_writeMsg msg callback ?x] =>
          destruct (writeMsg_bound x msg callback)
            as [w'' [Ew [Hw _]]]; [first [exact Hs | reflexivity]|]
      end.
      rewrite Ew. run. exists w''. split; [reflexivity|].
      rewrite Hw. run. rewrite <- app_assoc. reflexivity.
Qed.

(** A message of 131072 bytes, and a message of three bytes on a fresh
    session. *)
Lemma write_contract_witness :
  MAX_TRAILER_LENGTH < blen (repeat x00 (Z.to_nat 131072)) /\
  blen [x01; x02; x03] <= MAX_TRAILER_LENGTH /\
  socket (ss (session_in established [])) = true /\
  (exists w',
     write (repeat x00 (Z.to_nat 131072)) (Some 1%nat)
       (session_in established []) = Ok (true, w')) /\
  (exists hdr r w',
     encodeHeader message (blen [x01; x02; x03]) = Ok hdr /\
     write [x01; x02; x03] (Some 1%nat) (session_in established [])
       = Ok (r, w') /\
     written_as_frame (session_in established []) [x01; x02; x03]
       (Some 1%nat) hdr r w').
Proof.
  assert (H1 : MAX_TRAILER_LENGTH < blen (repeat x00 (Z.to_nat 131072)))
    by (unfold blen; rewrite repeat_length, Z2Nat.id by lia; reflexivity).
  assert (H2 : blen [x01; x02; x03] <= MAX_TRAILER_LENGTH)
    by (intro H; discriminate H).
  split; [exact H1|]. split; [exact H2|]. split; [reflexivity|]. split.
  - destruct (proj1 (write_contract (session_in established [])
                       (repeat x00 (Z.to_nat 131072)) (Some 1%nat)) H1)
      as [w' [E _]].
    exists w'. exact E.
  - destruct (proj2 (write_contract (session_in established [])
                       [x01; x02; x03] (Some 1%nat)) H2 eq_refl)
      as [hdr [r [w' [E [_ [Ew Hf]]]]]].
    exists hdr, r, w'. split; [exact E|]. split; [exact Ew | exact Hf].
Defined.

(** ** The request object *)

Lemma nth_error_update_nth {A} (f : A -> A) (l : list A) (n : nat) (x : A) :
  nth_error l n = Some x ->
  nth_error (update_nth n f l) n = Some (f x).
Proof.
  revert n. induction l as [|y l IH]; intros [|n] H; try discriminate.
  - injection H as ->. reflexivity.
  - cbn in *. apply IH. exact H.
Qed.

(** Both handles of request object [r] are [null]. *)
Definition handles_null (w : World) (r : nat) : Prop :=
  exists req,
    nth_error (requests w) r = Some req /\
    accept req = false /\ reject req = false.

(** Neither [request.accept()] nor [request.reject(s)] can be called any
    more: both calls throw before anything is done. *)
Definition not_callable (w : World) (r : nat) : Prop :=
  (exists e, request_accept r w = Throw e) /\
  (forall s, exists e, request_reject r s w = Throw e).

Lemma handles_null_not_callable (w : World) (r : nat) :
  handles_null w r -> not_callable w r.
Proof.
  intros [req [Hn [Ha Hr]]]. split.
  - run. rewrite Hn, Ha. eexists. reflexivity.
  - intros s. run. rewrite Hn, Hr. eexists. reflexivity.
Qed.

(** C9.  One-shot accept and reject: on a session whose socket is attached,
    calling [request.accept()] or [request.reject(s)] through a request
    object whose handle is still set runs to completion and leaves both
    handles of that object [null], after which a call of either through
    the object throws a [TypeError] and does nothing. *)
Theorem request_one_shot (w : World) (r : nat) (req : Request) :
  nth_error (requests w) r = Some req ->
  socket (ss w) = true ->
  (accept req = true ->
   exists w',
     request_accept r w = Ok (tt, w') /\
     handles_null w' r /\ not_callable w' r) /\
  (reject req = true ->
   forall s,
   exists w',
     request_reject r s w = Ok (tt, w') /\
     handles_null w' r /\ not_callable w' r).
Proof.
  intros Hn Hs. split.
  - intros Ha. run. rewrite Hn, Ha.
    rewrite sendPositiveResponse_bound by (run; exact Hs).
    eexists. split; [reflexivity|].
    assert (Hnull : forall w', requests w' =
                      update_nth r null_handles (requests w) ->
                    handles_null w' r).
    { intros w' E. exists (null_handles req). rewrite E.
      split; [apply nth_error_update_nth; exact Hn | split; reflexivity]. }
    split; [|apply handles_null_not_callable]; apply Hnull; reflexivity.
  - intros Hr s. run. rewrite Hn, Hr.
    destruct (sendNegativeResponse_frame w s Hs) as [w1 [E [_ [_ [_ [Hq _]]]]]].
    rewrite E. eexists. split; [reflexivity|].
    assert (Hnull : handles_null
                      (with_requests (update_nth r null_handles) w1) r).
    { exists (null_handles req). unfold with_requests. cbn [requests].
      rewrite Hq.
      split; [apply nth_error_update_nth; exact Hn | split; reflexivity]. }
    split; [|apply handles_null_not_callable]; exact Hnull.
Qed.

Lemma request_one_shot_witness :
  (exists w',
     request_accept 0 undecided = Ok (tt, w') /\
     handles_null w' 0 /\ not_callable w' 0) /\
  (forall s,
   exists w',
     request_reject 0 s undecided = Ok (tt, w') /\
     handles_null w' 0 /\ not_callable w' 0).
Proof.
  destruct (request_one_shot undecided 0
              {| callTo := fixed_fromBuffer (repeat x20 68) (Some 0);
                 callFrom := fixed_fromBuffer (repeat x20 68) (Some 34);
                 accept := true; reject := true |}
              eq_refl eq_refl) as [Ha Hr].
  split; [exact (Ha eq_refl) | exact (Hr eq_refl)].
Defined.

Section Presenting.

Variable fromBuffer : Buffer -> option Z -> NBName.

(** The request object [_handleRequest] hands to an [attach] callback has
    both handles set; here the callback keeps the object and returns. *)
Lemma handleRequest_presents (w : World) (chunk : Buffer)
    (f : AttachCallback) :
  attachCallback (ss w) = Some f ->
  error (fromBuffer chunk (Some 0)) = None ->
  error (fromBuffer chunk (bytesRead (fromBuffer chunk (Some 0)))) = None ->
  f (fromBuffer chunk (Some 0))
    (fromBuffer chunk (bytesRead (fromBuffer chunk (Some 0)))) = Defer ->
  exists w' req,
    _handleRequest fromBuffer chunk w = Ok (tt, w') /\
    ss w' = ss w /\ sock w' = sock w /\
    log w' = log w ++ [call_attachCallback (List.length (requests w))] /\
    nth_error (requests w') (List.length (requests w)) = Some req /\
    accept req = true /\ reject req = true.
Proof.
  intros Hcb He1 He2 Hf.
  repeat progress (run; rewrite ?Hcb, ?He1, ?He2, ?Hf).
  eexists. eexists. split; [reflexivity|]. run.
  repeat (split; [reflexivity|]).
  rewrite nth_error_app2, Nat.sub_diag by apply Nat.le_refl.
  split; [reflexivity|split; reflexivity].
Qed.

End Presenting.

(** ** Chunked writes of the Duplex revision *)

Section Chunking.

Import Duplex.

(** The header [_writeChunk] writes before a piece of [n] bytes. *)
Definition hdr_of (n : Z) : Buffer :=
  match encodeHeader message n with
  | Ok h => h
  | Throw _ => []
  end.

Lemma hdr_of_spec (n : Z) :
  0 <= n <= MAX_TRAILER_LENGTH ->
  _packHeader (new_Buffer HEADER_LENGTH) 0 message n =
    Ok (hdr_of n, HEADER_LENGTH) /\
  decodeHeader (Some established) (hdr_of n) = Ok (T message, n).
Proof.
  intros Hn. destruct (packed_header_decodes message n Hn) as [h [E [_ [_ Hd]]]].
  unfold hdr_of. rewrite E. split.
  - apply packHeader_encode. exact E.
  - apply (Hd established).
Qed.

(** The events of one [_writeFlow]: the write with what it returned, and
    the drain the pipeline waits for when the write was not flushed. *)
Definition write_events (buf : Buffer) (fl : list bool) : list WEvent :=
  let f := match fl with [] => true | f :: _ => f end in
  ev_write buf f :: (if f then [] else [ev_drain]).

(** [hook] runs to the end with fuel [c] from any state without pending
    listeners, adding the events [tr] (which depend on what the socket's
    writes return). *)
Definition Runs (c : nat) (hook : Hook) (tr : list bool -> list WEvent)
    : Prop :=
  forall f1 f2 s,
    (c <= f1)%nat -> (c <= f2)%nat -> drainL s = [] ->
    exists s',
      rbind (call f1 hook s) (settle f2) = Ok s' /\
      trace s' = trace s ++ tr (flushes s) /\
      drainL s' = [].

Lemma Runs_callback : Runs 1 callback (fun _ => [ev_callback]).
Proof.
  intros f1 f2 s H1 _ Hd. destruct f1 as [|f1]; [lia|].
  cbn [call rbind]. rewrite Hd. eexists. split.
  - destruct f2; reflexivity.
  - split; reflexivity.
Qed.

(** One listener waiting for the drain: the socket drains and the listener
    is called. *)
Lemma settle_single (f2 : nat) (hook : Hook) (s : State) :
  drainL s = [] ->
  settle (S f2) (once_drain hook s) =
  rbind (call f2 hook
           {| trace := trace s ++ [ev_drain]; flushes := flushes s;
              drainL := [] |})
        (settle f2).
Proof.
  intros Hd. unfold once_drain. cbn [settle drainL]. rewrite Hd.
  cbn [app]. unfold drain. cbn [drainL trace flushes call_all].
  destruct (call f2 hook _); reflexivity.
Qed.

Lemma Runs_writeFlow (c : nat) (hook : Hook) (tr : list bool -> list WEvent)
    (buf : Buffer) :
  Runs c hook tr ->
  forall f1 f2 s,
    (c <= f1)%nat -> (S c <= f2)%nat -> drainL s = [] ->
    exists s',
      rbind (_writeFlow (call f1) buf hook s) (settle f2) = Ok s' /\
      trace s' = trace s ++ write_events buf (flushes s) ++ tr (tl (flushes s)) /\
      drainL s' = [].
Proof.
  intros HR f1 f2 s H1 H2 Hd.
  unfold _writeFlow, socket_write, write_events.
  destruct (match flushes s with [] => true | f :: _ => f end) eqn:Hf.
  - destruct (HR f1 f2
                {| trace := trace s ++ [ev_write buf true];
                   flushes := tl (flushes s); drainL := drainL s |})
      as [s' [E [Ht Hd']]]; [lia | lia | exact Hd |].
    exists s'. split; [exact E|]. split; [|exact Hd'].
    rewrite Ht. cbn [trace flushes]. rewrite <- app_assoc. reflexivity.
  - destruct f2 as [|f2]; [lia|].
    cbn [rbind]. rewrite settle_single by exact Hd.
    destruct (HR f2 f2
                {| trace := (trace s ++ [ev_write buf false]) ++ [ev_drain];
                   flushes := tl (flushes s); drainL := [] |})
      as [s' [E [Ht Hd']]]; [lia | lia | reflexivity |].
    exists s'. split; [exact E|]. split; [|exact Hd'].
    rewrite Ht. cbn [trace flushes]. rewrite <- !app_assoc. reflexivity.
Qed.

Lemma Runs_after_header (c : nat) (chunk : Buffer) (offset n : Z)
    (tr : list bool -> list WEvent) :
  Runs c (if offset + n <? blen chunk
          then writeChunk_bound chunk (offset + n)
          else callback) tr ->
  Runs (S c) (after_header chunk offset n)
    (fun fl =>
       write_events (slice chunk offset (offset + n)) fl ++ tr (tl fl)).
Proof.
  intros HR f1 f2 s H1 H2 Hd. destruct f1 as [|f1]; [lia|].
  cbn [call].
  exact (Runs_writeFlow c _ tr _ HR f1 f2 s ltac:(lia) ltac:(lia) Hd).
Qed.

Lemma Runs_writeChunk (c : nat) (chunk : Buffer) (offset : Z)
    (tr : list bool -> list WEvent) :
  0 <= Z.min (blen chunk - offset) MAX_TRAILER_LENGTH ->
  Runs c (after_header chunk offset
            (Z.min (blen chunk - offset) MAX_TRAILER_LENGTH)) tr ->
  Runs (S c) (writeChunk_bound chunk offset)
    (fun fl =>
       write_events
         (hdr_of (Z.min (blen chunk - offset) MAX_TRAILER_LENGTH)) fl ++
       tr (tl fl)).
Proof.
  intros Hn HR f1 f2 s H1 H2 Hd. destruct f1 as [|f1]; [lia|].
  cbn [call].
  destruct (hdr_of_spec (Z.min (blen chunk - offset) MAX_TRAILER_LENGTH))
    as [E _]; [lia|].
  rewrite E. cbn [rbind].
  exact (Runs_writeFlow c _ tr _ HR f1 f2 s ltac:(lia) ltac:(lia) Hd).
Qed.

Lemma Runs_mono (c c' : nat) (hook : Hook) (tr : list bool -> list WEvent) :
  (c <= c')%nat -> Runs c hook tr -> Runs c' hook tr.
Proof.
  intros Hc HR f1 f2 s H1 H2 Hd. apply HR; [lia | lia | exact Hd].
Qed.

Lemma Runs_ext (c : nat) (hook : Hook) (tr tr' : list bool -> list WEvent) :
  (forall fl, tr fl = tr' fl) -> Runs c hook tr -> Runs c hook tr'.
Proof.
  intros He HR f1 f2 s H1 H2 Hd.
  destruct (HR f1 f2 s H1 H2 Hd) as [s' [E [Ht Hd']]].
  exists s'. rewrite <- He. repeat split; assumption.
Qed.

(** The pieces a buffer is cut into: 131071 bytes each, the last one
    shorter when the length is no multiple; [k] bounds their number. *)
Fixpoint pieces (k : nat) (rem : Buffer) : list Buffer :=
  match k with
  | O => []
  | S k' =>
      firstn (Z.to_nat MAX_TRAILER_LENGTH) rem ::
      (if blen rem <=? MAX_TRAILER_LENGTH then []
       else pieces k' (skipn (Z.to_nat MAX_TRAILER_LENGTH) rem))
  end.

(** The events of writing the frames of [ts] one after the other. *)
Fixpoint wire (ts : list Buffer) (fl : list bool) : list WEvent :=
  match ts with
  | [] => []
  | t :: ts' =>
      write_events (hdr_of (blen t)) fl ++
      write_events t (tl fl) ++
      wire ts' (tl (tl fl))
  end.

Definition expect (ts : list Buffer) (fl : list bool) : list WEvent :=
  wire ts fl ++ [ev_callback].

Lemma blen_skipn (l : Buffer) (n : Z) :
  0 <= n <= blen l -> blen (skipn (Z.to_nat n) l) = blen l - n.
Proof. unfold blen. intros H. rewrite length_skipn. lia. Qed.

Lemma blen_firstn (l : Buffer) (n : Z) :
  0 <= n <= blen l -> blen (firstn (Z.to_nat n) l) = n.
Proof. unfold blen. intros H. rewrite length_firstn. lia. Qed.

Lemma MAX_pos : 0 < MAX_TRAILER_LENGTH.
Proof. reflexivity. Qed.

(** [_writeChunk] at [offset] writes the pieces of the rest of the chunk,
    frame by frame, and then calls the callback. *)
Lemma chunks_run (k : nat) (chunk : Buffer) (offset : Z) :
  0 <= offset < blen chunk ->
  blen chunk - offset <= Z.of_nat k * MAX_TRAILER_LENGTH ->
  Runs (2 * k + 1) (writeChunk_bound chunk offset)
    (expect (pieces k (skipn (Z.to_nat offset) chunk))).
Proof.
  pose proof MAX_pos as HM.
  revert offset. induction k as [|k IH]; intros offset Ho Hk; [lia|].
  set (rem := skipn (Z.to_nat offset) chunk).
  assert (Hrem : blen rem = blen chunk - offset)
    by (apply blen_skipn; lia).
  set (n := Z.min (blen chunk - offset) MAX_TRAILER_LENGTH).
  assert (Hslice : slice chunk offset (offset + n) =
                   firstn (Z.to_nat MAX_TRAILER_LENGTH) rem).
  { unfold slice. fold rem. replace (offset + n - offset) with n by lia.
    unfold n. destruct (Z.le_ge_cases (blen chunk - offset) MAX_TRAILER_LENGTH).
    - rewrite Z.min_l by assumption.
      rewrite !firstn_all2; [reflexivity | |];
        unfold blen in *; lia.
    - rewrite Z.min_r by assumption. reflexivity. }
  assert (Hn : blen (firstn (Z.to_nat MAX_TRAILER_LENGTH) rem) = n).
  { rewrite <- Hslice. unfold slice. fold rem.
    replace (offset + n - offset) with n by lia.
    apply blen_firstn. unfold n. lia. }
  replace (2 * S k + 1)%nat with (S (S (2 * k + 1))) by lia.
  pose (tr1 := expect (if blen rem <=? MAX_TRAILER_LENGTH then []
                       else pieces k (skipn (Z.to_nat MAX_TRAILER_LENGTH) rem))).
  pose (tr2 := fun fl =>
                 write_events (slice chunk offset (offset + n)) fl ++
                 tr1 (tl fl)).
  apply Runs_ext with
    (tr := fun fl => write_events (hdr_of n) fl ++ tr2 (tl fl)).
  { intros fl. unfold tr2, tr1. cbn [pieces]. fold rem. unfold expect.
    cbn [wire]. rewrite Hn, Hslice, <- !app_assoc. reflexivity. }
  apply (Runs_writeChunk (S (2 * k + 1)) chunk offset tr2); [fold n; lia|].
  fold n. apply (Runs_after_header (2 * k + 1) chunk offset n tr1).
  unfold tr1.
  destruct (Z.leb_spec (blen rem) MAX_TRAILER_LENGTH) as [Hle|Hgt].
  - replace (offset + n <? blen chunk) with false
      by (symmetry; apply Z.ltb_ge; unfold n; lia).
    apply Runs_mono with (c := 1%nat); [lia|].
    apply Runs_callback.
  - replace (offset + n <? blen chunk) with true
      by (symmetry; apply Z.ltb_lt; unfold n; lia).
    replace (skipn (Z.to_nat MAX_TRAILER_LENGTH) rem)
      with (skipn (Z.to_nat (offset + n)) chunk).
    + apply IH; unfold n; lia.
    + unfold rem. rewrite skipn_skipn. f_equal. unfold n. lia.
Qed.

(** The number of frames for [n > 0] bytes: [ceil (n / 131071)]. *)
Definition frames (n : Z) : nat :=
  Z.to_nat ((n + MAX_TRAILER_LENGTH - 1) / MAX_TRAILER_LENGTH).

Lemma frames_ceiling (n : Z) :
  0 < n ->
  (Z.of_nat (frames n) - 1) * MAX_TRAILER_LENGTH < n <=
  Z.of_nat (frames n) * MAX_TRAILER_LENGTH.
Proof.
  pose proof MAX_pos as HM. intros Hn. unfold frames.
  assert (0 <= (n + MAX_TRAILER_LENGTH - 1) / MAX_TRAILER_LENGTH)
    by (apply Z.div_pos; lia).
  rewrite Z2Nat.id by assumption.
  pose proof (Z.div_mod (n + MAX_TRAILER_LENGTH - 1) MAX_TRAILER_LENGTH) as Hdm.
  pose proof (Z.mod_pos_bound (n + MAX_TRAILER_LENGTH - 1) MAX_TRAILER_LENGTH HM).
  lia.
Qed.

Lemma frames_small (n : Z) :
  0 < n <= MAX_TRAILER_LENGTH -> frames n = 1%nat.
Proof.
  intros H. pose proof (frames_ceiling n ltac:(lia)). nia.
Qed.

Lemma frames_step (n : Z) :
  MAX_TRAILER_LENGTH < n -> frames n = S (frames (n - MAX_TRAILER_LENGTH)).
Proof.
  pose proof MAX_pos as HM. intros H.
  pose proof (frames_ceiling n ltac:(lia)).
  pose proof (frames_ceiling (n - MAX_TRAILER_LENGTH) ltac:(lia)).
  nia.
Qed.

(** The pieces are as many as the ceiling says, none is empty or longer
    than 131071 bytes, and put together they are the buffer. *)
Lemma pieces_spec (k : nat) (rem : Buffer) :
  0 < blen rem <= Z.of_nat k * MAX_TRAILER_LENGTH ->
  List.length (pieces k rem) = frames (blen rem) /\
  Forall (fun t => 0 < blen t <= MAX_TRAILER_LENGTH) (pieces k rem) /\
  List.concat (pieces k rem) = rem.
Proof.
  pose proof MAX_pos as HM.
  revert rem. induction k as [|k IH]; intros rem H; [lia|].
  cbn [pieces].
  destruct (Z.leb_spec (blen rem) MAX_TRAILER_LENGTH) as [Hle|Hgt].
  - rewrite firstn_all2 by (unfold blen in *; lia).
    rewrite frames_small by lia. split; [reflexivity|]. split.
    + constructor; [lia | constructor].
    + cbn [List.concat]. apply app_nil_r.
  - assert (Hs : blen (skipn (Z.to_nat MAX_TRAILER_LENGTH) rem) =
                 blen rem - MAX_TRAILER_LENGTH) by (apply blen_skipn; lia).
    destruct (IH (skipn (Z.to_nat MAX_TRAILER_LENGTH) rem)) as [Hl [Hf Hc]];
      [lia|].
    split; [|split].
    + cbn [List.length]. rewrite Hl, Hs. symmetry. apply frames_step. lia.
    + constructor; [|exact Hf].
      rewrite blen_firstn by lia. lia.
    + cbn [List.concat]. rewrite Hc. apply firstn_skipn.
Qed.

Lemma writes_of_app (a b : list WEvent) :
  writes_of (a ++ b) = writes_of a ++ writes_of b.
Proof.
  induction a as [|[buf f| |] a IH]; cbn [writes_of app];
    rewrite ?IH; reflexivity.
Qed.

Lemma callbacks_of_app (a b : list WEvent) :
  callbacks_of (a ++ b) = (callbacks_of a + callbacks_of b)%nat.
Proof.
  induction a as [|[buf f| |] a IH]; cbn [callbacks_of app];
    rewrite ?IH; reflexivity.
Qed.

Lemma write_events_writes (buf : Buffer) (fl : list bool) :
  writes_of (write_events buf fl) = [buf] /\
  callbacks_of (write_events buf fl) = 0%nat.
Proof.
  unfold write_events. destruct fl as [|[|] fl]; split; reflexivity.
Qed.

Lemma wire_writes (ts : list Buffer) (fl : list bool) :
  writes_of (wire ts fl) = flat_map (fun t => [hdr_of (blen t); t]) ts /\
  callbacks_of (wire ts fl) = 0%nat.
Proof.
  revert fl. induction ts as [|t ts IH]; intros fl; [split; reflexivity|].
  cbn [wire flat_map]. destruct (IH (tl (tl fl))) as [Hw Hc].
  rewrite !writes_of_app, !callbacks_of_app, Hw, Hc.
  destruct (write_events_writes (hdr_of (blen t)) fl) as [-> ->].
  destruct (write_events_writes t (tl fl)) as [-> ->].
  split; reflexivity.
Qed.

(** The events of the last frame's payload close the wire trace. *)
Lemma wire_last (ts : list Buffer) (fl : list bool) :
  ts <> [] ->
  exists pre fl',
    wire ts fl = pre ++ write_events (last ts []) fl' /\
    callbacks_of pre = 0%nat.
Proof.
  revert fl. induction ts as [|t ts IH]; intros fl Hne; [contradiction|].
  destruct ts as [|t' ts].
  - exists (write_events (hdr_of (blen t)) fl), (tl fl). split.
    + cbn [wire last]. rewrite app_nil_r. reflexivity.
    + apply write_events_writes.
  - destruct (IH (tl (tl fl))) as [pre [fl' [E Hc]]]; [discriminate|].
    exists (write_events (hdr_of (blen t)) fl ++ write_events t (tl fl) ++ pre),
           fl'.
    split.
    + change (wire (t :: t' :: ts) fl)
        with (write_events (hdr_of (blen t)) fl ++
              write_events t (tl fl) ++ wire (t' :: ts) (tl (tl fl))).
      rewrite E.
      change (last (t :: t' :: ts) []) with (last (t' :: ts) []).
      rewrite <- !app_assoc. reflexivity.
    + rewrite !callbacks_of_app, Hc.
      destruct (write_events_writes (hdr_of (blen t)) fl) as [_ ->].
      destruct (write_events_writes t (tl fl)) as [_ ->]. reflexivity.
Qed.

Lemma sum_blen_concat (ts : list Buffer) :
  fold_right (fun t n => blen t + n) 0 ts = blen (List.concat ts).
Proof.
  induction ts as [|t ts IH]; [reflexivity|].
  cbn [fold_right List.concat]. rewrite IH, blen_app. reflexivity.
Qed.

(** A chunked write of [chunk] that ends in state [s] with the frame
    payloads [ts]: as many frames as the ceiling says, each a header write
    and a payload write, every header decoding to a message of its
    payload's length, lengths adding up, payloads concatenating to the
    chunk, and one callback, last, right after the last payload's write
    events. *)
Definition chunked (chunk : Buffer) (s : State) (ts : list Buffer) : Prop :=
  List.length ts = frames (blen chunk) /\
  writes_of (trace s) = flat_map (fun t => [hdr_of (blen t); t]) ts /\
  Forall (fun t =>
            0 < blen t <= MAX_TRAILER_LENGTH /\
            decodeHeader (Some established) (hdr_of (blen t)) =
              Ok (T message, blen t)) ts /\
  fold_right (fun t n => blen t + n) 0 ts = blen chunk /\
  List.concat ts = chunk /\
  callbacks_of (trace s) = 1%nat /\
  (exists pre fl',
     trace s = pre ++ write_events (last ts []) fl' ++ [ev_callback] /\
     callbacks_of pre = 0%nat) /\
  drainL s = [].

(** C2.  Write chunking: a payload of more than 131071 bytes handed to
    [_write] goes out, whatever the socket's writes return and given the
    drains the pipeline waits for, as exactly [ceil (N / 131071)] message
    frames: each is a header write followed by a payload write, the header
    decodes to the message type and the length of its payload, no payload
    is longer than 131071 bytes, the payload lengths add up to [N], the
    payloads concatenated are the original buffer, and the completion
    callback is called once, as the last event, right after the last
    payload's write was accepted (flushed, or drained). *)
Theorem chunked_write (chunk : Buffer) (fl : list bool) (fuel : nat) :
  MAX_TRAILER_LENGTH < blen chunk ->
  (2 * frames (blen chunk) + 1 <= fuel)%nat ->
  exists s ts, run_write fuel chunk fl = Ok s /\ chunked chunk s ts.
Proof.
  pose proof MAX_pos as HM. intros HN Hfuel.
  pose proof (frames_ceiling (blen chunk) ltac:(lia)) as Hceil.
  destruct (chunks_run (frames (blen chunk)) chunk 0 ltac:(lia) ltac:(lia)
              fuel fuel {| trace := []; flushes := fl; drainL := [] |}
              Hfuel Hfuel eq_refl) as [s [E [Ht Hd]]].
  change (skipn (Z.to_nat 0) chunk) with chunk in Ht.
  cbn [trace flushes app] in Ht.
  destruct (pieces_spec (frames (blen chunk)) chunk ltac:(lia))
    as [Hl [Hf Hc]].
  exists s, (pieces (frames (blen chunk)) chunk).
  split; [exact E|]. unfold chunked.
  destruct (wire_writes (pieces (frames (blen chunk)) chunk) fl) as [Hw Hcb].
  split; [exact Hl|]. split.
  { rewrite Ht. unfold expect. rewrite writes_of_app, Hw.
    cbn [writes_of]. apply app_nil_r. }
  split.
  { eapply Forall_impl; [|exact Hf]. intros t Hb. cbv beta in Hb.
    split; [exact Hb|]. apply hdr_of_spec. lia. }
  split; [rewrite sum_blen_concat, Hc; reflexivity|].
  split; [exact Hc|]. split.
  { rewrite Ht. unfold expect. rewrite callbacks_of_app, Hcb. reflexivity. }
  split; [|exact Hd].
  destruct (wire_last (pieces (frames (blen chunk)) chunk) fl)
    as [pre [fl' [Ew Hp]]].
  { intros Hnil. rewrite Hnil in Hl. cbn in Hl.
    pose proof (frames_ceiling (blen chunk) ltac:(lia)). lia. }
  exists pre, fl'. split; [|exact Hp].
  rewrite Ht. unfold expect. rewrite Ew, <- app_assoc. reflexivity.
Qed.

End Chunking.

(** A payload of 131072 bytes on a socket that accepts the first header and
    holds back the first payload. *)
Lemma chunked_write_witness :
  MAX_TRAILER_LENGTH < blen (repeat x07 (Z.to_nat 131072)) /\
  (2 * frames (blen (repeat x07 (Z.to_nat 131072))) + 1 <= 5)%nat /\
  exists s ts,
    Duplex.run_write 5 (repeat x07 (Z.to_nat 131072)) [true; false] = Ok s /\
    chunked (repeat x07 (Z.to_nat 131072)) s ts.
Proof.
  assert (Hlen : blen (repeat x07 (Z.to_nat 131072)) = 131072)
    by (unfold blen; rewrite repeat_length, Z2Nat.id by lia; reflexivity).
  assert (H1 : MAX_TRAILER_LENGTH < blen (repeat x07 (Z.to_nat 131072)))
    by (rewrite Hlen; reflexivity).
  assert (H2 : (2 * frames (blen (repeat x07 (Z.to_nat 131072))) + 1 <= 5)%nat)
    by (rewrite Hlen; apply Nat.le_refl).
  split; [exact H1|]. split; [exact H2|].
  exact (chunked_write (repeat x07 (Z.to_nat 131072)) [true; false] 5 H1 H2).
Defined.

(** ** The size of read requests *)

(** The trailer length the session holds is within the protocol maximum,
    and so is every size that was asked of [inputStream.read]. *)
Definition reads_bounded (w : World) : Prop :=
  0 <= trailerLength (ss w) <= MAX_TRAILER_LENGTH /\
  forall st, inputStream w = Some st ->
             Forall (fun n => n <= MAX_TRAILER_LENGTH) (reads st).

(** [m] keeps [I] whenever it returns. *)
Definition preserves {A} (I : World -> Prop) (m : M A) : Prop :=
  forall w a w', I w -> m w = Ok (a, w') -> I w'.

Lemma preserves_ret {A} I (a : A) : preserves I (ret a).
Proof. intros w a' w' HI [= _ <-]. exact HI. Qed.

Lemma preserves_gets {A} I (f : World -> A) : preserves I (gets f).
Proof. intros w a' w' HI [= _ <-]. exact HI. Qed.

Lemma preserves_throw {A} I e : preserves I (@throw A e).
Proof. intros w a' w' HI H. discriminate H. Qed.

Lemma preserves_lift {A} I (r : Res A) : preserves I (lift r).
Proof.
  intros w a' w' HI H. unfold lift in H. destruct r; [|discriminate].
  injection H as _ <-. exact HI.
Qed.

Lemma preserves_bind {A B} I (m : M A) (k : A -> M B) :
  preserves I m -> (forall a, preserves I (k a)) -> preserves I (bind m k).
Proof.
  intros Hm Hk w b w' HI H. unfold bind in H.
  destruct (m w) as [[a w1]|] eqn:E; [|discriminate].
  exact (Hk a w1 b w' (Hm w a w1 HI E) H).
Qed.

(** Updates that touch neither the trailer length nor the input stream. *)
Lemma preserves_modify (f : World -> World) :
  (forall w, trailerLength (ss (f w)) = trailerLength (ss w) /\
             inputStream (f w) = inputStream w) ->
  preserves reads_bounded (modify f).
Proof.
  intros Hf w a w' [H1 H2] [= _ <-]. destruct (Hf w) as [E1 E2].
  split; [rewrite E1; exact H1 | rewrite E2; exact H2].
Qed.

Lemma preserves_set_trailer (t : option tag) (n : Z) :
  0 <= n <= MAX_TRAILER_LENGTH ->
  preserves reads_bounded (modify (with_ss (set_trailer t n))).
Proof.
  intros Hn w a w' [H1 H2] [= _ <-]. split; [exact Hn | exact H2].
Qed.

Lemma preserves_socket_write (buf : Buffer) :
  preserves reads_bounded (socket_write buf).
Proof.
  intros w a w' HI H. unfold socket_write in H.
  destruct (socket (ss w)); [|discriminate].
  injection H as _ <-. exact HI.
Qed.

Lemma preserves_socket_once_drain (l : DrainListener) :
  preserves reads_bounded (socket_once_drain l).
Proof.
  intros w a w' HI H. unfold socket_once_drain in H.
  destruct (socket (ss w)); [|discriminate].
  injection H as _ <-. exact HI.
Qed.

Lemma preserves_stream_read (n : Z) :
  n <= MAX_TRAILER_LENGTH ->
  preserves reads_bounded (stream_read n).
Proof.
  intros Hn w a w' [H1 H2] H. unfold stream_read in H.
  destruct (inputStream w) as [st|] eqn:Est; [|discriminate].
  assert (Hall : Forall (fun n => n <= MAX_TRAILER_LENGTH) (reads st ++ [n])).
  { apply Forall_app. split; [apply H2; reflexivity|].
    constructor; [exact Hn | constructor]. }
  destruct (n <=? blen (buffered st));
    injection H as _ <-; (split; [exact H1|]);
    intros st' [= <-]; exact Hall.
Qed.

Lemma preserves_stream_once_readable :
  preserves reads_bounded stream_once_readable.
Proof.
  intros w a w' [H1 H2] H. unfold stream_once_readable in H.
  destruct (inputStream w) as [st|] eqn:Est; [|discriminate].
  injection H as _ <-. split; [exact H1|].
  intros st' [= <-]. exact (H2 st eq_refl).
Qed.

Lemma preserves_initInputStream : preserves reads_bounded _initInputStream.
Proof.
  intros w a w' [H1 H2] [= _ <-]. split; [exact H1|].
  intros st' [= <-]. constructor.
Qed.

(** One step of a proof that a method keeps [reads_bounded]. *)
Ltac pres_step :=
  first
    [ apply preserves_ret
    | apply preserves_gets
    | apply preserves_throw
    | apply preserves_lift
    | apply preserves_socket_write
    | apply preserves_socket_once_drain
    | apply preserves_stream_once_readable
    | apply preserves_initInputStream
    | apply preserves_modify; intros ?; split; reflexivity
    | apply preserves_bind; [|intros ?]
    | match goal with
      | |- preserves _ (when _ _) => unfold when
      | |- preserves _ (match ?x with _ => _ end) => destruct x
      end ].

Ltac pres := repeat pres_step.

(** The same with method lemmas [tac] tried before a method is opened. *)
Tactic Notation "pres" "using" tactic(tac) := repeat first [tac | pres_step].

Lemma preserves_emit (e : Event) : preserves reads_bounded (emit e).
Proof. unfold emit. pres. Qed.

Lemma preserves_nextTick (t : Task) : preserves reads_bounded (nextTick t).
Proof. unfold nextTick. pres. Qed.

Lemma preserves_pause : preserves reads_bounded pause.
Proof. unfold pause. pres. Qed.

Lemma preserves_doRead : preserves reads_bounded _doRead.
Proof. apply preserves_nextTick. Qed.

Lemma preserves_resume : preserves reads_bounded resume.
Proof. unfold resume. pres using (apply preserves_doRead). Qed.

Lemma preserves_end : preserves reads_bounded end_.
Proof. unfold end_. pres. Qed.

Lemma preserves_established : preserves reads_bounded _established.
Proof. unfold _established. pres using (apply preserves_emit). Qed.

Lemma preserves_handleMessage (chunk : Buffer) :
  preserves reads_bounded (_handleMessage chunk).
Proof.
  unfold _handleMessage.
  pres using (first [apply preserves_emit | apply preserves_pause]).
Qed.

Lemma preserves_handlePositiveResponse :
  preserves reads_bounded _handlePositiveResponse.
Proof.
  unfold _handlePositiveResponse.
  pres using (first [apply preserves_emit | apply preserves_established]).
Qed.

Lemma preserves_handleNegativeResponse (chunk : Buffer) :
  preserves reads_bounded (_handleNegativeResponse chunk).
Proof.
  unfold _handleNegativeResponse.
  pres using (first [apply preserves_emit | apply preserves_end]).
Qed.

Lemma preserves_sendPositiveResponse :
  preserves reads_bounded _sendPositiveResponse.
Proof. unfold _sendPositiveResponse. pres. Qed.

Lemma preserves_sendNegativeResponse (s : option string) :
  preserves reads_bounded (_sendNegativeResponse s).
Proof. unfold _sendNegativeResponse. pres using (apply preserves_end). Qed.

Lemma preserves_request_accept (r : nat) :
  preserves reads_bounded (request_accept r).
Proof.
  unfold request_accept, accept_function.
  pres using (first [apply preserves_established
                    | apply preserves_sendPositiveResponse]).
Qed.

Lemma preserves_request_reject (r : nat) (s : option string) :
  preserves reads_bounded (request_reject r s).
Proof.
  unfold request_reject, reject_function.
  pres using (apply preserves_sendNegativeResponse).
Qed.

Lemma preserves_doDrain (callback : Callback) :
  preserves reads_bounded (_doDrain callback).
Proof.
  unfold _doDrain.
  pres using (first [apply preserves_emit | apply preserves_nextTick]).
Qed.

Lemma preserves_writeMsg (msg : Buffer) (callback : Callback) :
  preserves reads_bounded (_writeMsg msg callback).
Proof. unfold _writeMsg. pres using (apply preserves_doDrain). Qed.

Lemma preserves_write (msg : Buffer) (callback : Callback) :
  preserves reads_bounded (write msg callback).
Proof.
  unfold write.
  pres using (first [apply preserves_emit | apply preserves_nextTick
                    | apply preserves_writeMsg]).
Qed.

Lemma preserves_attach (callback : option AttachCallback) :
  preserves reads_bounded (attach callback).
Proof.
  unfold attach.
  pres using (first [apply preserves_nextTick | apply preserves_established
                    | apply preserves_doRead]).
Qed.

(** What the application and the environment can do to a session. *)
Inductive Action : Type :=
| do_attach (callback : option AttachCallback)
| do_connectSocket (callFrom callTo : NBName) (cb : Callback)
| do_pause
| do_resume
| do_write (msg : Buffer) (callback : Callback)
| do_end
| do_accept (r : nat)
| do_reject (r : nat) (s : option string)
| on_data (chunk : Buffer)
| on_drain
| on_tick.

Section Reachable.

Variable fromBuffer : Buffer -> option Z -> NBName.
Variable NBName_write : NBName -> Buffer -> Z -> WriteResult.

Definition perform (a : Action) : M unit :=
  match a with
  | do_attach callback => attach callback
  | do_connectSocket callFrom callTo cb =>
      _connectSocket NBName_write callFrom callTo cb
  | do_pause => pause
  | do_resume => resume
  | do_write msg callback => _ <- write msg callback ;; ret tt
  | do_end => end_
  | do_accept r => request_accept r
  | do_reject r s => request_reject r s
  | on_data chunk => socket_data chunk
  | on_drain => socket_drain
  | on_tick => run_tick fromBuffer
  end.

Fixpoint perform_all (l : list Action) : M unit :=
  match l with
  | [] => ret tt
  | a :: l' => perform a ;; perform_all l'
  end.

(** [w] is a state some history takes a freshly constructed session to. *)
Definition reachable (w : World) : Prop :=
  exists opt_direct opt_autoAccept opt_paused pom history,
    perform_all history
      (NetbiosSession opt_direct opt_autoAccept opt_paused pom) = Ok (tt, w).

Lemma preserves_handleRequest (chunk : Buffer) :
  preserves reads_bounded (_handleRequest fromBuffer chunk).
Proof.
  unfold _handleRequest.
  pres using (first [apply preserves_emit | apply preserves_established
                    | apply preserves_sendPositiveResponse
                    | apply preserves_sendNegativeResponse
                    | apply preserves_request_accept
                    | apply preserves_request_reject]).
Qed.

(** A method that starts by reading a field of the state. *)
Ltac open_gets H :=
  match type of H with
  | bind (gets ?f) ?k ?w = ?r => change (k (f w) w = r) in H; cbv beta in H
  end.

Lemma preserves_readTrailer :
  preserves reads_bounded (_readTrailer fromBuffer).
Proof.
  intros w a w' HI H.
  assert (Hn : trailerLength (ss w) <= MAX_TRAILER_LENGTH) by apply HI.
  unfold _readTrailer in H. open_gets H.
  refine (preserves_bind _ _ _ _ _ w a w' HI H).
  - apply preserves_stream_read. exact Hn.
  - intros chunk.
    pres using (first [apply preserves_handleRequest
                      | apply preserves_handleMessage
                      | apply preserves_handleNegativeResponse
                      | apply preserves_set_trailer;
                        change MAX_TRAILER_LENGTH with 131071; lia]).
Qed.

Lemma preserves_readHeader :
  preserves reads_bounded (_readHeader fromBuffer).
Proof.
  unfold _readHeader. apply preserves_bind.
  { apply preserves_stream_read. intros H. discriminate H. }
  intros [chunk|]; [|apply preserves_ret].
  intros w a w' HI H. open_gets H.
  unfold bind at 1 in H.
  destruct (lift (decodeHeader (mode (ss w)) chunk) w) as [[[type len] w1]|]
    eqn:E; [|discriminate].
  unfold lift in E.
  destruct (decodeHeader (mode (ss w)) chunk) as [[type' len']|] eqn:Ed;
    [|discriminate].
  injection E as -> -> <-.
  pose proof (decodeHeader_bound _ _ _ _ Ed) as Hlen.
  refine (preserves_bind _ _ _ _ _ w a w' HI H).
  - apply preserves_set_trailer. exact Hlen.
  - intros _.
    pres using (first [apply preserves_readTrailer
                      | apply preserves_handlePositiveResponse
                      | apply preserves_set_trailer;
                        change MAX_TRAILER_LENGTH with 131071; lia]).
Qed.

Lemma preserves_call_readFunc :
  preserves reads_bounded (call_readFunc fromBuffer).
Proof.
  unfold call_readFunc.
  pres using (first [apply preserves_readHeader
                    | apply preserves_readTrailer]).
Qed.

Lemma preserves_doRead_tick :
  preserves reads_bounded (doRead_tick fromBuffer).
Proof.
  unfold doRead_tick.
  pres using (first [apply preserves_call_readFunc
                    | apply preserves_doRead]).
Qed.

Lemma preserves_run_tick : preserves reads_bounded (run_tick fromBuffer).
Proof.
  unfold run_tick, run_task.
  pres using (first [apply preserves_doRead_tick | apply preserves_emit]).
Qed.

Lemma preserves_repeatM (n : nat) (m : M unit) :
  preserves reads_bounded m -> preserves reads_bounded (repeatM n m).
Proof.
  intros Hm. induction n as [|n IH]; cbn [repeatM].
  - apply preserves_ret.
  - apply preserves_bind; [exact Hm | intros _; exact IH].
Qed.

Lemma preserves_socket_data (chunk : Buffer) :
  preserves reads_bounded (socket_data chunk).
Proof.
  unfold socket_data. apply preserves_bind; [|intros _].
  - intros w a w' HI H. unfold stream_push in H. open_gets H.
    destruct (inputStream w) as [st|] eqn:Est.
    + injection H as _ <-. destruct HI as [H1 H2]. split; [exact H1|].
      intros st' [= <-]. exact (H2 st Est).
    + injection H as _ <-. exact HI.
  - intros w a w' HI H. unfold stream_readable in H. open_gets H.
    destruct (inputStream w) as [st|] eqn:Est.
    + refine (preserves_bind _ _ _ _ _ w a w' HI H).
      * intros w0 a0 w0' [G1 G2] [= _ <-]. split; [exact G1|].
        intros st' [= <-]. destruct HI as [_ H2]. exact (H2 st Est).
      * intros _. apply preserves_repeatM. apply preserves_doRead.
    + injection H as _ <-. exact HI.
Qed.

Lemma preserves_run_drain_listeners (ls : list DrainListener) :
  preserves reads_bounded (run_drain_listeners ls).
Proof.
  induction ls as [|l ls IH]; cbn [run_drain_listeners].
  - apply preserves_ret.
  - apply preserves_bind; [|intros _; exact IH].
    unfold run_drain_listener.
    pres using (first [apply preserves_writeMsg | apply preserves_doDrain
                      | apply preserves_end]).
Qed.

Lemma preserves_socket_drain : preserves reads_bounded socket_drain.
Proof.
  unfold socket_drain. pres using (apply preserves_run_drain_listeners).
Qed.

Lemma preserves_sendRequest (callTo callFrom : NBName) (cb : Callback) :
  preserves reads_bounded (_sendRequest NBName_write callTo callFrom cb).
Proof.
  unfold _sendRequest. pres using (apply preserves_nextTick).
Qed.

Lemma preserves_connectSocket (callFrom callTo : NBName) (cb : Callback) :
  preserves reads_bounded (_connectSocket NBName_write callFrom callTo cb).
Proof.
  unfold _connectSocket.
  pres using (first [apply preserves_emit | apply preserves_established
                    | apply preserves_doRead | apply preserves_sendRequest]).
Qed.

Lemma preserves_perform (a : Action) : preserves reads_bounded (perform a).
Proof.
  destruct a; cbn [perform].
  - apply preserves_attach.
  - apply preserves_connectSocket.
  - apply preserves_pause.
  - apply preserves_resume.
  - apply preserves_bind; [apply preserves_write | intros _; apply preserves_ret].
  - apply preserves_end.
  - apply preserves_request_accept.
  - apply preserves_request_reject.
  - apply preserves_socket_data.
  - apply preserves_socket_drain.
  - apply preserves_run_tick.
Qed.

Lemma preserves_perform_all (l : list Action) :
  preserves reads_bounded (perform_all l).
Proof.
  induction l as [|a l IH]; cbn [perform_all].
  - apply preserves_ret.
  - apply preserves_bind; [apply preserves_perform | intros _; exact IH].
Qed.

Lemma reads_bounded_initially (d a p : bool) (pom : Buffer -> bool) :
  reads_bounded (NetbiosSession d a p pom).
Proof.
  split.
  - cbn. change MAX_TRAILER_LENGTH with 131071. lia.
  - intros st H. discriminate H.
Qed.

(** C10.  The bound on trailer reads: whatever the four bytes of a header
    are, the trailer length [_readHeader] computes from them is at most
    65535 + 65536 = 131071; hence in every state a session can reach, the
    trailer length it holds and every size it has asked of
    [inputStream.read] are at most [MAX_TRAILER_LENGTH], which is below the
    stream's high-water mark [MAX_TRAILER_LENGTH + HEADER_LENGTH]. *)
Theorem trailer_reads_bounded :
  (forall (m : Mode) (t f hi lo : byte),
     exists tg len,
       decodeHeader (Some m) [t; f; hi; lo] = Ok (tg, len) /\
       0 <= len <= 65535 + 65536 /\
       65535 + 65536 = MAX_TRAILER_LENGTH) /\
  (forall w, reachable w ->
     reads_bounded w /\
     (forall w' r, call_readFunc fromBuffer w = Ok (r, w') ->
                   reads_bounded w')) /\
  MAX_TRAILER_LENGTH < highWaterMark.
Proof.
  split; [|split].
  - intros m t f hi lo.
    destruct (decodeHeader_length_bound m t f hi lo) as [tg [len [E H]]].
    exists tg, len. split; [exact E|]. split; [exact H | reflexivity].
  - intros w [d [a [p [pom [history H]]]]].
    assert (HI : reads_bounded w).
    { eapply preserves_perform_all; [|exact H].
      apply reads_bounded_initially. }
    split; [exact HI|]. intros w' r Hr.
    eapply preserves_call_readFunc; [exact HI | exact Hr].
  - reflexivity.
Qed.

End Reachable.

(** A stand-in for the name encoder in examples: every name takes 34 bytes
    of the buffer. *)
Definition fixed_write (n : NBName) (buf : Buffer) (offset : Z) : WriteResult :=
  {| write_error := None; bytesWritten := 34; write_buf := buf |}.

(** A session is attached, waits, receives a message frame it has to ignore
    (two bytes, during [establishingIn]) and reads it. *)
Definition sample_history : list Action :=
  [do_attach None; on_tick; on_data [x00; x00; x00; x02; xaa; xbb]; on_tick].

(** The world a run ends in ([d] when it throws). *)
Definition world_of (r : Res (unit * World)) (d : World) : World :=
  match r with
  | Ok (_, w) => w
  | Throw _ => d
  end.

Definition sample_world : World :=
  world_of
    (perform_all fixed_fromBuffer fixed_write sample_history
       (NetbiosSession false false false (fun _ => false)))
    (NetbiosSession false false false (fun _ => false)).

Lemma trailer_reads_bounded_witness :
  reachable fixed_fromBuffer fixed_write sample_world /\
  reads_bounded sample_world /\
  (exists st, inputStream sample_world = Some st /\ reads st = [4; 4; 2]).
Proof.
  assert (R : reachable fixed_fromBuffer fixed_write sample_world).
  { exists false, false, false, (fun _ => false), sample_history.
    vm_compute. reflexivity. }
  split; [exact R|]. split.
  - exact (proj1 (proj1 (proj2 (trailer_reads_bounded fixed_fromBuffer
                                  fixed_write)) sample_world R)).
  - vm_compute. eexists. split; reflexivity.
Defined.

(** ** Pausing *)

(** A direct-mode session, established and idle, with one [_doRead] listener
    waiting for ['readable']. *)
Definition idle_history : list Action := [do_attach None; on_tick].

Definition paused_while_idle : World :=
  world_of
    (perform_all fixed_fromBuffer fixed_write (idle_history ++ [do_pause])
       (NetbiosSession true false false (fun _ => false)))
    (NetbiosSession true false false (fun _ => false)).

(** C4, at a pause that comes from outside a message listener: the session
    is established and waits for data, [pause()] is called, and then a
    complete message frame arrives.  The ['readable'] listener that was
    already registered runs [_doRead], whose tick calls [ss.readFunc]
    before it looks at [ss.paused]: the message is emitted although the
    session is paused.  Only then does the loop stop. *)
Theorem pause_leaks_one_message :
  perform_all fixed_fromBuffer fixed_write (idle_history ++ [do_pause])
    (NetbiosSession true false false (fun _ => false))
    = Ok (tt, paused_while_idle) /\
  mode (ss paused_while_idle) = Some established /\
  paused (ss paused_while_idle) = true /\
  log paused_while_idle = [emit_connect] /\
  exists w,
    perform_all fixed_fromBuffer fixed_write
      [on_data [x00; x00; x00; x02; x68; x69]; on_tick] paused_while_idle
      = Ok (tt, w) /\
    paused (ss w) = true /\
    log w = [emit_connect; emit_message [x68; x69]] /\
    ticks w = [].
Proof.
  split; [vm_compute; reflexivity|].
  repeat (split; [vm_compute; reflexivity|]).
  exists (world_of
            (perform_all fixed_fromBuffer fixed_write
               [on_data [x00; x00; x00; x02; x68; x69]; on_tick]
               paused_while_idle)
            paused_while_idle).
  vm_compute. repeat split.
Qed.

(** The same for a session constructed with [paused: true] in direct mode
    when bytes are buffered before the first tick runs. *)
Remark paused_option_leaks_one_message :
  exists w,
    perform_all fixed_fromBuffer fixed_write
      [do_attach None; on_data [x00; x00; x00; x02; x68; x69]; on_tick]
      (NetbiosSession true false true (fun _ => false)) = Ok (tt, w) /\
    paused (ss w) = true /\
    log w = [emit_connect; emit_message [x68; x69]].
Proof.
  exists (world_of
            (perform_all fixed_fromBuffer fixed_write
               [do_attach None; on_data [x00; x00; x00; x02; x68; x69]; on_tick]
               (NetbiosSession true false true (fun _ => false)))
            (NetbiosSession true false true (fun _ => false))).
  vm_compute. repeat split.
Qed.

(** And for a message that is already buffered when [pause()] is called:
    two frames arrive together, the first tick emits the first and queues
    the next tick, [pause()] is called before that tick runs (from another
    [nextTick] callback, say), and the tick still emits the second. *)
Remark pause_leaks_buffered_message :
  exists w,
    perform_all fixed_fromBuffer fixed_write
      (idle_history ++
       [on_data [x00; x00; x00; x01; x61; x00; x00; x00; x01; x62];
        on_tick; do_pause; on_tick])
      (NetbiosSession true false false (fun _ => false)) = Ok (tt, w) /\
    paused (ss w) = true /\
    log w = [emit_connect; emit_message [x61]; emit_message [x62]] /\
    ticks w = [].
Proof.
  exists (world_of
            (perform_all fixed_fromBuffer fixed_write
               (idle_history ++
                [on_data [x00; x00; x00; x01; x61; x00; x00; x00; x01; x62];
                 on_tick; do_pause; on_tick])
               (NetbiosSession true false false (fun _ => false)))
            (NetbiosSession true false false (fun _ => false))).
  vm_compute. repeat split.
Qed.

(** A message frame as it comes over the wire. *)
Definition frame (m : Buffer) : Buffer := hdr_of (blen m) ++ m.

Lemma hdr_of_blen (n : Z) :
  0 <= n <= MAX_TRAILER_LENGTH -> blen (hdr_of n) = HEADER_LENGTH.
Proof.
  intros Hn. destruct (packed_header_decodes message n Hn) as [h [E [Hl _]]].
  unfold hdr_of. rewrite E. exact Hl.
Qed.

Section Pausing.

Variable fromBuffer : Buffer -> option Z -> NBName.

(** While the session is established and paused and no read is pending
    (no [_doRead] tick queued, no ['readable'] listener), arriving bytes
    are buffered and nothing else happens: no tick, no event. *)
Lemma paused_session_is_quiet (w : World) (st : Readable) (chunk : Buffer) :
  inputStream w = Some st ->
  readableL st = 0%nat ->
  exists w',
    socket_data chunk w = Ok (tt, w') /\
    inputStream w' =
      Some {| buffered := buffered st ++ chunk; readableL := 0;
              reads := reads st |} /\
    ss w' = ss w /\ sock w' = sock w /\ ticks w' = ticks w /\
    log w' = log w /\ requests w' = requests w.
Proof.
  intros Hst Hl. run. rewrite Hst. run. rewrite Hl.
  eexists. split; [reflexivity|]. run. repeat split; reflexivity.
Qed.

(** One tick of the read loop on a buffered message frame in the
    established state: the message is emitted whether or not the session is
    paused, and the loop goes on only if the session is not paused
    afterwards. *)
Lemma message_tick (w : World) (st : Readable) (m rest : Buffer) :
  mode (ss w) = Some established ->
  readFunc (ss w) = readHeader ->
  inputStream w = Some st ->
  buffered st = frame m ++ rest ->
  0 < blen m <= MAX_TRAILER_LENGTH ->
  exists w',
    doRead_tick fromBuffer w = Ok (tt, w') /\
    log w' = log w ++ [emit_message m] /\
    mode (ss w') = Some established /\
    readFunc (ss w') = readHeader /\
    paused (ss w') = (pause_on_message w m || paused (ss w)) /\
    pause_on_message w' = pause_on_message w /\
    inputStream w' =
      Some {| buffered := rest; readableL := readableL st;
              reads := (reads st ++ [HEADER_LENGTH]) ++ [blen m] |} /\
    ticks w' =
      ticks w ++
      (if pause_on_message w m || paused (ss w) then [] else [tick_doRead]).
Proof.
  intros Hm Hrf Hst Hbuf Hlen.
  destruct (hdr_of_spec (blen m)) as [_ Hd]; [lia|].
  pose proof (hdr_of_blen (blen m) ltac:(lia)) as Hh.
  unfold frame in Hbuf. rewrite <- app_assoc in Hbuf.
  run. rewrite Hrf. rewrite <- Hh.
  rewrite (stream_read_enough w st _ _ Hst Hbuf).
  run. rewrite Hm, Hd. run.
  replace (blen m >? 0) with true by (symmetry; apply Z.gtb_lt; lia).
  run. erewrite stream_read_enough by reflexivity. run.
  destruct (pause_on_message w m), (paused (ss w)); run; rewrite Hm; run;
    (eexists; split; [reflexivity|]; run; rewrite Hh, ?app_nil_r, ?Hm;
     repeat split; reflexivity).
Qed.

(** With nothing buffered the tick of a running loop leaves a listener for
    ['readable']. *)
Lemma empty_tick (w : World) (st : Readable) :
  readFunc (ss w) = readHeader ->
  paused (ss w) = false ->
  inputStream w = Some st ->
  buffered st = [] ->
  exists w',
    doRead_tick fromBuffer w = Ok (tt, w') /\
    log w' = log w /\ ss w' = ss w /\ ticks w' = ticks w /\
    inputStream w' =
      Some {| buffered := []; readableL := S (readableL st);
              reads := reads st ++ [HEADER_LENGTH] |}.
Proof.
  intros Hrf Hp Hst Hbuf.
  run. rewrite Hrf.
  rewrite (stream_read_short w st HEADER_LENGTH Hst)
    by (rewrite Hbuf; reflexivity).
  run. rewrite Hp, Hbuf.
  destruct (mode (ss w)) as [[| |]|]; run;
    (eexists; split; [reflexivity|]; run; repeat split; reflexivity).
Qed.

(** The running loop delivers buffered messages one per tick, in the order
    of the stream, each exactly once, and then waits for more bytes. *)
Lemma deliver (ms : list Buffer) :
  Forall (fun m => 0 < blen m <= MAX_TRAILER_LENGTH) ms ->
  forall (w : World) (st : Readable),
  mode (ss w) = Some established ->
  paused (ss w) = false ->
  readFunc (ss w) = readHeader ->
  inputStream w = Some st ->
  buffered st = flat_map frame ms ->
  ticks w = [tick_doRead] ->
  (forall m, pause_on_message w m = false) ->
  exists w' st',
    run_ticks fromBuffer (S (List.length ms)) w = Ok (tt, w') /\
    log w' = log w ++ map emit_message ms /\
    inputStream w' = Some st' /\
    buffered st' = [] /\
    readableL st' = S (readableL st) /\
    ticks w' = [] /\
    paused (ss w') = false /\
    mode (ss w') = Some established.
Proof.
  induction 1 as [|m ms Hm _ IH]; intros w st Hmode Hp Hrf Hst Hbuf Ht Hpom.
  - cbn [List.length run_ticks]. run. rewrite Ht.
    destruct (empty_tick (with_ticks (fun _ => []) w) st)
      as [w' [E [Hl [Hs [Htk Hi]]]]]; try assumption.
    revert E. run. intros E. rewrite E.
    eexists. eexists. split; [reflexivity|].
    rewrite Hl, Hs, Htk, Hi. run. rewrite app_nil_r.
    repeat split; assumption.
  - cbn [List.length]. change (run_ticks fromBuffer (S (S (List.length ms))))
      with (run_tick fromBuffer ;; run_ticks fromBuffer (S (List.length ms))).
    run. rewrite Ht.
    destruct (message_tick (with_ticks (fun _ => []) w) st m (flat_map frame ms))
      as [w1 [E [Hl [Hm1 [Hrf1 [Hp1 [Hpom1 [Hi1 Ht1]]]]]]]]; try assumption.
    revert E Hl Hp1 Hpom1 Ht1. run. rewrite Hpom, Hp. run.
    intros E Hl Hp1 Hpom1 Ht1. rewrite E.
    destruct (IH w1 _ Hm1 Hp1 Hrf1 Hi1 eq_refl Ht1)
      as [w' [st' [E' [Hl' [Hi' [Hb' [Hr' [Ht' [Hp' Hm']]]]]]]]].
    { intros m'. rewrite Hpom1. apply Hpom. }
    exists w', st'. split; [exact E'|].
    rewrite Hl', Hl, <- app_assoc. repeat split; assumption.
Qed.

(** After [resume()] on a paused, established session whose read loop had
    stopped, the messages buffered meanwhile are emitted in their order,
    none lost and none twice. *)
Lemma resume_delivers_in_order (ms : list Buffer) (w : World) (st : Readable) :
  Forall (fun m => 0 < blen m <= MAX_TRAILER_LENGTH) ms ->
  mode (ss w) = Some established ->
  paused (ss w) = true ->
  readFunc (ss w) = readHeader ->
  inputStream w = Some st ->
  buffered st = flat_map frame ms ->
  ticks w = [] ->
  (forall m, pause_on_message w m = false) ->
  exists w',
    (resume ;; run_ticks fromBuffer (S (List.length ms))) w = Ok (tt, w') /\
    log w' = log w ++ map emit_message ms /\
    ticks w' = [].
Proof.
  intros Hms Hmode Hp Hrf Hst Hbuf Ht Hpom.
  run. rewrite Hp. run. rewrite Ht.
  match goal with
  | |- context [run_ticks fromBuffer _ ?x] =>
      destruct (deliver ms Hms x st)
        as [w' [st' [E [Hl [_ [_ [_ [Ht' _]]]]]]]]; try assumption;
        try reflexivity
  end.
  exists w'. split; [exact E|]. split; [exact Hl | exact Ht'].
Qed.

(** Pausing does not gate the handshake: as long as the session is not
    established after [ss.readFunc] has run, the tick goes on reading
    (another tick, or a listener for more bytes), paused or not; and once
    it is established and paused, the tick ends without either. *)
Lemma tick_gate (w w1 : World) (complete : bool) :
  call_readFunc fromBuffer w = Ok (complete, w1) ->
  doRead_tick fromBuffer w =
  if is_established (mode (ss w1)) && paused (ss w1) then Ok (tt, w1)
  else if complete then _doRead w1
  else stream_once_readable w1.
Proof.
  intros H. unfold doRead_tick, bind at 1. rewrite H.
  unfold bind, gets.
  destruct (is_established (mode (ss w1)) && paused (ss w1));
    [reflexivity|].
  destruct complete; reflexivity.
Qed.

End Pausing.

(** * Further properties

    What follows covers code the properties above leave out: the bounds of
    the header codec, the tables, the whole handshake on both ends, the
    call request a caller sends, the read loop under arbitrary
    segmentation of the byte stream, the drain protocol of [write], and the
    single-frame case of the Duplex revision's [_write]. *)

(** ** The monad's laws, for rewriting *)

Lemma bind_modify {B} (f : World -> World) (k : unit -> M B) (w : World) :
  bind (modify f) k w = k tt (f w).
Proof. reflexivity. Qed.

Lemma bind_gets {A B} (f : World -> A) (k : A -> M B) (w : World) :
  bind (gets f) k w = k (f w) w.
Proof. reflexivity. Qed.

Lemma bind_ret {A B} (a : A) (k : A -> M B) (w : World) :
  bind (ret a) k w = k a w.
Proof. reflexivity. Qed.

Lemma bind_assoc {A B C} (m : M A) (k1 : A -> M B) (k2 : B -> M C)
    (w : World) :
  bind (bind m k1) k2 w = bind m (fun a => bind (k1 a) k2) w.
Proof. unfold bind. destruct (m w) as [[a w']|]; reflexivity. Qed.

Lemma bind_cong {A B} (m m' : M A) (k : A -> M B) (w w' : World) :
  m w = m' w' -> bind m k w = bind m' k w'.
Proof. intros H. unfold bind. rewrite H. reflexivity. Qed.

Lemma bind_Ok {A B} (m : M A) (k : A -> M B) (w w' : World) (a : A) :
  m w = Ok (a, w') -> bind m k w = k a w'.
Proof. intros H. unfold bind. rewrite H. reflexivity. Qed.

(** ** The codec at its bounds *)

Lemma u8_inj (a b : byte) : u8 a = u8 b -> a = b.
Proof.
  intros H. pose proof (byte_of_u8 a) as Ha. rewrite H, byte_of_u8 in Ha.
  congruence.
Qed.

Lemma writeUInt16BE_range (buf : Buffer) (v o : Z) (r : Buffer) :
  writeUInt16BE buf v o = Ok r -> 0 <= v <= 0xffff.
Proof.
  unfold writeUInt16BE.
  destruct ((0 <=? v) && (v <=? 0xffff)) eqn:E; [|discriminate].
  intros _. apply andb_true_iff in E. lia.
Qed.

(** A header that was packed has a length the field can hold. *)
Lemma encodeHeader_range (ty : msg_type) (len : Z) (hdr : Buffer) :
  encodeHeader ty len = Ok hdr -> 0 <= len <= MAX_TRAILER_LENGTH.
Proof.
  intros E. unfold encodeHeader, _packHeader in E.
  destruct (writeUInt8 _ _ 0) as [b1|]; [|discriminate]. cbn [rbind] in E.
  change MAX_TRAILER_LENGTH with 131071.
  destruct (len >=? EXTENSION_LENGTH) eqn:Hx;
    change EXTENSION_LENGTH with 65536 in *;
    (destruct (writeUInt8 b1 _ _) as [b2|]; [|discriminate]);
    cbn [rbind] in E;
    (destruct (writeUInt16BE b2 _ _) as [b3|] eqn:Ew; [|discriminate]);
    apply writeUInt16BE_range in Ew; lia.
Qed.

(** X1.  [_packHeader] accepts exactly the lengths from 0 to 131071: for
    these it writes a header, and for a negative length or one above the
    maximum the write of the 16-bit field throws, for every frame type. *)
Theorem encodeHeader_defined (ty : msg_type) (len : Z) :
  (exists hdr, encodeHeader ty len = Ok hdr) <->
  0 <= len <= MAX_TRAILER_LENGTH.
Proof.
  split.
  - intros [hdr E]. exact (encodeHeader_range ty len hdr E).
  - intros H. destruct (encodeHeader_bytes ty len H) as [t [f [hi [lo [E _]]]]].
    eexists. exact E.
Qed.

Lemma TYPE_TO_STRING_inv (t : Z) (ty : msg_type) :
  TYPE_TO_STRING t = Some ty <-> t = TYPE_FROM_STRING ty.
Proof.
  split.
  - unfold TYPE_TO_STRING.
    repeat match goal with
    | |- context [?a =? ?b] =>
        destruct (Z.eqb_spec a b) as [->|_];
          [intros [= <-]; reflexivity|]
    end.
    discriminate.
  - intros ->. apply TYPE_roundtrip.
Qed.

Lemma ERROR_CODE_tables_inverse (s : string) (c : Z) :
  assoc s ERROR_CODE_FROM_STRING_own = Some c <->
  ERROR_CODE_TO_STRING c = Some s.
Proof.
  split.
  - unfold ERROR_CODE_FROM_STRING_own, assoc.
    repeat match goal with
    | |- context [String.eqb ?a ?b] =>
        destruct (String.eqb_spec a b) as [->|_];
          [intros [= <-]; reflexivity|]
    end.
    discriminate.
  - unfold ERROR_CODE_TO_STRING.
    repeat match goal with
    | |- context [?a =? ?b] =>
        destruct (Z.eqb_spec a b) as [->|_];
          [intros [= <-]; reflexivity|]
    end.
    discriminate.
Qed.

(** X2.  The two pairs of tables are inverse to each other: a code names a
    frame type in [TYPE_TO_STRING] exactly when [TYPE_FROM_STRING] gives
    that code for the type, and a reason string has a code among the own
    members of [ERROR_CODE_FROM_STRING] exactly when [ERROR_CODE_TO_STRING]
    gives that string for the code. *)
Theorem tables_inverse :
  (forall t ty, TYPE_TO_STRING t = Some ty <-> t = TYPE_FROM_STRING ty) /\
  (forall s c,
     assoc s ERROR_CODE_FROM_STRING_own = Some c <->
     ERROR_CODE_TO_STRING c = Some s).
Proof.
  split; [exact TYPE_TO_STRING_inv | exact ERROR_CODE_tables_inverse].
Qed.

Lemma field_16_split (hi lo : byte) :
  Z.shiftr (Z.lor (Z.shiftl (u8 hi) 8) (u8 lo)) 8 = u8 hi /\
  Z.land (Z.lor (Z.shiftl (u8 hi) 8) (u8 lo)) 0xff = u8 lo.
Proof.
  pose proof (u8_range hi) as Hh. pose proof (u8_range lo) as Hl.
  assert (Elo : u8 lo = u8 lo mod 2 ^ 8)
    by (symmetry; apply Z.mod_small; change (2 ^ 8) with 256; lia).
  split; apply Z.bits_inj'; intros n Hn.
  - rewrite Z.shiftr_spec, Z.lor_spec, Z.shiftl_spec by lia.
    replace (n + 8 - 8) with n by lia.
    rewrite Elo, Z.mod_pow2_bits_high by lia. apply orb_false_r.
  - change (Z.land ?x 0xff) with (Z.land x (Z.ones 8)).
    rewrite Z.land_ones by lia.
    destruct (Z.ltb_spec n 8).
    + rewrite Z.mod_pow2_bits_low by lia.
      rewrite Z.lor_spec, Z.shiftl_spec by lia.
      rewrite (Z.testbit_neg_r (u8 hi)) by lia. reflexivity.
    + rewrite Z.mod_pow2_bits_high by lia.
      rewrite Elo, Z.mod_pow2_bits_high by lia. reflexivity.
Qed.

Lemma field_16_inj (hi lo hi' lo' : byte) :
  Z.lor (Z.shiftl (u8 hi) 8) (u8 lo) = Z.lor (Z.shiftl (u8 hi') 8) (u8 lo') ->
  hi = hi' /\ lo = lo'.
Proof.
  intros H.
  destruct (field_16_split hi lo) as [H1 H2].
  destruct (field_16_split hi' lo') as [H3 H4].
  rewrite H in H1, H2. split; apply u8_inj; congruence.
Qed.

(** A header in canonical form: four bytes, a known type byte, and no flag
    bit set other than the extension bit. *)
Definition canonical (hdr : Buffer) (ty : msg_type) : Prop :=
  exists t f hi lo,
    hdr = [t; f; hi; lo] /\
    TYPE_TO_STRING (u8 t) = Some ty /\
    Z.land (u8 f) FLAGS_RESERVED_MASK = 0.

Lemma flags_canonical (f : byte) :
  Z.land (u8 f) FLAGS_RESERVED_MASK = 0 -> f = x00 \/ f = x80.
Proof.
  destruct f; vm_compute; intros H; try discriminate H; tauto.
Qed.

(** X3.  Decoding and then encoding gives back the bytes: a canonical
    header decodes, in any mode, to its type (or to ['ignore'] where the
    mode does not admit the type) and to a length from which
    [_packHeader] writes exactly the same four bytes. *)
Theorem header_decode_encode (m : Mode) (hdr : Buffer) (ty : msg_type) :
  canonical hdr ty ->
  exists len,
    decodeHeader (Some m) hdr =
      Ok (if VALID_TYPES m ty then T ty else ignore, len) /\
    encodeHeader ty len = Ok hdr.
Proof.
  intros [t [f [hi [lo [-> [Ht Hf]]]]]].
  rewrite decodeHeader_bytes, Ht. eexists. split; [reflexivity|].
  pose proof (field_16_range hi lo) as Hr.
  apply TYPE_TO_STRING_inv in Ht.
  set (v := Z.lor (Z.shiftl (u8 hi) 8) (u8 lo)) in *.
  destruct (flags_canonical f Hf) as [-> | ->].
  - change (negb (Z.land (u8 x00) FLAGS_E_MASK =? 0)) with false. cbv iota.
    destruct (encodeHeader_bytes ty v) as [t' [f' [hi' [lo' [E [Ht' [Hf' Hl']]]]]]];
      [change MAX_TRAILER_LENGTH with 131071; lia|].
    replace (v >=? EXTENSION_LENGTH) with false in Hf', Hl'
      by (symmetry; change EXTENSION_LENGTH with 65536; lia).
    rewrite E. f_equal.
    destruct (field_16_inj _ _ _ _ Hl') as [-> ->].
    rewrite (u8_inj t' t) by congruence.
    rewrite (u8_inj f' x00) by exact Hf'. reflexivity.
  - change (negb (Z.land (u8 x80) FLAGS_E_MASK =? 0)) with true. cbv iota.
    destruct (encodeHeader_bytes ty (v + EXTENSION_LENGTH))
      as [t' [f' [hi' [lo' [E [Ht' [Hf' Hl']]]]]]];
      [change MAX_TRAILER_LENGTH with 131071;
       change EXTENSION_LENGTH with 65536; lia|].
    replace (v + EXTENSION_LENGTH >=? EXTENSION_LENGTH) with true in Hf', Hl'
      by (symmetry; change EXTENSION_LENGTH with 65536; lia).
    replace (v + EXTENSION_LENGTH - EXTENSION_LENGTH) with v in Hl' by lia.
    rewrite E. f_equal.
    destruct (field_16_inj _ _ _ _ Hl') as [-> ->].
    rewrite (u8_inj t' t) by congruence.
    rewrite (u8_inj f' x80) by exact Hf'. reflexivity.
Qed.

(** A keep-alive header with the extension bit and the length field ff ff. *)
Lemma header_decode_encode_witness :
  canonical [x85; x80; xff; xff] keep_alive /\
  exists len,
    decodeHeader (Some established) [x85; x80; xff; xff] =
      Ok (if VALID_TYPES established keep_alive then T keep_alive else ignore,
          len) /\
    encodeHeader keep_alive len = Ok [x85; x80; xff; xff].
Proof.
  assert (H : canonical [x85; x80; xff; xff] keep_alive).
  { exists x85, x80, xff, xff. repeat split; reflexivity. }
  split; [exact H|].
  exact (header_decode_encode established [x85; x80; xff; xff] keep_alive H).
Defined.

(** X4.  The reader does not look at the reserved flag bits: two headers
    that differ only in the bits of [FLAGS_RESERVED_MASK] decode alike. *)
Theorem reserved_flags_ignored (m : Mode) (t f f' hi lo : byte) :
  Z.land (u8 f) FLAGS_E_MASK = Z.land (u8 f') FLAGS_E_MASK ->
  decodeHeader (Some m) [t; f; hi; lo] = decodeHeader (Some m) [t; f'; hi; lo].
Proof.
  intros H. rewrite !decodeHeader_bytes, H. reflexivity.
Qed.

Lemma reserved_flags_ignored_witness :
  Z.land (u8 x80) FLAGS_E_MASK = Z.land (u8 xff) FLAGS_E_MASK /\
  decodeHeader (Some established) [x00; x80; x00; x05] =
  decodeHeader (Some established) [x00; xff; x00; x05].
Proof.
  assert (H : Z.land (u8 x80) FLAGS_E_MASK = Z.land (u8 xff) FLAGS_E_MASK)
    by reflexivity.
  split; [exact H|].
  exact (reserved_flags_ignored established x00 x80 xff x00 x05 H).
Defined.

(** ** One frame, from the header to its handler *)

(** The world once a frame's header and trailer have been read and before
    the frame's handler runs. *)
Definition consumed (w : World) (st : Readable) (tg : tag)
    (trailer rest : Buffer) : World :=
  if blen trailer >? 0 then
    with_ss (set_trailer None 0)
      (with_ss (set_readFunc readHeader)
         (with_inputStream
            (Some {| buffered := rest; readableL := readableL st;
                     reads := (reads st ++ [HEADER_LENGTH]) ++ [blen trailer] |})
            (with_ss (set_readFunc readTrailer)
               (with_ss (set_trailer (Some tg) (blen trailer)) w))))
  else
    with_ss (set_trailer None 0)
      (with_ss (set_trailer (Some tg) (blen trailer))
         (with_inputStream
            (Some {| buffered := rest; readableL := readableL st;
                     reads := reads st ++ [HEADER_LENGTH] |}) w)).

Lemma consumed_fields (w : World) (st : Readable) (tg : tag)
    (trailer rest : Buffer) :
  readFunc (ss w) = readHeader ->
  exists c,
    consumed w st tg trailer rest = c /\
    mode (ss c) = mode (ss w) /\
    paused (ss c) = paused (ss w) /\
    readFunc (ss c) = readHeader /\
    pause_on_message c = pause_on_message w /\
    sock c = sock w /\ ticks c = ticks w /\ log c = log w /\
    exists st',
      inputStream c = Some st' /\
      buffered st' = rest /\ readableL st' = readableL st.
Proof.
  intros Hrf. eexists. split; [reflexivity|].
  unfold consumed.
  destruct (blen trailer >? 0).
  - repeat (split; [reflexivity|]). eexists. repeat split; reflexivity.
  - do 2 (split; [reflexivity|]). split; [exact Hrf|].
    repeat (split; [reflexivity|]). eexists. repeat split; reflexivity.
Qed.

Section Dispatch.

Variable fromBuffer : Buffer -> option Z -> NBName.

(** The handler a complete frame is given to: [_readTrailer] hands a
    trailer to one of three handlers, and [_readHeader] handles a positive
    response that has no trailer. *)
Definition handler (tg : tag) (trailer : Buffer) : M unit :=
  if blen trailer >? 0 then
    match tg with
    | T request => _handleRequest fromBuffer trailer
    | T message => _handleMessage trailer
    | T negative_response => _handleNegativeResponse trailer
    | _ => ret tt
    end
  else
    match tg with
    | T positive_response => _handlePositiveResponse
    | _ => ret tt
    end.

(** A frame whose bytes are all buffered is read and handled by one call of
    [ss.readFunc]. *)
Lemma frame_dispatch (w : World) (m : Mode) (st : Readable)
    (hdr trailer rest : Buffer) (tg : tag) :
  mode (ss w) = Some m ->
  readFunc (ss w) = readHeader ->
  inputStream w = Some st ->
  blen hdr = HEADER_LENGTH ->
  decodeHeader (Some m) hdr = Ok (tg, blen trailer) ->
  buffered st = hdr ++ trailer ++ rest ->
  call_readFunc fromBuffer w =
  (handler tg trailer ;; ret true) (consumed w st tg trailer rest).
Proof.
  intros Hm Hrf Hst Hh Hd Hbuf.
  unfold handler, consumed.
  run. rewrite Hrf. rewrite <- Hh.
  rewrite (stream_read_enough w st hdr (trailer ++ rest) Hst Hbuf).
  run. rewrite Hm, Hd. run.
  destruct (blen trailer >? 0) eqn:Hpos; run.
  - erewrite stream_read_enough by reflexivity.
    destruct tg as [[| | | | |]|]; run; rewrite ?Hm, ?Hrf; reflexivity.
  - assert (Hnil : trailer = []).
    { destruct trailer; [reflexivity|]. unfold blen in Hpos. cbn in Hpos.
      lia. }
    subst trailer. cbn [app].
    destruct tg as [[| | | | |]|]; run; rewrite ?Hm, ?Hrf; reflexivity.
Qed.

(** Frames no handler is called for: the types without a handler, the
    frames to be ignored, a frame of a handled type that has no trailer,
    and a positive response that has one. *)
Definition silent (tg : tag) (n : Z) : bool :=
  match tg with
  | T positive_response => 0 <? n
  | T request | T message | T negative_response => n =? 0
  | _ => true
  end.

(** X5.  Frames without a handler are consumed in silence: a keep-alive, a
    retarget response, a call request, message or negative response of
    length zero, and a positive response that carries a trailer are read
    to their end by one call of [ss.readFunc], which emits and calls
    nothing, writes nothing, changes neither mode nor callbacks, and
    leaves the parser at the first byte after the frame. *)
Theorem silent_frame_consumed (w : World) (m : Mode) (st : Readable)
    (hdr trailer rest : Buffer) (tg : tag) :
  mode (ss w) = Some m ->
  readFunc (ss w) = readHeader ->
  inputStream w = Some st ->
  blen hdr = HEADER_LENGTH ->
  decodeHeader (Some m) hdr = Ok (tg, blen trailer) ->
  buffered st = hdr ++ trailer ++ rest ->
  silent tg (blen trailer) = true ->
  exists w',
    call_readFunc fromBuffer w = Ok (true, w') /\
    outside_parser w' = outside_parser w /\
    at_header w' rest.
Proof.
  intros Hm Hrf Hst Hh Hd Hbuf Hs.
  rewrite (frame_dispatch w m st hdr trailer rest tg Hm Hrf Hst Hh Hd Hbuf).
  unfold handler, consumed.
  assert (Hnn := blen_nonneg trailer).
  destruct (blen trailer >? 0) eqn:Hpos;
    destruct tg as [[| | | | |]|]; cbn [silent] in Hs;
    try (exfalso; rewrite ?Z.gtb_ltb in Hpos; lia);
    run;
    (eexists; split; [reflexivity|]; split;
     [unfold outside_parser; run; reflexivity
     |unfold at_header; run; rewrite ?Hrf; repeat split;
      eexists; split; reflexivity]).
Qed.

End Dispatch.

(** A positive response that announces a trailer of one byte, received by
    a caller that waits for the answer to its call. *)
Lemma silent_frame_consumed_witness :
  silent (T positive_response) (blen [x2a]) = true /\
  exists w',
    call_readFunc fixed_fromBuffer
      (with_ss (set_connectCallback (Some 7%nat))
         (session_in establishingOut [x82; x00; x00; x01; x2a; x85]))
      = Ok (true, w') /\
    outside_parser w' =
      outside_parser
        (with_ss (set_connectCallback (Some 7%nat))
           (session_in establishingOut [x82; x00; x00; x01; x2a; x85])) /\
    at_header w' [x85].
Proof.
  split; [reflexivity|].
  apply (silent_frame_consumed fixed_fromBuffer
           (with_ss (set_connectCallback (Some 7%nat))
              (session_in establishingOut [x82; x00; x00; x01; x2a; x85]))
           establishingOut
           {| buffered := [x82; x00; x00; x01; x2a; x85];
              readableL := 0; reads := [] |}
           [x82; x00; x00; x01] [x2a] [x85] (T positive_response));
    reflexivity.
Defined.

(** ** The callee's side of the handshake *)

Lemma update_nth_last {A} (f : A -> A) (l : list A) (x : A) :
  update_nth (List.length l) f (l ++ [x]) = l ++ [f x].
Proof.
  induction l as [|y l IH]; [reflexivity|].
  cbn [List.length app update_nth]. rewrite IH. reflexivity.
Qed.

Lemma nth_error_last {A} (l : list A) (x : A) :
  nth_error (l ++ [x]) (List.length l) = Some x.
Proof.
  rewrite nth_error_app2, Nat.sub_diag by apply Nat.le_refl. reflexivity.
Qed.

(** What the [attach] callback [f] does with the names of a call. *)
Definition decision (fromBuffer : Buffer -> option Z -> NBName)
    (trailer : Buffer) (f : AttachCallback) : Decision :=
  f (fromBuffer trailer (Some 0))
    (fromBuffer trailer (bytesRead (fromBuffer trailer (Some 0)))).

(** A call request is buffered in front of [rest], both of its names
    decode, and the [attach] callback is [f]. *)
Definition call_arrives (fromBuffer : Buffer -> option Z -> NBName)
    (w : World) (st : Readable) (hdr trailer rest : Buffer)
    (f : AttachCallback) : Prop :=
  mode (ss w) = Some establishingIn /\
  readFunc (ss w) = readHeader /\
  socket (ss w) = true /\
  attachCallback (ss w) = Some f /\
  inputStream w = Some st /\
  buffered st = hdr ++ trailer ++ rest /\
  blen hdr = HEADER_LENGTH /\
  decodeHeader (Some establishingIn) hdr = Ok (T request, blen trailer) /\
  0 < blen trailer /\
  error (fromBuffer trailer (Some 0)) = None /\
  error (fromBuffer trailer (bytesRead (fromBuffer trailer (Some 0)))) = None.

(** The callee after its callback has accepted: established, the positive
    response written, the request object used up, [rest] still buffered,
    and the read loop going on unless the session is paused. *)
Definition call_accepted (w : World) (st : Readable) (rest : Buffer)
    (w' : World) : Prop :=
  mode (ss w') = Some established /\
  written (sock w') = written (sock w) ++ [[x82; x00; x00; x00]] /\
  ended (sock w') = ended (sock w) /\
  log w' =
    log w ++ [call_attachCallback (List.length (requests w)); emit_connect] /\
  handles_null w' (List.length (requests w)) /\
  (exists st',
     inputStream w' = Some st' /\ buffered st' = rest /\
     readableL st' = readableL st) /\
  ticks w' = ticks w ++ (if paused (ss w) then [] else [tick_doRead]).

(** The callee after its callback has rejected and the response was
    flushed: ended, the negative response written, and the read loop still
    going on. *)
Definition call_rejected (w : World) (reason : option string)
    (rest : Buffer) (w' : World) : Prop :=
  mode (ss w') = None /\
  socket (ss w') = false /\
  written (sock w') = written (sock w) ++ [negative_response_frame reason] /\
  ended (sock w') = true /\
  log w' = log w ++ [call_attachCallback (List.length (requests w))] /\
  handles_null w' (List.length (requests w)) /\
  readFunc (ss w') = readHeader /\
  (exists st', inputStream w' = Some st' /\ buffered st' = rest) /\
  ticks w' = ticks w ++ [tick_doRead].

Section Inbound.

Variable fromBuffer : Buffer -> option Z -> NBName.

Lemma accept_tick (w : World) (st : Readable)
    (hdr trailer rest : Buffer) (f : AttachCallback) :
  call_arrives fromBuffer w st hdr trailer rest f ->
  decision fromBuffer trailer f = Accept ->
  exists w',
    doRead_tick fromBuffer w = Ok (tt, w') /\
    call_accepted w st rest w'.
Proof.
  intros [Hm [Hrf [Hs [Hcb [Hst [Hbuf [Hh [Hd [Hpos [He1 He2]]]]]]]]]] Hf.
  unfold decision in Hf.
  unfold doRead_tick, bind at 1.
  rewrite (frame_dispatch fromBuffer w establishingIn st hdr trailer rest
             (T request) Hm Hrf Hst Hh Hd Hbuf).
  unfold handler, consumed, call_accepted.
  replace (blen trailer >? 0) with true by (symmetry; apply Z.gtb_lt; lia).
  repeat progress (run; rewrite ?Hcb, ?He1, ?He2, ?Hf, ?nth_error_last).
  rewrite sendPositiveResponse_bound by (run; exact Hs).
  run. rewrite update_nth_last.
  destruct (paused (ss w)); run;
    (eexists; split; [reflexivity|]; run;
     rewrite ?app_nil_r, <- ?app_assoc;
     repeat (split; [reflexivity|]);
     split; [|split; [eexists; repeat split; reflexivity | reflexivity]];
     eexists; split; [apply nth_error_last | split; reflexivity]).
Qed.

Lemma reject_tick (w : World) (st : Readable)
    (hdr trailer rest : Buffer) (f : AttachCallback) (reason : option string) :
  call_arrives fromBuffer w st hdr trailer rest f ->
  decision fromBuffer trailer f = Reject reason ->
  next_flush (sock w) = true ->
  exists w',
    doRead_tick fromBuffer w = Ok (tt, w') /\
    call_rejected w reason rest w'.
Proof.
  intros [Hm [Hrf [Hs [Hcb [Hst [Hbuf [Hh [Hd [Hpos [He1 He2]]]]]]]]]] Hf Hfl.
  unfold decision in Hf.
  unfold doRead_tick, bind at 1.
  rewrite (frame_dispatch fromBuffer w establishingIn st hdr trailer rest
             (T request) Hm Hrf Hst Hh Hd Hbuf).
  unfold handler, consumed, call_rejected.
  replace (blen trailer >? 0) with true by (symmetry; apply Z.gtb_lt; lia).
  repeat progress (run; rewrite ?Hcb, ?He1, ?He2, ?Hf, ?nth_error_last).
  rewrite sendNegativeResponse_bound by (run; exact Hs).
  run. rewrite Hfl. unfold end_. run. rewrite Hs. run.
  rewrite update_nth_last.
  eexists. split; [reflexivity|]. run.
  repeat (split; [reflexivity|]).
  split; [|split; [reflexivity|split; [eexists; split; reflexivity | reflexivity]]].
  eexists. split; [apply nth_error_last | split; reflexivity].
Qed.

(** X6.  A call accepted in the callback: when a complete call request is
    buffered, both names decode and the [attach] callback calls
    [request.accept()] before it returns, one tick of the read loop
    presents the request, establishes the session, emits ['connect'],
    writes the positive response 82 00 00 00 and uses up the request
    object; the bytes behind the request stay buffered, and the loop goes
    on reading unless the session is paused. *)
Theorem accepted_in_callback (w : World) (st : Readable)
    (hdr trailer rest : Buffer) (f : AttachCallback) :
  call_arrives fromBuffer w st hdr trailer rest f ->
  decision fromBuffer trailer f = Accept ->
  exists w',
    doRead_tick fromBuffer w = Ok (tt, w') /\
    call_accepted w st rest w'.
Proof. exact (accept_tick w st hdr trailer rest f). Qed.

(** X7.  A call rejected in the callback: when the callback calls
    [request.reject(reason)] and the socket flushes the response, the tick
    writes the negative-response frame with the reason's code, ends the
    socket, clears the mode and uses up the request object; the read loop
    is not stopped: another tick is queued. *)
Theorem rejected_in_callback (w : World) (st : Readable)
    (hdr trailer rest : Buffer) (f : AttachCallback) (reason : option string) :
  call_arrives fromBuffer w st hdr trailer rest f ->
  decision fromBuffer trailer f = Reject reason ->
  next_flush (sock w) = true ->
  exists w',
    doRead_tick fromBuffer w = Ok (tt, w') /\
    call_rejected w reason rest w'.
Proof. exact (reject_tick w st hdr trailer rest f reason). Qed.



(** In a session that has ended the read loop is still alive, and its next
    header read throws. *)
Lemma ended_session_read_throws (w : World) (st : Readable) :
  mode (ss w) = None ->
  readFunc (ss w) = readHeader ->
  inputStream w = Some st ->
  HEADER_LENGTH <= blen (buffered st) ->
  exists e, doRead_tick fromBuffer w = Throw e.
Proof.
  intros Hm Hrf Hst Hlen.
  run. rewrite Hrf. unfold stream_read. rewrite Hst.
  replace (HEADER_LENGTH <=? blen (buffered st)) with true
    by (symmetry; apply Z.leb_le; exact Hlen).
  run. rewrite Hm. unfold decodeHeader.
  destruct (readUInt8 _ 0); run; eexists; reflexivity.
Qed.

(** X9.  [end()] does not stop the read loop: when four bytes or more are
    buffered at a frame boundary and [end()] is called, the next tick of
    the loop reads a header while [ss.mode] is [null] and throws a
    [TypeError] out of the [nextTick] callback. *)
Theorem read_after_end_throws (w : World) (st : Readable) :
  socket (ss w) = true ->
  readFunc (ss w) = readHeader ->
  inputStream w = Some st ->
  HEADER_LENGTH <= blen (buffered st) ->
  exists e, (end_ ;; doRead_tick fromBuffer) w = Throw e.
Proof.
  intros Hs Hrf Hst Hlen.
  destruct (end_bound w Hs) as [w' [E [Hm _]]].
  rewrite (bind_Ok _ _ _ _ _ E).
  apply (ended_session_read_throws w' st); try assumption.
  - revert E. unfold end_. run. rewrite Hs. run. intros [= <-]. exact Hrf.
  - revert E. unfold end_. run. rewrite Hs. run. intros [= <-]. exact Hst.
Qed.

End Inbound.

(** A callee in [establishingIn] whose [attach] callback is [f], with [buf]
    buffered. *)
Definition callee (f : AttachCallback) (buf : Buffer) : World :=
  with_ss (set_attachCallback (Some f)) (session_in establishingIn buf).

(** The input stream of [session_in m buf]. *)
Definition fresh_stream (buf : Buffer) : Readable :=
  {| buffered := buf; readableL := 0; reads := [] |}.

(** A call request with two names of 34 bytes each. *)
Definition sample_names : Buffer := repeat x20 68.

Definition sample_call : Buffer := [x81; x00; x00; x44] ++ sample_names.

Lemma sample_call_arrives (f : AttachCallback) (rest : Buffer) :
  call_arrives fixed_fromBuffer (callee f (sample_call ++ rest))
    (fresh_stream (sample_call ++ rest))
    [x81; x00; x00; x44] sample_names rest f.
Proof.
  unfold call_arrives. repeat split; reflexivity.
Defined.

(** The request is followed by the first byte of a message the caller has
    sent ahead. *)
Lemma accepted_in_callback_witness :
  call_arrives fixed_fromBuffer
    (callee (fun _ _ => Accept) (sample_call ++ [x00]))
    (fresh_stream (sample_call ++ [x00]))
    [x81; x00; x00; x44] sample_names [x00] (fun _ _ => Accept) /\
  exists w',
    doRead_tick fixed_fromBuffer
      (callee (fun _ _ => Accept) (sample_call ++ [x00])) = Ok (tt, w') /\
    call_accepted (callee (fun _ _ => Accept) (sample_call ++ [x00]))
      (fresh_stream (sample_call ++ [x00])) [x00] w'.
Proof.
  split; [exact (sample_call_arrives (fun _ _ => Accept) [x00])|].
  exact (accepted_in_callback fixed_fromBuffer _ _ _ _ _ _
           (sample_call_arrives (fun _ _ => Accept) [x00]) eq_refl).
Defined.

Lemma rejected_in_callback_witness :
  call_arrives fixed_fromBuffer
    (callee (fun _ _ => Reject (Some "Called name not present"))
       (sample_call ++ []))
    (fresh_stream (sample_call ++ []))
    [x81; x00; x00; x44] sample_names []
    (fun _ _ => Reject (Some "Called name not present")) /\
  exists w',
    doRead_tick fixed_fromBuffer
      (callee (fun _ _ => Reject (Some "Called name not present"))
         (sample_call ++ [])) = Ok (tt, w') /\
    call_rejected
      (callee (fun _ _ => Reject (Some "Called name not present"))
         (sample_call ++ []))
      (Some "Called name not present") [] w'.
Proof.
  split; [exact (sample_call_arrives _ [])|].
  exact (rejected_in_callback fixed_fromBuffer _ _ _ _ _ _ _
           (sample_call_arrives
              (fun _ _ => Reject (Some "Called name not present")) [])
           eq_refl eq_refl).
Defined.


Lemma read_after_end_throws_witness :
  HEADER_LENGTH <= blen [x00; x00; x00; x01; x61] /\
  exists e,
    (end_ ;; doRead_tick fixed_fromBuffer)
      (session_in established [x00; x00; x00; x01; x61]) = Throw e.
Proof.
  assert (H : HEADER_LENGTH <= blen [x00; x00; x00; x01; x61])
    by (intro H; discriminate H).
  split; [exact H|].
  exact (read_after_end_throws fixed_fromBuffer
           (session_in established [x00; x00; x00; x01; x61])
           (fresh_stream [x00; x00; x00; x01; x61])
           eq_refl eq_refl eq_refl H).
Defined.

(** ** The caller's side of the handshake *)

(** The call of the connect callback, if there is one. *)
Definition called (cb : Callback) (e : option Error) : list Event :=
  match cb with
  | Some id => [call_connectCallback id e]
  | None => []
  end.

(** What the caller's connect callback is told for a response code. *)
Definition failure (code : byte) : Error :=
  ConnectionFailed
    match ERROR_CODE_TO_STRING (u8 code) with
    | Some s => s
    | None => "unknown error"
    end.

(** The caller after the positive response. *)
Definition call_answered (w : World) (st : Readable) (rest : Buffer)
    (w' : World) : Prop :=
  mode (ss w') = Some established /\
  connectCallback (ss w') = None /\
  log w' = log w ++ emit_connect :: called (connectCallback (ss w)) None /\
  sock w' = sock w /\
  readFunc (ss w') = readHeader /\
  (exists st',
     inputStream w' = Some st' /\ buffered st' = rest /\
     readableL st' = readableL st) /\
  ticks w' = ticks w ++ (if paused (ss w) then [] else [tick_doRead]).

(** The caller after a negative response with the code [code]. *)
Definition call_refused (w : World) (e : Error) (w' : World) : Prop :=
  mode (ss w') = None /\
  socket (ss w') = false /\
  ended (sock w') = true /\
  written (sock w') = written (sock w) /\
  connectCallback (ss w') = None /\
  log w' = log w ++ called (connectCallback (ss w)) (Some e).

Section Outbound.

Variable fromBuffer : Buffer -> option Z -> NBName.

Lemma positive_tick (w : World) (st : Readable) (hdr rest : Buffer) :
  mode (ss w) = Some establishingOut ->
  readFunc (ss w) = readHeader ->
  inputStream w = Some st ->
  blen hdr = HEADER_LENGTH ->
  decodeHeader (Some establishingOut) hdr = Ok (T positive_response, 0) ->
  buffered st = hdr ++ rest ->
  exists w',
    doRead_tick fromBuffer w = Ok (tt, w') /\
    call_answered w st rest w'.
Proof.
  intros Hm Hrf Hst Hh Hd Hbuf.
  unfold doRead_tick, bind at 1.
  rewrite (frame_dispatch fromBuffer w establishingOut st hdr [] rest
             (T positive_response) Hm Hrf Hst Hh Hd Hbuf).
  unfold handler, consumed, call_answered. change (blen [] >? 0) with false.
  run. rewrite Hm. run.
  destruct (connectCallback (ss w)) as [id|], (paused (ss w)); run;
    (eexists; split; [reflexivity|]; run;
     rewrite ?app_nil_r, <- ?app_assoc, ?Hrf;
     repeat (split; [reflexivity|]);
     split; [eexists; repeat split; reflexivity | reflexivity]).
Qed.

Lemma negative_tick (w : World) (st : Readable)
    (hdr rest : Buffer) (code : byte) :
  mode (ss w) = Some establishingOut ->
  readFunc (ss w) = readHeader ->
  socket (ss w) = true ->
  inputStream w = Some st ->
  blen hdr = HEADER_LENGTH ->
  decodeHeader (Some establishingOut) hdr = Ok (T negative_response, 1) ->
  buffered st = hdr ++ [code] ++ rest ->
  exists w',
    doRead_tick fromBuffer w = Ok (tt, w') /\
    call_refused w (failure code) w'.
Proof.
  intros Hm Hrf Hs Hst Hh Hd Hbuf.
  unfold doRead_tick, bind at 1.
  rewrite (frame_dispatch fromBuffer w establishingOut st hdr [code] rest
             (T negative_response) Hm Hrf Hst Hh Hd Hbuf).
  unfold handler, consumed, call_refused. change (blen [code] >? 0) with true.
  run. rewrite Hm. run.
  change (blen [code] =? 1) with true. run.
  change (readUInt8 [code] 0) with (Ok (u8 code)). run.
  unfold end_, failure.
  destruct (connectCallback (ss w)) as [id|]; run; rewrite Hs; run;
    (eexists; split; [reflexivity|]; run;
     rewrite ?app_nil_r; repeat split; reflexivity).
Qed.

(** X10.  The positive response establishes the caller: a header that
    decodes to a positive response of length zero, read while the session
    is in [establishingOut], makes the session established, emits
    ['connect'] and then calls the connect callback without an error; the
    callback is cleared, nothing is written, the bytes behind the header
    stay buffered, and the loop reads on unless the session is paused. *)
Theorem positive_response_establishes (w : World) (st : Readable)
    (hdr rest : Buffer) :
  mode (ss w) = Some establishingOut ->
  readFunc (ss w) = readHeader ->
  inputStream w = Some st ->
  blen hdr = HEADER_LENGTH ->
  decodeHeader (Some establishingOut) hdr = Ok (T positive_response, 0) ->
  buffered st = hdr ++ rest ->
  exists w',
    doRead_tick fromBuffer w = Ok (tt, w') /\
    call_answered w st rest w'.
Proof. exact (positive_tick w st hdr rest). Qed.

(** X11.  A negative response of one byte fails the call: the connect
    callback is called once with the error whose text names the code's
    reason, or ['unknown error'] for a code outside the table; the session
    ends its socket, clears its mode and keeps no callback. *)
Theorem negative_response_fails (w : World) (st : Readable)
    (hdr rest : Buffer) (code : byte) :
  mode (ss w) = Some establishingOut ->
  readFunc (ss w) = readHeader ->
  socket (ss w) = true ->
  inputStream w = Some st ->
  blen hdr = HEADER_LENGTH ->
  decodeHeader (Some establishingOut) hdr = Ok (T negative_response, 1) ->
  buffered st = hdr ++ [code] ++ rest ->
  exists w',
    doRead_tick fromBuffer w = Ok (tt, w') /\
    call_refused w (failure code) w'.
Proof. exact (negative_tick w st hdr rest code). Qed.

End Outbound.

(** A caller that waits for the answer to its call, with [buf] buffered. *)
Definition caller (buf : Buffer) : World :=
  with_ss (set_connectCallback (Some 7%nat)) (session_in establishingOut buf).

Lemma positive_response_establishes_witness :
  exists w',
    doRead_tick fixed_fromBuffer (caller [x82; x00; x00; x00]) = Ok (tt, w') /\
    call_answered (caller [x82; x00; x00; x00])
      (fresh_stream [x82; x00; x00; x00]) [] w'.
Proof.
  apply (positive_response_establishes fixed_fromBuffer
           (caller [x82; x00; x00; x00]) (fresh_stream [x82; x00; x00; x00])
           [x82; x00; x00; x00] []);
    reflexivity.
Defined.

(** The code 0x42 is in no table. *)
Lemma negative_response_fails_witness :
  failure x42 = ConnectionFailed "unknown error" /\
  exists w',
    doRead_tick fixed_fromBuffer (caller [x83; x00; x00; x01; x42])
      = Ok (tt, w') /\
    call_refused (caller [x83; x00; x00; x01; x42]) (failure x42) w'.
Proof.
  split; [reflexivity|].
  apply (negative_response_fails fixed_fromBuffer
           (caller [x83; x00; x00; x01; x42])
           (fresh_stream [x83; x00; x00; x01; x42])
           [x83; x00; x00; x01] [] x42);
    reflexivity.
Defined.



Section Rejection.

Variable fromBuffer : Buffer -> option Z -> NBName.


End Rejection.


(** ** The call request *)

Lemma set_byte_at (pre : Buffer) (a : byte) (post : Buffer) (b : byte) :
  set_byte (pre ++ a :: post) (blen pre) b = Ok (pre ++ b :: post).
Proof.
  unfold set_byte.
  replace ((0 <=? blen pre) && (blen pre <? blen (pre ++ a :: post))) with true.
  - unfold blen. rewrite Nat2Z.id.
    rewrite firstn_app, Nat.sub_diag, firstn_all. cbn [firstn].
    rewrite app_nil_r.
    replace (S (List.length pre)) with (List.length (pre ++ [a]))
      by (rewrite length_app; cbn; lia).
    replace (pre ++ a :: post) with ((pre ++ [a]) ++ post)
      by (rewrite <- app_assoc; reflexivity).
    rewrite skipn_app, Nat.sub_diag, skipn_all. reflexivity.
  - symmetry. apply andb_true_iff. split.
    + apply Z.leb_le. apply blen_nonneg.
    + apply Z.ltb_lt. rewrite blen_app. unfold blen. cbn [List.length]. lia.
Qed.

Lemma set_byte_0 (a : byte) (l : Buffer) (b : byte) :
  set_byte (a :: l) 0 b = Ok (b :: l).
Proof. exact (set_byte_at [] a l b). Qed.

Lemma set_byte_1 (x a : byte) (l : Buffer) (b : byte) :
  set_byte (x :: a :: l) (0 + 1) b = Ok (x :: b :: l).
Proof. exact (set_byte_at [x] a l b). Qed.

Lemma set_byte_2 (x y a : byte) (l : Buffer) (b : byte) :
  set_byte (x :: y :: a :: l) (0 + 1 + 1) b = Ok (x :: y :: b :: l).
Proof. exact (set_byte_at [x; y] a l b). Qed.

Lemma set_byte_3 (x y z a : byte) (l : Buffer) (b : byte) :
  set_byte (x :: y :: z :: a :: l) (0 + 1 + 1 + 1) b =
  Ok (x :: y :: z :: b :: l).
Proof. exact (set_byte_at [x; y; z] a l b). Qed.

(** [_packHeader] at offset 0 of a longer buffer overwrites its first four
    bytes with the header and leaves the rest alone. *)
Lemma packHeader_into (a b c d : byte) (rest : Buffer) (ty : msg_type)
    (len : Z) (hdr : Buffer) :
  encodeHeader ty len = Ok hdr ->
  _packHeader (a :: b :: c :: d :: rest) 0 ty len =
  Ok (hdr ++ rest, HEADER_LENGTH).
Proof.
  intros E.
  pose proof (encodeHeader_range ty len hdr E) as Hlen.
  destruct (encodeHeader_bytes ty len Hlen) as [t [f [hi [lo [E' [Ht [Hf Hl]]]]]]].
  rewrite E in E'. injection E' as ->.
  unfold _packHeader, writeUInt8.
  rewrite <- Ht, byte_of_u8.
  rewrite set_byte_0. cbn [rbind].
  destruct (field_16_split hi lo) as [Hhi Hlo].
  pose proof (field_16_range hi lo) as Hr.
  assert (Hfl : byte_of (if len >=? EXTENSION_LENGTH
                         then Z.lor 0 FLAGS_E_MASK else 0) = Some f).
  { rewrite <- (byte_of_u8 f), Hf.
    destruct (len >=? EXTENSION_LENGTH); reflexivity. }
  destruct (len >=? EXTENSION_LENGTH); cbv iota beta;
    rewrite Hfl, set_byte_1; cbn [rbind];
    unfold writeUInt16BE;
    rewrite <- Hl;
    (replace ((0 <=? _) && (_ <=? 0xffff)) with true
       by (symmetry; apply andb_true_iff; split; apply Z.leb_le; lia));
    rewrite Hhi, Hlo, !byte_of_u8;
    rewrite set_byte_2; cbn [rbind];
    rewrite set_byte_3; reflexivity.
Qed.

(** The header of a call request with [n] bytes of names. *)
Definition request_header (n : Z) : Buffer :=
  match encodeHeader request n with
  | Ok h => h
  | Throw _ => []
  end.

Section Calling.

Variable NBName_write : NBName -> Buffer -> Z -> WriteResult.

(** The two calls of the name encoder in [_sendRequest]. *)
Definition wrote_callTo (callTo : NBName) : WriteResult :=
  NBName_write callTo (new_Buffer (HEADER_LENGTH + MAX_TRAILER_LENGTH))
    HEADER_LENGTH.

Definition wrote_callFrom (callTo callFrom : NBName) : WriteResult :=
  NBName_write callFrom (write_buf (wrote_callTo callTo))
    (HEADER_LENGTH + bytesWritten (wrote_callTo callTo)).

(** Both names were encoded and take [n] bytes together; the encoder writes
    in place, so the buffer it hands back has the size of the one it was
    given. *)
Definition names_encoded (callTo callFrom : NBName) (n : Z) : Prop :=
  write_error (wrote_callTo callTo) = None /\
  write_error (wrote_callFrom callTo callFrom) = None /\
  blen (write_buf (wrote_callFrom callTo callFrom)) =
    HEADER_LENGTH + MAX_TRAILER_LENGTH /\
  n = bytesWritten (wrote_callTo callTo) +
      bytesWritten (wrote_callFrom callTo callFrom) /\
  0 <= n <= MAX_TRAILER_LENGTH.

(** The name bytes of the call request. *)
Definition names_of (callTo callFrom : NBName) (n : Z) : Buffer :=
  slice (write_buf (wrote_callFrom callTo callFrom))
    HEADER_LENGTH (HEADER_LENGTH + n).

Definition request_frame (callTo callFrom : NBName) (n : Z) : Buffer :=
  request_header n ++ names_of callTo callFrom n.

Lemma sendRequest_bound (w : World) (callTo callFrom : NBName)
    (callback : Callback) (n : Z) :
  socket (ss w) = true ->
  names_encoded callTo callFrom n ->
  _sendRequest NBName_write callTo callFrom callback w =
  Ok (tt, with_sock (wrote (request_frame callTo callFrom n))
            (with_ss (set_connectCallback callback) w)).
Proof.
  intros Hs [H1 [H2 [Hb [Hn Hr]]]].
  destruct (packed_header_decodes request n Hr) as [hdr [E [Hl _]]].
  unfold request_frame, request_header. rewrite E.
  unfold _sendRequest. cbv zeta.
  change (NBName_write callTo
            (new_Buffer (HEADER_LENGTH + MAX_TRAILER_LENGTH))
            (0 + HEADER_LENGTH)) with (wrote_callTo callTo).
  rewrite H1.
  change (NBName_write callFrom (write_buf (wrote_callTo callTo))
            (0 + HEADER_LENGTH + bytesWritten (wrote_callTo callTo)))
    with (wrote_callFrom callTo callFrom).
  rewrite H2.
  replace (0 + HEADER_LENGTH + bytesWritten (wrote_callTo callTo) +
           bytesWritten (wrote_callFrom callTo callFrom) - HEADER_LENGTH)
    with n by lia.
  unfold names_of.
  destruct (write_buf (wrote_callFrom callTo callFrom))
    as [|a [|b [|c [|d rest]]]] eqn:Eb;
    try (exfalso; revert Hb; unfold blen; cbn [List.length];
         change (HEADER_LENGTH + MAX_TRAILER_LENGTH) with 131075; lia).
  run. rewrite (packHeader_into a b c d rest request n hdr E). run.
  rewrite socket_write_bound by (run; exact Hs).
  assert (Hslice : slice (hdr ++ rest) 0 (0 + HEADER_LENGTH + n) =
                   hdr ++ slice (a :: b :: c :: d :: rest)
                            HEADER_LENGTH (HEADER_LENGTH + n)).
  { unfold slice. change (Z.to_nat 0) with 0%nat. cbn [skipn].
    replace (0 + HEADER_LENGTH + n - 0) with (blen hdr + n) by lia.
    replace (HEADER_LENGTH + n - HEADER_LENGTH) with n by lia.
    change (Z.to_nat HEADER_LENGTH) with 4%nat. cbn [skipn].
    rewrite Z2Nat.inj_add by (pose proof (blen_nonneg hdr); lia).
    unfold blen at 1. rewrite Nat2Z.id.
    rewrite firstn_app_2. reflexivity. }
  rewrite Hslice. reflexivity.
Qed.

Lemma request_frame_spec (callTo callFrom : NBName) (n : Z) :
  names_encoded callTo callFrom n ->
  blen (request_header n) = HEADER_LENGTH /\
  decodeHeader (Some establishingIn) (request_header n) = Ok (T request, n) /\
  blen (names_of callTo callFrom n) = n.
Proof.
  intros [H1 [H2 [Hb [Hn Hr]]]].
  destruct (packed_header_decodes request n Hr) as [hdr [E [Hl [_ Hd]]]].
  unfold request_header. rewrite E.
  split; [exact Hl|]. split; [apply (Hd establishingIn)|].
  unfold names_of, slice.
  replace (HEADER_LENGTH + n - HEADER_LENGTH) with n by lia.
  apply blen_firstn. rewrite blen_skipn; rewrite Hb;
    change HEADER_LENGTH with 4;
    change MAX_TRAILER_LENGTH with 131071 in *; lia.
Qed.

(** What [_sendRequest] leaves behind. *)
Definition call_sent (callTo callFrom : NBName) (callback : Callback)
    (n : Z) (w w' : World) : Prop :=
  exists hdr,
    written (sock w') =
      written (sock w) ++ [hdr ++ names_of callTo callFrom n] /\
    blen hdr = HEADER_LENGTH /\
    decodeHeader (Some establishingIn) hdr = Ok (T request, n) /\
    blen (names_of callTo callFrom n) = n /\
    connectCallback (ss w') = callback /\
    mode (ss w') = mode (ss w) /\ log w' = log w /\ ticks w' = ticks w /\
    ended (sock w') = ended (sock w).

(** X13.  The call request: when the encoder of the name package has
    written both names (the called name at offset 4, the calling name
    behind it), [_sendRequest] sends one buffer: a header that a callee
    decodes as a request whose length is the number of bytes the two names
    take, followed by exactly these bytes of the encoder's buffer; the
    connect callback is kept for the response and is not called. *)
Theorem sendRequest_frame (w : World) (callTo callFrom : NBName)
    (callback : Callback) (n : Z) :
  socket (ss w) = true ->
  names_encoded callTo callFrom n ->
  exists w',
    _sendRequest NBName_write callTo callFrom callback w = Ok (tt, w') /\
    call_sent callTo callFrom callback n w w'.
Proof.
  intros Hs Hn.
  destruct (request_frame_spec callTo callFrom n Hn) as [Hl [Hd Hb]].
  eexists.
  split; [exact (sendRequest_bound w callTo callFrom callback n Hs Hn)|].
  exists (request_header n). run. unfold request_frame.
  repeat split; first [assumption | reflexivity].
Qed.

(** X14.  When a name cannot be encoded the request is not sent: nothing is
    written, the callback is queued for the next tick with the encoder's
    error and is not kept for a response, and the session is otherwise as
    it was. *)
Theorem sendRequest_name_error (w : World) (callTo callFrom : NBName)
    (callback : Callback) (e : string) :
  (write_error (wrote_callTo callTo) = Some e \/
   write_error (wrote_callTo callTo) = None /\
   write_error (wrote_callFrom callTo callFrom) = Some e) ->
  _sendRequest NBName_write callTo callFrom callback w =
  Ok (tt,
      match callback with
      | Some id =>
          with_ticks (fun q => q ++ [tick_connectCallback id (NameError e)]) w
      | None => w
      end).
Proof.
  unfold _sendRequest. cbv zeta.
  change (NBName_write callTo
            (new_Buffer (HEADER_LENGTH + MAX_TRAILER_LENGTH))
            (0 + HEADER_LENGTH)) with (wrote_callTo callTo).
  change (NBName_write callFrom (write_buf (wrote_callTo callTo))
            (0 + HEADER_LENGTH + bytesWritten (wrote_callTo callTo)))
    with (wrote_callFrom callTo callFrom).
  intros [H1 | [H1 H2]]; rewrite H1; [|rewrite H2];
    destruct callback; reflexivity.
Qed.

Lemma connectSocket_calls (w : World) (callFrom callTo : NBName)
    (cb : Callback) (n : Z) :
  direct (ss w) = false ->
  names_encoded callTo callFrom n ->
  _connectSocket NBName_write callFrom callTo cb w =
  Ok (tt,
      with_ticks (fun q => q ++ [tick_doRead])
        (with_sock (wrote (request_frame callTo callFrom n))
           (with_ss (set_connectCallback cb)
              (with_ss (set_mode (Some establishingOut))
                 (with_inputStream
                    (Some {| buffered := []; readableL := 0; reads := [] |})
                    (with_ss (set_socket true) w)))))).
Proof.
  intros Hd Hn. unfold _connectSocket, _initInputStream, _doRead, nextTick.
  rewrite !bind_modify, bind_gets.
  replace (direct (ss _)) with false by (symmetry; exact Hd).
  erewrite bind_Ok by (apply sendRequest_bound; [reflexivity | exact Hn]).
  reflexivity.
Qed.

(** What [attach] and [_connectSocket] leave behind in direct mode. *)
Definition established_directly (w : World) (reported : list Event)
    (w' : World) : Prop :=
  mode (ss w') = Some established /\
  socket (ss w') = true /\
  sock w' = sock w /\
  attachCallback (ss w') = attachCallback (ss w) /\
  connectCallback (ss w') = connectCallback (ss w) /\
  log w' = log w ++ reported ++ [emit_connect] /\
  ticks w' = ticks w ++ [tick_doRead] /\
  inputStream w' = Some {| buffered := []; readableL := 0; reads := [] |}.

(** X15.  Direct mode skips the handshake on both ends: [attach] on an
    idle session establishes it at once, emits ['connect'], writes nothing
    and neither stores nor calls the callback; [_connectSocket] calls the
    connect callback at once, before ['connect'] is emitted, and sends no
    call request.  Both queue the first tick of the read loop. *)
Theorem direct_mode_skips_handshake (w : World)
    (callback : option AttachCallback) (callFrom callTo : NBName)
    (cb : Callback) :
  direct (ss w) = true ->
  mode (ss w) = None ->
  socket (ss w) = false ->
  (exists w',
     attach callback w = Ok (tt, w') /\ established_directly w [] w') /\
  (exists w',
     _connectSocket NBName_write callFrom callTo cb w = Ok (tt, w') /\
     established_directly w
       (match cb with
        | Some id => [call_connectCallback id None]
        | None => []
        end) w').
Proof.
  intros Hd Hm Hs. unfold established_directly. split.
  - unfold attach. run. rewrite Hm, Hs. run. rewrite Hd.
    eexists. split; [reflexivity|]. run. repeat split; reflexivity.
  - unfold _connectSocket. run. rewrite Hd.
    destruct cb as [id|]; run;
      (eexists; split; [reflexivity|]; run;
       rewrite <- ?app_assoc; repeat split; reflexivity).
Qed.

End Calling.

Definition sample_name : NBName :=
  {| error := None; bytesRead := None; name := "FILESERVER" |}.

Lemma sample_names_encoded :
  names_encoded fixed_write sample_name sample_name 68.
Proof.
  unfold names_encoded. split; [reflexivity|]. split; [reflexivity|].
  split; [vm_compute; reflexivity|]. split; [reflexivity|].
  split; intro H; discriminate H.
Defined.

Lemma sendRequest_frame_witness :
  names_encoded fixed_write sample_name sample_name 68 /\
  exists w',
    _sendRequest fixed_write sample_name sample_name (Some 7%nat)
      (session_in establishingOut []) = Ok (tt, w') /\
    call_sent fixed_write sample_name sample_name (Some 7%nat) 68
      (session_in establishingOut []) w'.
Proof.
  split; [exact sample_names_encoded|].
  exact (sendRequest_frame fixed_write (session_in establishingOut [])
           sample_name sample_name (Some 7%nat) 68 eq_refl
           sample_names_encoded).
Defined.

(** An encoder that refuses names longer than fifteen characters. *)
Definition strict_write (n : NBName) (buf : Buffer) (offset : Z)
    : WriteResult :=
  if (15 <? String.length (name n))%nat
  then {| write_error := Some "Name too long"; bytesWritten := 0;
          write_buf := buf |}
  else fixed_write n buf offset.

Definition long_name : NBName :=
  {| error := None; bytesRead := None; name := "A-NAME-THAT-IS-TOO-LONG" |}.

Lemma sendRequest_name_error_witness :
  (write_error (wrote_callTo strict_write sample_name) = Some "Name too long" \/
   write_error (wrote_callTo strict_write sample_name) = None /\
   write_error (wrote_callFrom strict_write sample_name long_name)
     = Some "Name too long") /\
  _sendRequest strict_write sample_name long_name (Some 7%nat)
    (session_in establishingOut []) =
  Ok (tt,
      with_ticks
        (fun q => q ++ [tick_connectCallback 7 (NameError "Name too long")])
        (session_in establishingOut [])).
Proof.
  assert (H : write_error (wrote_callTo strict_write sample_name)
                = Some "Name too long" \/
              write_error (wrote_callTo strict_write sample_name) = None /\
              write_error (wrote_callFrom strict_write sample_name long_name)
                = Some "Name too long")
    by (right; split; reflexivity).
  split; [exact H|].
  exact (sendRequest_name_error strict_write (session_in establishingOut [])
           sample_name long_name (Some 7%nat) "Name too long" H).
Defined.

Lemma direct_mode_skips_handshake_witness :
  (exists w',
     attach (Some (fun _ _ => Reject None))
       (NetbiosSession true false false (fun _ => false)) = Ok (tt, w') /\
     established_directly
       (NetbiosSession true false false (fun _ => false)) [] w') /\
  (exists w',
     _connectSocket fixed_write sample_name sample_name (Some 7%nat)
       (NetbiosSession true false false (fun _ => false)) = Ok (tt, w') /\
     established_directly
       (NetbiosSession true false false (fun _ => false))
       [call_connectCallback 7 None] w').
Proof.
  exact (direct_mode_skips_handshake fixed_write
           (NetbiosSession true false false (fun _ => false))
           (Some (fun _ _ => Reject None)) sample_name sample_name
           (Some 7%nat) eq_refl eq_refl eq_refl).
Defined.

(** ** The handshake, end to end *)

(** Bytes that arrive while one [_doRead] listener waits for ['readable']
    are buffered and queue one tick of the read loop. *)
Lemma data_wakes_reader (w : World) (st : Readable) (chunk : Buffer) :
  inputStream w = Some st ->
  readableL st = 1%nat ->
  socket_data chunk w =
  Ok (tt,
      with_ticks (fun q => q ++ [tick_doRead])
        (with_inputStream
           (Some {| buffered := buffered st ++ chunk; readableL := 0;
                    reads := reads st |}) w)).
Proof.
  intros Hst Hl. run. rewrite Hst. run. rewrite Hl. reflexivity.
Qed.

(** A session in mode [m] that has read nothing yet: the first tick of its
    read loop has run and its listener waits for bytes. *)
Definition waiting (m : Mode) (a p : bool) (pom : Buffer -> bool)
    (f : option AttachCallback) (cb : Callback) (out : list Buffer) : World :=
  {| ss := {| mode := Some m; direct := false; autoAccept := a; paused := p;
              attachCallback := f; connectCallback := cb;
              trailerType := None; trailerLength := 0;
              readFunc := readHeader; socket := true; needDrain := false |};
     sock := {| written := out; ended := false; flushes := []; drainL := [] |};
     inputStream := Some {| buffered := []; readableL := 1;
                            reads := [HEADER_LENGTH] |};
     ticks := []; requests := []; log := [];
     pause_on_message := pom |}.

(** Both ends of an accepted call. *)
Definition both_established (id : nat) (call : Buffer)
    (caller1 callee2 caller2 : World) : Prop :=
  written (sock caller1) = [call] /\
  written (sock callee2) = [[x82; x00; x00; x00]] /\
  mode (ss callee2) = Some established /\
  log callee2 = [call_attachCallback 0; emit_connect] /\
  mode (ss caller2) = Some established /\
  log caller2 = [emit_connect; call_connectCallback id None].

Section Connecting.

Variable fromBuffer : Buffer -> option Z -> NBName.
Variable NBName_write : NBName -> Buffer -> Z -> WriteResult.

Lemma caller_waits (callFrom callTo : NBName) (cb : Callback) (n : Z)
    (a p : bool) (pom : Buffer -> bool) :
  names_encoded NBName_write callTo callFrom n ->
  (_connectSocket NBName_write callFrom callTo cb ;; run_tick fromBuffer)
    (NetbiosSession false a p pom) =
  Ok (tt, waiting establishingOut a p pom None cb
            [request_frame NBName_write callTo callFrom n]).
Proof.
  intros Hn.
  erewrite bind_Ok by (apply connectSocket_calls; [reflexivity | exact Hn]).
  generalize (request_frame NBName_write callTo callFrom n). intros fr.
  reflexivity.
Qed.

Lemma callee_waits (f : option AttachCallback) (a p : bool)
    (pom : Buffer -> bool) :
  (attach f ;; run_tick fromBuffer) (NetbiosSession false a p pom) =
  Ok (tt, waiting establishingIn a p pom f None []).
Proof. reflexivity. Qed.

(** X16.  The handshake completes: a caller constructed without [direct]
    dials with [_connectSocket] and waits; a callee, attached with a
    callback and waiting, receives what the caller wrote; when the name
    package decodes on the callee's side what it encoded on the caller's
    and the callback accepts, the callee answers 82 00 00 00 and is
    established, and the caller, receiving these four bytes, is
    established too: its ['connect'] is emitted and its connect callback is
    called once, without an error. *)
Theorem handshake_completes (callFrom callTo : NBName) (n : Z) (id : nat)
    (f : AttachCallback) (a1 p1 a2 p2 : bool) (pom1 pom2 : Buffer -> bool) :
  names_encoded NBName_write callTo callFrom n ->
  0 < n ->
  error (fromBuffer (names_of NBName_write callTo callFrom n) (Some 0)) = None ->
  error (fromBuffer (names_of NBName_write callTo callFrom n)
           (bytesRead (fromBuffer (names_of NBName_write callTo callFrom n)
                         (Some 0)))) = None ->
  decision fromBuffer (names_of NBName_write callTo callFrom n) f = Accept ->
  exists call caller1 callee1 callee2 caller2,
    (_connectSocket NBName_write callFrom callTo (Some id) ;;
     run_tick fromBuffer) (NetbiosSession false a1 p1 pom1)
      = Ok (tt, caller1) /\
    (attach (Some f) ;; run_tick fromBuffer) (NetbiosSession false a2 p2 pom2)
      = Ok (tt, callee1) /\
    (socket_data call ;; run_tick fromBuffer) callee1 = Ok (tt, callee2) /\
    (socket_data [x82; x00; x00; x00] ;; run_tick fromBuffer) caller1
      = Ok (tt, caller2) /\
    both_established id call caller1 callee2 caller2.
Proof.
  intros Hn Hpos He1 He2 Hf.
  destruct (request_frame_spec NBName_write callTo callFrom n Hn)
    as [Hl [Hd Hb]].
  pose proof (caller_waits callFrom callTo (Some id) n a1 p1 pom1 Hn) as Ec.
  unfold request_frame in *. revert Ec Hl Hd Hb He1 He2 Hf.
  generalize (names_of NBName_write callTo callFrom n). intros names.
  generalize (request_header n). intros hdr.
  intros Ec Hl Hd Hb He1 He2 Hf.
  set (caller1 := waiting establishingOut a1 p1 pom1 None (Some id)
                    [hdr ++ names]) in *.
  set (callee1 := waiting establishingIn a2 p2 pom2 (Some f) None []).
  set (st := {| buffered := hdr ++ names; readableL := 0;
                reads := [HEADER_LENGTH] |}).
  destruct (accept_tick fromBuffer
              (with_inputStream (Some st) callee1) st hdr names [] f)
    as [callee2 [Et [Hm' [Hw' [_ [Hl' _]]]]]].
  { unfold call_arrives.
    do 5 (split; [reflexivity|]).
    split; [unfold st; cbn [buffered]; rewrite app_nil_r; reflexivity|].
    rewrite Hb. repeat split; first [assumption | lia]. }
  { exact Hf. }
  set (st2 := {| buffered := [x82; x00; x00; x00]; readableL := 0;
                 reads := [HEADER_LENGTH] |}).
  destruct (positive_tick fromBuffer
              (with_inputStream (Some st2) caller1) st2
              [x82; x00; x00; x00] [])
    as [caller2 [Ec2 [Hm2 [_ [Hl2 _]]]]]; try reflexivity.
  exists (hdr ++ names), caller1, callee1, callee2, caller2.
  split; [exact Ec|]. split; [apply callee_waits|].
  split; [exact Et|]. split; [exact Ec2|].
  unfold both_established.
  split; [reflexivity|]. split; [exact Hw'|]. split; [exact Hm'|].
  split; [exact Hl'|]. split; [exact Hm2 | exact Hl2].
Qed.

End Connecting.

Lemma handshake_completes_witness :
  names_encoded fixed_write sample_name sample_name 68 /\
  exists call caller1 callee1 callee2 caller2,
    (_connectSocket fixed_write sample_name sample_name (Some 7%nat) ;;
     run_tick fixed_fromBuffer)
      (NetbiosSession false false false (fun _ => false)) = Ok (tt, caller1) /\
    (attach (Some (fun _ _ => Accept)) ;; run_tick fixed_fromBuffer)
      (NetbiosSession false false true (fun _ => false)) = Ok (tt, callee1) /\
    (socket_data call ;; run_tick fixed_fromBuffer) callee1
      = Ok (tt, callee2) /\
    (socket_data [x82; x00; x00; x00] ;; run_tick fixed_fromBuffer) caller1
      = Ok (tt, caller2) /\
    both_established 7 call caller1 callee2 caller2.
Proof.
  split; [exact sample_names_encoded|].
  apply (handshake_completes fixed_fromBuffer fixed_write
           sample_name sample_name 68 7 (fun _ _ => Accept)
           false false false true (fun _ => false) (fun _ => false)
           sample_names_encoded).
  - reflexivity.
  - vm_compute. reflexivity.
  - vm_compute. reflexivity.
  - reflexivity.
Defined.

(** ** The read loop over a stream of frames *)

Lemma four_bytes (hdr : Buffer) :
  blen hdr = HEADER_LENGTH -> exists t f hi lo, hdr = [t; f; hi; lo].
Proof.
  unfold blen. change HEADER_LENGTH with 4.
  destruct hdr as [|t [|f [|hi [|lo [|x hdr]]]]]; cbn [List.length];
    intros H; try lia.
  exists t, f, hi, lo. reflexivity.
Qed.

(** What a header decodes to while the session is established: a message,
    a keep-alive, or a frame to be ignored. *)
Lemma decodeHeader_established (hdr : Buffer) (tg : tag) (n : Z) :
  decodeHeader (Some established) hdr = Ok (tg, n) ->
  blen hdr = HEADER_LENGTH ->
  tg = match hdr with
       | t :: _ =>
           if u8 t =? 0 then T message
           else if u8 t =? 0x85 then T keep_alive
           else ignore
       | [] => ignore
       end.
Proof.
  intros Hd Hh. destruct (four_bytes hdr Hh) as [t [f [hi [lo ->]]]].
  rewrite decodeHeader_bytes in Hd. apply Ok_pair_inj in Hd.
  destruct Hd as [<- _]. unfold TYPE_TO_STRING.
  repeat match goal with
  | |- context [?a =? ?b] => destruct (Z.eqb_spec a b); try lia; try reflexivity
  end.
Qed.

(** A frame on the wire: header and trailer. *)
Definition WireFrame : Type := (Buffer * Buffer)%type.

Definition bytes_of (fr : WireFrame) : Buffer := fst fr ++ snd fr.

(** The header has four bytes and announces the trailer's length. *)
Definition framed (fr : WireFrame) : Prop :=
  blen (fst fr) = HEADER_LENGTH /\
  exists tg, decodeHeader (Some established) (fst fr) = Ok (tg, blen (snd fr)).

Definition is_message (fr : WireFrame) : bool :=
  match fst fr with
  | t :: _ => (u8 t =? 0) && (0 <? blen (snd fr))
  | [] => false
  end.

(** What an established session emits for a frame: the trailer of a
    message frame that has one, and nothing else. *)
Definition surfaced (fr : WireFrame) : list Event :=
  if is_message fr then [emit_message (snd fr)] else [].

(** The session is established, not paused, with its read loop at a frame
    boundary, and the listener does not pause on the payloads of [frs]. *)
Definition reading (w : World) (frs : list WireFrame) : Prop :=
  mode (ss w) = Some established /\
  paused (ss w) = false /\
  readFunc (ss w) = readHeader /\
  Forall (fun fr => pause_on_message w (snd fr) = false) frs.

Section Stream.

Variable fromBuffer : Buffer -> option Z -> NBName.

(** One tick on a frame that is buffered as a whole. *)
Lemma frame_tick (w : World) (st : Readable) (fr : WireFrame) (rest : Buffer) :
  mode (ss w) = Some established ->
  paused (ss w) = false ->
  readFunc (ss w) = readHeader ->
  pause_on_message w (snd fr) = false ->
  inputStream w = Some st ->
  framed fr ->
  buffered st = bytes_of fr ++ rest ->
  exists w' st',
    doRead_tick fromBuffer w = Ok (tt, w') /\
    log w' = log w ++ surfaced fr /\
    mode (ss w') = Some established /\
    paused (ss w') = false /\
    readFunc (ss w') = readHeader /\
    pause_on_message w' = pause_on_message w /\
    sock w' = sock w /\
    inputStream w' = Some st' /\
    buffered st' = rest /\ readableL st' = readableL st /\
    ticks w' = ticks w ++ [tick_doRead].
Proof.
  destruct fr as [hdr trailer]. unfold framed, bytes_of, surfaced, is_message.
  cbn [fst snd].
  intros Hm Hp Hrf Hpom Hst [Hh [tg Hd]] Hbuf.
  rewrite <- app_assoc in Hbuf.
  pose proof (decodeHeader_established hdr tg _ Hd Hh) as Htg.
  destruct (four_bytes hdr Hh) as [t [f [hi [lo ->]]]].
  unfold doRead_tick.
  rewrite (bind_cong _ _ _ w _
             (frame_dispatch fromBuffer w established st _ trailer rest tg
                Hm Hrf Hst Hh Hd Hbuf)).
  destruct (consumed_fields w st tg trailer rest Hrf)
    as [c [-> [Hcm [Hcp [Hcrf [Hcpom [Hcs [Hct [Hcl [st' [Hci [Hcb Hcr]]]]]]]]]]]].
  assert (Eh : exists c',
            handler fromBuffer tg trailer c = Ok (tt, c') /\
            log c' = log c ++
                     (if (u8 t =? 0) && (0 <? blen trailer)
                      then [emit_message trailer] else []) /\
            ss c' = ss c /\ sock c' = sock c /\
            inputStream c' = inputStream c /\ ticks c' = ticks c /\
            pause_on_message c' = pause_on_message c).
  { unfold handler. rewrite Z.gtb_ltb.
    destruct (u8 t =? 0); [|destruct (u8 t =? 0x85)]; subst tg;
      destruct (0 <? blen trailer); cbn [andb];
      try (exists c; rewrite app_nil_r; repeat split; reflexivity).
    unfold _handleMessage, emit, pause.
    rewrite bind_modify, bind_gets.
    change (pause_on_message (with_log _ c)) with (pause_on_message c).
    replace (pause_on_message c trailer) with false
      by (rewrite Hcpom; symmetry; exact Hpom).
    eexists. split; [reflexivity|]. repeat split; reflexivity. }
  destruct Eh as [c' [Eh [Hl' [Hs' [Hk' [Hi' [Ht' Hp']]]]]]].
  rewrite bind_assoc, (bind_Ok _ _ _ _ _ Eh), bind_ret.
  rewrite !bind_gets, Hs', Hcm, Hcp, Hm, Hp.
  cbn [is_established andb negb]. unfold _doRead, nextTick, modify.
  eexists. exists st'. split; [reflexivity|].
  cbn [log ss sock inputStream ticks pause_on_message with_ticks].
  rewrite Hl', Hs', Hk', Hi', Ht', Hp', Hcl, Hct, Hcm, Hcp.
  repeat split; assumption.
Qed.

(** One tick when fewer than four bytes are buffered. *)
Lemma idle_tick (w : World) (st : Readable) :
  readFunc (ss w) = readHeader ->
  paused (ss w) = false ->
  inputStream w = Some st ->
  blen (buffered st) < HEADER_LENGTH ->
  doRead_tick fromBuffer w =
  Ok (tt,
      with_inputStream
        (Some {| buffered := buffered st; readableL := S (readableL st);
                 reads := reads st ++ [HEADER_LENGTH] |}) w).
Proof.
  intros Hrf Hp Hst Hlen.
  run. rewrite Hrf.
  rewrite (stream_read_short w st HEADER_LENGTH Hst Hlen).
  run. rewrite Hp.
  destruct (mode (ss w)) as [[| |]|]; reflexivity.
Qed.

Lemma run_tick_head (w : World) (t : Task) (q : list Task) :
  ticks w = t :: q ->
  run_tick fromBuffer w = run_task fromBuffer t (with_ticks (fun _ => q) w).
Proof. intros H. unfold run_tick, bind, gets, modify. rewrite H. reflexivity. Qed.

Lemma run_ticks_quiet (K : nat) (w : World) :
  ticks w = [] -> run_ticks fromBuffer K w = Ok (tt, w).
Proof.
  intros H. induction K as [|K IH]; [reflexivity|].
  cbn [run_ticks]. unfold bind at 1, run_tick, bind, gets. rewrite H.
  exact IH.
Qed.

Lemma run_ticks_step (K : nat) (w w' : World) :
  ticks w = [tick_doRead] ->
  doRead_tick fromBuffer (with_ticks (fun _ => []) w) = Ok (tt, w') ->
  run_ticks fromBuffer (S K) w = run_ticks fromBuffer K w'.
Proof.
  intros Ht E. cbn [run_ticks]. unfold bind at 1.
  rewrite (run_tick_head w _ _ Ht). cbn [run_task].
  rewrite E. reflexivity.
Qed.

(** The running loop reads the buffered frames one per tick and then waits
    for more bytes. *)
Lemma stream_delivered (frs : list WireFrame) :
  Forall framed frs ->
  forall (w : World) (st : Readable),
  reading w frs ->
  inputStream w = Some st ->
  buffered st = flat_map bytes_of frs ->
  ticks w = [tick_doRead] ->
  exists w' st',
    run_ticks fromBuffer (S (List.length frs)) w = Ok (tt, w') /\
    log w' = log w ++ flat_map surfaced frs /\
    mode (ss w') = Some established /\
    paused (ss w') = false /\
    readFunc (ss w') = readHeader /\
    pause_on_message w' = pause_on_message w /\
    sock w' = sock w /\
    inputStream w' = Some st' /\
    buffered st' = [] /\
    readableL st' = S (readableL st) /\
    ticks w' = [].
Proof.
  induction 1 as [|fr frs Hfr _ IH];
    intros w st [Hm [Hp [Hrf Hpom]]] Hst Hbuf Ht.
  - cbn [List.length run_ticks]. unfold bind at 1.
    rewrite (run_tick_head w _ _ Ht). cbn [run_task].
    rewrite (idle_tick _ st) by (first [assumption | rewrite Hbuf; reflexivity]).
    eexists. eexists. split; [reflexivity|]. run.
    rewrite app_nil_r, Hbuf.
    repeat split; first [assumption | reflexivity].
  - cbn [List.length]. change (run_ticks fromBuffer (S (S (List.length frs))))
      with (run_tick fromBuffer ;; run_ticks fromBuffer (S (List.length frs))).
    unfold bind at 1. rewrite (run_tick_head w _ _ Ht). cbn [run_task].
    inversion Hpom as [|? ? Hpom1 Hpom2]; subst.
    destruct (frame_tick (with_ticks (fun _ => []) w) st fr
                (flat_map bytes_of frs))
      as [w1 [st1 [E [Hl [Hm1 [Hp1 [Hrf1 [Hpm [Hs1 [Hi1 [Hb1 [Hr1 Ht1]]]]]]]]]]]];
      try assumption.
    rewrite E.
    destruct (IH w1 st1)
      as [w' [st' [E' [Hl' [Hm' [Hp' [Hrf' [Hpm' [Hs' [Hi' [Hb' [Hr' Ht']]]]]]]]]]]];
      try assumption.
    { repeat split; try assumption. rewrite Hpm. exact Hpom2. }
    exists w', st'. split; [exact E'|].
    rewrite Hl', Hl, <- app_assoc, Hs', Hs1, Hr', Hr1, Hpm', Hpm.
    repeat split; first [assumption | reflexivity].
Qed.

End Stream.

(** ** The read loop under segmentation *)

Section Fragments.

Variable fromBuffer : Buffer -> option Z -> NBName.

(** The read loop of an established session that is not paused and whose
    application never pauses. *)
Definition flowing (w : World) : Prop :=
  mode (ss w) = Some established /\
  paused (ss w) = false /\
  forall m, pause_on_message w m = false.

(** Where the parser stands: between frames, or behind the header of [fr]
    and waiting for its trailer. *)
Definition Position : Type := option WireFrame.

Definition stands (w : World) (pos : Position) : Prop :=
  match pos with
  | None => readFunc (ss w) = readHeader
  | Some fr =>
      readFunc (ss w) = readTrailer /\
      trailerLength (ss w) = blen (snd fr) /\
      exists tg,
        trailerType (ss w) = Some tg /\
        decodeHeader (Some established) (fst fr) = Ok (tg, blen (snd fr)) /\
        blen (fst fr) = HEADER_LENGTH
  end.

(** The header is read and the trailer is not there yet. *)
Lemma header_tick (w : World) (st : Readable) (fr : WireFrame) :
  flowing w ->
  readFunc (ss w) = readHeader ->
  inputStream w = Some st ->
  framed fr ->
  forall have,
  buffered st = fst fr ++ have ->
  blen have < blen (snd fr) ->
  exists w',
    doRead_tick fromBuffer w = Ok (tt, w') /\
    flowing w' /\ stands w' (Some fr) /\
    log w' = log w /\ ticks w' = ticks w /\ sock w' = sock w /\
    inputStream w' =
      Some {| buffered := have; readableL := S (readableL st);
              reads := (reads st ++ [HEADER_LENGTH]) ++ [blen (snd fr)] |}.
Proof.
  destruct fr as [hdr trailer]. unfold framed. cbn [fst snd].
  intros [Hm [Hp Hpom]] Hrf Hst [Hh [tg Hd]] have Hbuf Hshort.
  run. rewrite Hrf. rewrite <- Hh.
  rewrite (stream_read_enough w st hdr have Hst Hbuf).
  run. rewrite Hm, Hd. run.
  replace (blen trailer >? 0) with true
    by (symmetry; apply Z.gtb_lt; pose proof (blen_nonneg have); lia).
  run.
  erewrite stream_read_short by (first [reflexivity | exact Hshort]).
  run. rewrite ?Hm, ?Hp. run.
  eexists. split; [reflexivity|]. unfold flowing, stands. run.
  rewrite Hh. repeat split; try first [assumption | reflexivity].
  exists tg. repeat split; assumption.
Qed.

(** The trailer the parser waits for is there. *)
Lemma trailer_tick (w : World) (st : Readable) (fr : WireFrame) (rest : Buffer) :
  flowing w ->
  stands w (Some fr) ->
  inputStream w = Some st ->
  buffered st = snd fr ++ rest ->
  0 < blen (snd fr) ->
  exists w' st',
    doRead_tick fromBuffer w = Ok (tt, w') /\
    flowing w' /\ stands w' None /\
    log w' = log w ++ surfaced fr /\
    ticks w' = ticks w ++ [tick_doRead] /\ sock w' = sock w /\
    inputStream w' = Some st' /\ buffered st' = rest /\
    readableL st' = readableL st.
Proof.
  destruct fr as [hdr trailer]. unfold stands, surfaced, is_message.
  cbn [fst snd].
  intros [Hm [Hp Hpom]] [Hrf [Hn [tg [Htt [Hd Hh]]]]] Hst Hbuf Hpos.
  pose proof (decodeHeader_established hdr tg _ Hd Hh) as Htg.
  destruct (four_bytes hdr Hh) as [t [f [hi [lo ->]]]].
  run. rewrite Hrf. run. rewrite Hn.
  rewrite (stream_read_enough w st trailer rest Hst Hbuf).
  run. rewrite Htt.
  replace (0 <? blen trailer) with true by (symmetry; apply Z.ltb_lt; lia).
  destruct (u8 t =? 0); [|destruct (u8 t =? 0x85)]; subst tg; cbn [andb];
    run; rewrite ?Hpom, ?Hm, ?Hp; run;
    (eexists; eexists; split; [reflexivity|]; unfold flowing; run;
     rewrite ?app_nil_r; repeat split; first [assumption | reflexivity]).
Qed.

(** The trailer the parser waits for is not there yet. *)
Lemma waiting_tick (w : World) (st : Readable) (fr : WireFrame) :
  flowing w ->
  stands w (Some fr) ->
  inputStream w = Some st ->
  blen (buffered st) < blen (snd fr) ->
  exists w',
    doRead_tick fromBuffer w = Ok (tt, w') /\
    flowing w' /\ stands w' (Some fr) /\
    log w' = log w /\ ticks w' = ticks w /\ sock w' = sock w /\
    inputStream w' =
      Some {| buffered := buffered st; readableL := S (readableL st);
              reads := reads st ++ [blen (snd fr)] |}.
Proof.
  unfold stands.
  intros [Hm [Hp Hpom]] [Hrf [Hn [tg [Htt [Hd Hh]]]]] Hst Hshort.
  run. rewrite Hrf. run. rewrite Hn.
  rewrite (stream_read_short w st _ Hst Hshort).
  run. rewrite Hm, Hp. run.
  eexists. split; [reflexivity|]. unfold flowing. run.
  repeat split; try first [assumption | reflexivity].
  exists tg. repeat split; assumption.
Qed.


Definition owes (pos : Position) (frs : list WireFrame) : list Event :=
  match pos with Some fr => surfaced fr | None => [] end ++
  flat_map surfaced frs.

Definition remaining (pos : Position) (frs : list WireFrame) : Buffer :=
  match pos with Some fr => snd fr | None => [] end ++
  flat_map bytes_of frs.

Definition pending (pos : Position) (frs : list WireFrame) : nat :=
  match pos with
  | Some _ => S (List.length frs)
  | None => List.length frs
  end.

Definition opened (pos : Position) : Prop :=
  match pos with
  | Some fr => 0 < blen (snd fr)
  | None => True
  end.

(** A tick of the read loop is queued and [buf] is buffered. *)
Definition awake (w : World) (buf : Buffer) (pos : Position) : Prop :=
  flowing w /\ stands w pos /\ ticks w = [tick_doRead] /\
  exists st,
    inputStream w = Some st /\ buffered st = buf /\ readableL st = 0%nat.

(** The read loop waits for ['readable']: what is buffered does not
    complete the header or the trailer it is reading. *)
Definition parked (w : World) (have : Buffer) (pos : Position) : Prop :=
  flowing w /\ stands w pos /\ ticks w = [] /\
  (exists st,
     inputStream w = Some st /\ buffered st = have /\ readableL st = 1%nat) /\
  match pos with
  | None => blen have < HEADER_LENGTH
  | Some fr => blen have < blen (snd fr)
  end.

Lemma app_split_prefix (a b c d : Buffer) :
  a ++ b = c ++ d -> blen c <= blen a ->
  exists a', a = c ++ a' /\ a' ++ b = d.
Proof.
  revert a. induction c as [|x c IH]; intros a H Hlen.
  - exists a. split; [reflexivity | exact H].
  - destruct a as [|y a];
      [unfold blen in Hlen; cbn [List.length] in Hlen; lia|].
    cbn [app] in H. injection H as -> H.
    destruct (IH a H) as [a' [-> H']].
    { unfold blen in *. cbn [List.length] in Hlen. lia. }
    exists a'. split; [reflexivity | exact H'].
Qed.

(** From a frame boundary the loop reads on until the buffered bytes do
    not complete the next header or trailer. *)
Lemma loop_boundary (frs : list WireFrame) :
  Forall framed frs ->
  forall (w : World) (buf future : Buffer) (K : nat),
  awake w buf None ->
  buf ++ future = flat_map bytes_of frs ->
  (List.length frs < K)%nat ->
  exists w' have pos' frs',
    run_ticks fromBuffer K w = Ok (tt, w') /\
    parked w' have pos' /\
    have ++ future = remaining pos' frs' /\
    log w' ++ owes pos' frs' = log w ++ flat_map surfaced frs /\
    (pending pos' frs' <= List.length frs)%nat /\
    Forall framed frs' /\
    match pos' with Some fr => framed fr | None => True end /\
    opened pos' /\
    sock w' = sock w.
Proof.
  induction 1 as [|fr frs Hfr Hfrs IH];
    intros w buf future K [Hfl [Hrf [Ht [st [Hst [Hbuf Hr]]]]]] Hsplit HK;
    (destruct K as [|K]; [lia|]); cbn [stands] in Hrf.
  - cbn [flat_map] in Hsplit. apply app_eq_nil in Hsplit.
    destruct Hsplit as [-> ->].
    erewrite run_ticks_step;
      [|exact Ht
       |apply (idle_tick fromBuffer _ st);
        [exact Hrf | apply Hfl | exact Hst | rewrite Hbuf; reflexivity]].
    rewrite run_ticks_quiet by reflexivity.
    eexists. exists [], None, []. split; [reflexivity|].
    split; [|repeat split; try first [reflexivity | constructor]].
    unfold parked. split; [exact Hfl|]. split; [exact Hrf|].
    split; [reflexivity|]. split; [|reflexivity].
    eexists. split; [reflexivity|]. cbn [buffered readableL].
    rewrite Hbuf, Hr. split; reflexivity.
  - destruct (Z.lt_ge_cases (blen buf) HEADER_LENGTH) as [Hshort|Hlong].
    + erewrite run_ticks_step;
        [|exact Ht
         |apply (idle_tick fromBuffer _ st);
          [exact Hrf | apply Hfl | exact Hst | rewrite Hbuf; exact Hshort]].
      rewrite run_ticks_quiet by reflexivity.
      eexists. exists buf, None, (fr :: frs). split; [reflexivity|].
      split; [|repeat split;
                try first [reflexivity | exact Hsplit | constructor; assumption]].
      unfold parked. split; [exact Hfl|]. split; [exact Hrf|].
      split; [reflexivity|]. split; [|exact Hshort].
      eexists. split; [reflexivity|]. cbn [buffered readableL].
      rewrite Hbuf, Hr. split; reflexivity.
    + cbn [flat_map] in Hsplit. unfold bytes_of at 1 in Hsplit.
      rewrite <- app_assoc in Hsplit.
      destruct (app_split_prefix _ _ _ _ Hsplit) as [buf1 [-> Hsplit1]];
        [destruct Hfr as [-> _]; exact Hlong|].
      destruct (Z.lt_ge_cases (blen buf1) (blen (snd fr))) as [Hwait|Henough].
      * destruct (header_tick (with_ticks (fun _ => []) w) st fr)
          with (have := buf1)
          as [w1 [E [Hfl1 [Hst1 [Hl1 [Ht1 [Hs1 Hi1]]]]]]];
          try assumption.
        erewrite run_ticks_step; [|exact Ht | exact E].
        rewrite run_ticks_quiet by exact Ht1.
        exists w1, buf1, (Some fr), frs. split; [reflexivity|].
        split.
        { unfold parked. split; [exact Hfl1|]. split; [exact Hst1|].
          split; [exact Ht1|]. split; [|exact Hwait].
          eexists. split; [exact Hi1|]. cbn [buffered readableL].
          rewrite Hr. split; reflexivity. }
        split; [exact Hsplit1|]. split; [rewrite Hl1; reflexivity|].
        split; [apply Nat.le_refl|]. split; [exact Hfrs|].
        split; [exact Hfr|]. split; [|exact Hs1].
        cbn [opened]. pose proof (blen_nonneg buf1). lia.
      * destruct (app_split_prefix _ _ _ _ Hsplit1 Henough)
          as [buf2 [-> Hsplit2]].
        destruct (frame_tick fromBuffer (with_ticks (fun _ => []) w) st fr buf2)
          as [w1 [st1 [E [Hl1 [Hm1 [Hp1 [Hrf1 [Hpm1 [Hs1 [Hi1 [Hb1 [Hr1 Ht1]]]]]]]]]]]];
          try first [assumption | apply Hfl].
        { rewrite Hbuf. unfold bytes_of. rewrite <- app_assoc. reflexivity. }
        erewrite run_ticks_step; [|exact Ht | exact E].
        destruct (IH w1 buf2 future K)
          as [w' [have [pos' [frs' [E' [Hpk [Hrem [Hlog [Hpend [Hfr' [Hpos' [Hop Hs']]]]]]]]]]]].
        { split.
          - split; [exact Hm1|]. split; [exact Hp1|].
            intros m. rewrite Hpm1. apply Hfl.
          - split; [exact Hrf1|]. split; [exact Ht1|].
            exists st1. rewrite Hr1, Hr. repeat split; assumption. }
        { exact Hsplit2. }
        { cbn [List.length] in HK. lia. }
        exists w', have, pos', frs'. split; [exact E'|].
        split; [exact Hpk|]. split; [exact Hrem|]. split.
        { rewrite Hlog, Hl1. cbn [flat_map with_ticks log].
          rewrite <- app_assoc. reflexivity. }
        split; [cbn [List.length]; lia|].
        split; [exact Hfr'|]. split; [exact Hpos'|]. split; [exact Hop|].
        rewrite Hs', Hs1. reflexivity.
Qed.


(** The same from behind a header. *)
Lemma loop_position (pos : Position) (frs : list WireFrame) (w : World)
    (buf future : Buffer) (K : nat) :
  Forall framed frs ->
  match pos with Some fr => framed fr | None => True end ->
  opened pos ->
  awake w buf pos ->
  buf ++ future = remaining pos frs ->
  (pending pos frs < K)%nat ->
  exists w' have pos' frs',
    run_ticks fromBuffer K w = Ok (tt, w') /\
    parked w' have pos' /\
    have ++ future = remaining pos' frs' /\
    log w' ++ owes pos' frs' = log w ++ owes pos frs /\
    (pending pos' frs' <= pending pos frs)%nat /\
    Forall framed frs' /\
    match pos' with Some fr => framed fr | None => True end /\
    opened pos' /\
    sock w' = sock w.
Proof.
  intros Hfrs Hfr Hop Haw Hsplit HK.
  destruct pos as [fr|]; [|exact (loop_boundary frs Hfrs w buf future K
                                    Haw Hsplit HK)].
  destruct Haw as [Hfl [Hstd [Ht [st [Hst [Hbuf Hr]]]]]].
  cbn [pending] in HK. destruct K as [|K]; [lia|].
  cbn [remaining opened] in *.
  destruct (Z.lt_ge_cases (blen buf) (blen (snd fr))) as [Hwait|Henough].
  - destruct (waiting_tick (with_ticks (fun _ => []) w) st fr)
      as [w1 [E [Hfl1 [Hst1 [Hl1 [Ht1 [Hs1 Hi1]]]]]]];
      try first [assumption | rewrite Hbuf; exact Hwait].
    erewrite run_ticks_step; [|exact Ht | exact E].
    rewrite run_ticks_quiet by exact Ht1.
    exists w1, buf, (Some fr), frs. split; [reflexivity|].
    split.
    { unfold parked. split; [exact Hfl1|]. split; [exact Hst1|].
      split; [exact Ht1|]. split; [|exact Hwait].
      eexists. split; [exact Hi1|]. cbn [buffered readableL].
      rewrite Hbuf, Hr. split; reflexivity. }
    split; [exact Hsplit|]. split; [rewrite Hl1; reflexivity|].
    split; [apply Nat.le_refl|]. split; [exact Hfrs|].
    split; [exact Hfr|]. split; [exact Hop | exact Hs1].
  - destruct (app_split_prefix _ _ _ _ Hsplit Henough) as [buf2 [-> Hsplit2]].
    destruct (trailer_tick (with_ticks (fun _ => []) w) st fr buf2)
      as [w1 [st1 [E [Hfl1 [Hst1 [Hl1 [Ht1 [Hs1 [Hi1 [Hb1 Hr1]]]]]]]]]];
      try assumption.
    erewrite run_ticks_step; [|exact Ht | exact E].
    destruct (loop_boundary frs Hfrs w1 buf2 future K)
      as [w' [have [pos' [frs' [E' [Hpk [Hrem [Hlog [Hpend [Hfr' [Hpos' [Hop' Hs']]]]]]]]]]]].
    { split; [exact Hfl1|]. split; [exact Hst1|]. split; [exact Ht1|].
      exists st1. rewrite Hr1, Hr. repeat split; assumption. }
    { exact Hsplit2. }
    { lia. }
    exists w', have, pos', frs'. split; [exact E'|].
    split; [exact Hpk|]. split; [exact Hrem|]. split.
    { rewrite Hlog, Hl1. unfold owes. cbn [with_ticks log].
      rewrite <- app_assoc. reflexivity. }
    split; [cbn [pending]; lia|].
    split; [exact Hfr'|]. split; [exact Hpos'|]. split; [exact Hop'|].
    rewrite Hs', Hs1. reflexivity.
Qed.

(** The chunks [cs] arrive one after the other; after each arrival the
    queued ticks run. *)
Fixpoint arrive (K : nat) (cs : list Buffer) : M unit :=
  match cs with
  | [] => ret tt
  | c :: cs' => socket_data c ;; run_ticks fromBuffer K ;; arrive K cs'
  end.

Lemma framed_length (fr : WireFrame) :
  framed fr -> HEADER_LENGTH <= blen (bytes_of fr).
Proof.
  intros [Hh _]. unfold bytes_of. rewrite blen_app, Hh.
  pose proof (blen_nonneg (snd fr)). lia.
Qed.

Lemma arrivals (cs : list Buffer) :
  forall (w : World) (have : Buffer) (pos : Position) (frs : list WireFrame)
         (K : nat),
  parked w have pos ->
  Forall framed frs ->
  match pos with Some fr => framed fr | None => True end ->
  opened pos ->
  have ++ List.concat cs = remaining pos frs ->
  (pending pos frs < K)%nat ->
  exists w',
    arrive K cs w = Ok (tt, w') /\
    log w' = log w ++ owes pos frs /\
    parked w' [] None /\
    sock w' = sock w.
Proof.
  induction cs as [|c cs IH]; intros w have pos frs K Hpk Hfrs Hfr Hop Hsplit HK.
  - cbn [List.concat] in Hsplit. rewrite app_nil_r in Hsplit.
    destruct Hpk as [Hfl [Hstd [Ht [Hst Hstuck]]]].
    destruct pos as [fr|].
    { exfalso. rewrite Hsplit in Hstuck. cbv [remaining] in Hstuck.
      rewrite blen_app in Hstuck.
      pose proof (blen_nonneg (flat_map bytes_of frs)). lia. }
    destruct frs as [|fr frs].
    + exists w. cbn [remaining flat_map app] in Hsplit. subst have.
      split; [reflexivity|]. split; [cbn; rewrite app_nil_r; reflexivity|].
      split; [|reflexivity].
      unfold parked. split; [exact Hfl|]. split; [exact Hstd|].
      split; [exact Ht|]. split; [exact Hst | exact Hstuck].
    + exfalso. rewrite Hsplit in Hstuck.
      cbv [remaining] in Hstuck. cbn [flat_map app] in Hstuck.
      rewrite blen_app in Hstuck.
      pose proof (framed_length fr (Forall_inv Hfrs)).
      pose proof (blen_nonneg (flat_map bytes_of frs)). lia.
  - destruct Hpk as [Hfl [Hstd [Ht [[st [Hst [Hbuf Hr]]] Hstuck]]]].
    cbn [arrive List.concat] in *.
    rewrite (bind_Ok _ _ _ _ _ (data_wakes_reader w st c Hst Hr)).
    rewrite app_assoc in Hsplit.
    match goal with
    | |- context [bind (run_ticks fromBuffer K) _ ?x] =>
        destruct (loop_position pos frs x (have ++ c) (List.concat cs) K)
          as [w1 [have1 [pos1 [frs1 [E [Hpk1 [Hrem [Hlog [Hpend [Hfr1 [Hpos1 [Hop1 Hs1]]]]]]]]]]]];
          try assumption
    end.
    { split; [exact Hfl|]. split; [exact Hstd|].
      split; [cbn [ticks with_ticks with_inputStream]; rewrite Ht; reflexivity|].
      eexists. split; [reflexivity|]. cbn [buffered readableL].
      rewrite Hbuf. split; reflexivity. }
    rewrite (bind_Ok _ _ _ _ _ E).
    destruct (IH w1 have1 pos1 frs1 K)
      as [w' [E' [Hl' [Hpk' Hs']]]]; try assumption; [lia|].
    exists w'. split; [exact E'|]. split; [rewrite Hl', Hlog; reflexivity|].
    split; [exact Hpk'|]. rewrite Hs', Hs1. reflexivity.
Qed.


(** X17.  The parse does not depend on how the byte stream is cut: let a
    sequence of frames (message frames, keep-alives, frames to be ignored,
    with or without trailers) be delivered to an established session that
    is not paused, cut into chunks at arbitrary places, inside headers and
    trailers too, empty chunks included, with the queued ticks run after
    each arrival.  Then the session emits exactly the trailers of the
    message frames that have one, in the order of the stream and each
    once, writes nothing, and ends at a frame boundary with nothing
    buffered, its listener waiting for more bytes. *)
Theorem fragmentation_independent (frs : list WireFrame) (cs : list Buffer)
    (w : World) (K : nat) :
  Forall framed frs ->
  List.concat cs = flat_map bytes_of frs ->
  parked w [] None ->
  (List.length frs < K)%nat ->
  exists w',
    arrive K cs w = Ok (tt, w') /\
    log w' = log w ++ flat_map surfaced frs /\
    parked w' [] None /\
    sock w' = sock w.
Proof.
  intros Hfrs Hcs Hpk HK.
  exact (arrivals cs w [] None frs K Hpk Hfrs I I Hcs HK).
Qed.

End Fragments.

(** An established session whose listener waits for bytes. *)
Definition listening : World :=
  with_inputStream (Some {| buffered := []; readableL := 1; reads := [] |})
    (session_in established []).

(** A message of two bytes, a keep-alive and a message of one byte, cut
    inside the first header, inside the first trailer and inside the last
    header, with an empty chunk in between. *)
Definition sample_frames : list WireFrame :=
  [([x00; x00; x00; x02], [x68; x69]);
   ([x85; x00; x00; x00], []);
   ([x00; x00; x00; x01], [x21])].

Definition sample_chunks : list Buffer :=
  [[x00; x00]; [x00; x02; x68]; []; [x69; x85; x00; x00; x00; x00];
   [x00; x00; x01; x21]].

Lemma fragmentation_independent_witness :
  Forall framed sample_frames /\
  List.concat sample_chunks = flat_map bytes_of sample_frames /\
  parked listening [] None /\
  flat_map surfaced sample_frames =
    [emit_message [x68; x69]; emit_message [x21]] /\
  exists w',
    arrive fixed_fromBuffer 4 sample_chunks listening = Ok (tt, w') /\
    log w' = log listening ++ flat_map surfaced sample_frames /\
    parked w' [] None /\
    sock w' = sock listening.
Proof.
  assert (H1 : Forall framed sample_frames).
  { repeat constructor; eexists; reflexivity. }
  assert (H2 : List.concat sample_chunks = flat_map bytes_of sample_frames)
    by reflexivity.
  assert (H3 : parked listening [] None).
  { unfold parked, flowing. repeat split; try reflexivity.
    eexists. repeat split; reflexivity. }
  split; [exact H1|]. split; [exact H2|]. split; [exact H3|].
  split; [reflexivity|].
  apply (fragmentation_independent fixed_fromBuffer sample_frames
           sample_chunks listening 4 H1 H2 H3).
  repeat constructor.
Defined.

(** ** Writing and draining *)

(** The world [write] leaves when the socket did not flush the header: the
    payload waits for the drain. *)
Definition held (msg : Buffer) (callback : Callback) (w : World) : World :=
  with_sock (fun s =>
    {| written := written s; ended := ended s; flushes := flushes s;
       drainL := drainL s ++ [drain_writeMsg msg callback] |})
    (with_ss (set_needDrain true)
       (with_sock (wrote (hdr_of (blen msg))) w)).

Lemma write_header_held (w : World) (msg : Buffer) (callback : Callback) :
  socket (ss w) = true ->
  blen msg <= MAX_TRAILER_LENGTH ->
  next_flush (sock w) = false ->
  write msg callback w = Ok (false, held msg callback w).
Proof.
  intros Hs Hlen Hf. unfold write.
  replace (blen msg >? MAX_TRAILER_LENGTH) with false
    by (symmetry; rewrite Z.gtb_ltb; apply Z.ltb_ge; lia).
  destruct (hdr_of_spec (blen msg)) as [E _];
    [pose proof (blen_nonneg msg); lia|].
  unfold held. run. rewrite E. run.
  rewrite socket_write_bound by exact Hs.
  rewrite Hf. run. rewrite Hs. reflexivity.
Qed.

Lemma write_flushed (w : World) (msg : Buffer) (callback : Callback) :
  socket (ss w) = true ->
  blen msg <= MAX_TRAILER_LENGTH ->
  next_flush (sock w) = true ->
  write msg callback w =
  _writeMsg msg callback (with_sock (wrote (hdr_of (blen msg))) w).
Proof.
  intros Hs Hlen Hf. unfold write.
  replace (blen msg >? MAX_TRAILER_LENGTH) with false
    by (symmetry; rewrite Z.gtb_ltb; apply Z.ltb_ge; lia).
  destruct (hdr_of_spec (blen msg)) as [E _];
    [pose proof (blen_nonneg msg); lia|].
  run. rewrite E. run.
  rewrite socket_write_bound by exact Hs.
  rewrite Hf. reflexivity.
Qed.

(** A message is out and its callback queued; ['drain'] was emitted when
    [write] had returned [false]. *)
Definition drained (w : World) (msg : Buffer) (callback : Callback)
    (r : bool) (w2 : World) : Prop :=
  written (sock w2) = written (sock w) ++ [hdr_of (blen msg); msg] /\
  log w2 = log w ++ (if r then [] else [emit_drain]) /\
  ticks w2 =
    ticks w ++
    match callback with
    | Some id => [tick_writeCallback id None]
    | None => []
    end /\
  drainL (sock w2) = [] /\
  needDrain (ss w2) = false.

(** X18.  The drain protocol of [write]: on a socket without pending
    listeners, whatever the socket's writes return, once the socket has
    drained (twice at most) the header and the payload are written, in
    this order, and the completion callback is queued once; the session
    emits ['drain'] exactly once when [write] returned [false], and not at
    all when it returned [true]. *)
Theorem write_then_drains (w : World) (msg : Buffer) (callback : Callback) :
  socket (ss w) = true ->
  blen msg <= MAX_TRAILER_LENGTH ->
  drainL (sock w) = [] ->
  needDrain (ss w) = false ->
  exists r w1 w2,
    write msg callback w = Ok (r, w1) /\
    (socket_drain ;; socket_drain) w1 = Ok (tt, w2) /\
    drained w msg callback r w2.
Proof.
  intros Hs Hlen Hd Hnd. unfold drained.
  destruct (next_flush (sock w)) eqn:F1.
  - rewrite (write_flushed w msg callback Hs Hlen F1).
    unfold _writeMsg, socket_write. run. rewrite Hs.
    match goal with
    | |- context [next_flush ?x] => destruct (next_flush x) eqn:F2
    end; run; rewrite ?Hs, ?Hnd, ?Hd; run;
      destruct callback as [id|]; run;
      (eexists; eexists; eexists; split; [reflexivity|];
       unfold socket_drain; run;
       repeat progress (cbn [app run_drain_listeners]; run);
       split; [reflexivity|]; run;
       rewrite <- ?app_assoc, ?app_nil_r;
       repeat split; first [reflexivity | exact Hnd]).
  - rewrite (write_header_held w msg callback Hs Hlen F1).
    exists false. eexists.
    cut (exists w2,
           (socket_drain ;; socket_drain) (held msg callback w)
             = Ok (tt, w2) /\
           written (sock w2) = written (sock w) ++ [hdr_of (blen msg); msg] /\
           log w2 = log w ++ [emit_drain] /\
           ticks w2 =
             ticks w ++
             match callback with
             | Some id => [tick_writeCallback id None]
             | None => []
             end /\
           drainL (sock w2) = [] /\
           needDrain (ss w2) = false).
    { intros [w2 H]. exists w2. split; [reflexivity | exact H]. }
    unfold socket_drain, held. run. rewrite Hd.
    cbn [app run_drain_listeners]. run.
    unfold _writeMsg, socket_write. run. rewrite Hs.
    match goal with
    | |- context [next_flush ?x] => destruct (next_flush x) eqn:F2
    end; run; rewrite ?Hs; run;
      destruct callback as [id|];
      repeat progress (cbn [app run_drain_listeners]; run);
      (eexists; split; [reflexivity|]; run;
       rewrite <- ?app_assoc, ?app_nil_r; repeat split; reflexivity).
Qed.

(** A socket that holds back the header and then the payload. *)
Definition slow_socket : World :=
  with_sock (fun s =>
    {| written := written s; ended := ended s; flushes := [false; false];
       drainL := drainL s |}) (session_in established []).

Lemma write_then_drains_witness :
  blen [x68; x69] <= MAX_TRAILER_LENGTH /\
  exists r w1 w2,
    write [x68; x69] (Some 1%nat) slow_socket = Ok (r, w1) /\
    (socket_drain ;; socket_drain) w1 = Ok (tt, w2) /\
    drained slow_socket [x68; x69] (Some 1%nat) r w2.
Proof.
  assert (H : blen [x68; x69] <= MAX_TRAILER_LENGTH)
    by (intro H; discriminate H).
  split; [exact H|].
  exact (write_then_drains slow_socket [x68; x69] (Some 1%nat)
           eq_refl H eq_refl eq_refl).
Defined.

(** X19.  A second [write] before the drain overtakes the first payload:
    when the socket did not flush the first message's header, so that
    [write] returned [false], and [write] is called again without waiting
    for ['drain'], the second header (and the second payload, if the
    socket takes it) is written right behind the first header, while the
    first payload still waits for the drain. *)
Theorem second_write_overtakes (w : World) (m1 m2 : Buffer)
    (cb1 cb2 : Callback) :
  socket (ss w) = true ->
  blen m1 <= MAX_TRAILER_LENGTH ->
  blen m2 <= MAX_TRAILER_LENGTH ->
  next_flush (sock w) = false ->
  exists r w' tail,
    (_ <- write m1 cb1 ;; write m2 cb2) w = Ok (r, w') /\
    written (sock w') =
      written (sock w) ++ hdr_of (blen m1) :: hdr_of (blen m2) :: tail /\
    (tail = [] \/ tail = [m2]) /\
    In (drain_writeMsg m1 cb1) (drainL (sock w')).
Proof.
  intros Hs H1 H2 Hf.
  rewrite (bind_Ok _ _ _ _ _ (write_header_held w m1 cb1 Hs H1 Hf)).
  assert (Hs1 : socket (ss (held m1 cb1 w)) = true) by exact Hs.
  assert (Hw1 : written (sock (held m1 cb1 w)) =
                written (sock w) ++ [hdr_of (blen m1)]) by reflexivity.
  assert (Hd1 : drainL (sock (held m1 cb1 w)) =
                drainL (sock w) ++ [drain_writeMsg m1 cb1]) by reflexivity.
  revert Hs1 Hw1 Hd1. generalize (held m1 cb1 w). intros w1 Hs1 Hw1 Hd1.
  destruct (next_flush (sock w1)) eqn:F2.
  - rewrite (write_flushed w1 m2 cb2 Hs1 H2 F2).
    destruct (writeMsg_bound (with_sock (wrote (hdr_of (blen m2))) w1) m2 cb2 Hs1)
      as [w' [E [Hw [_ [_ Hrest]]]]].
    rewrite E. eexists. exists w', [m2]. split; [reflexivity|].
    split.
    { rewrite Hw. cbn [written sock with_sock wrote].
      rewrite Hw1, <- !app_assoc. reflexivity. }
    split; [right; reflexivity|].
    assert (Hin : In (drain_writeMsg m1 cb1)
                    (drainL (sock (with_sock (wrote (hdr_of (blen m2))) w1)))).
    { cbn [drainL sock with_sock wrote]. rewrite Hd1.
      apply in_or_app. right. left. reflexivity. }
    destruct (next_flush (sock (with_sock (wrote (hdr_of (blen m2))) w1))).
    + destruct Hrest as [-> _]. exact Hin.
    + destruct Hrest as [-> _]. apply in_or_app. left. exact Hin.
  - rewrite (write_header_held w1 m2 cb2 Hs1 H2 F2).
    eexists. eexists. exists []. split; [reflexivity|].
    unfold held. cbn [written drainL sock with_sock with_ss wrote].
    rewrite Hw1, Hd1, <- !app_assoc.
    split; [reflexivity|]. split; [left; reflexivity|].
    apply in_or_app. right. apply in_or_app. left. left. reflexivity.
Qed.

(** A socket that holds back one write. *)
Definition busy_socket : World :=
  with_sock (fun s =>
    {| written := written s; ended := ended s; flushes := [false];
       drainL := drainL s |}) (session_in established []).

Lemma second_write_overtakes_witness :
  next_flush (sock busy_socket) = false /\
  exists r w' tail,
    (_ <- write [x61] None ;; write [x62] None) busy_socket = Ok (r, w') /\
    written (sock w') =
      written (sock busy_socket) ++
      hdr_of (blen [x61]) :: hdr_of (blen [x62]) :: tail /\
    (tail = [] \/ tail = [[x62]]) /\
    In (drain_writeMsg [x61] None) (drainL (sock w')).
Proof.
  split; [reflexivity|].
  apply (second_write_overtakes busy_socket [x61] [x62] None None);
    first [reflexivity | intro H; discriminate H].
Defined.

(** X20.  [end()] while a payload waits for the drain: when the socket did
    not flush the header, [write] has left [_writeMsg] as a drain
    listener; after [end()] the socket's next ['drain'] runs this listener,
    which calls [write] on [ss.socket], now [null], and throws. *)
Theorem end_before_drain_throws (w : World) (msg : Buffer)
    (callback : Callback) :
  socket (ss w) = true ->
  blen msg <= MAX_TRAILER_LENGTH ->
  next_flush (sock w) = false ->
  drainL (sock w) = [] ->
  exists e,
    (_ <- write msg callback ;; end_ ;; socket_drain) w = Throw e.
Proof.
  intros Hs Hlen Hf Hd.
  rewrite (bind_Ok _ _ _ _ _ (write_header_held w msg callback Hs Hlen Hf)).
  unfold end_, socket_drain, held. run. rewrite Hs. run. rewrite Hd.
  cbn [app run_drain_listeners]. run.
  unfold _writeMsg, socket_write. run. eexists. reflexivity.
Qed.

Lemma end_before_drain_throws_witness :
  next_flush (sock busy_socket) = false /\
  exists e,
    (_ <- write [x61] (Some 1%nat) ;; end_ ;; socket_drain) busy_socket
      = Throw e.
Proof.
  split; [reflexivity|].
  apply (end_before_drain_throws busy_socket [x61] (Some 1%nat));
    first [reflexivity | intro H; discriminate H].
Defined.

(** ** From [write] to ['message'] *)

(** The application writes the messages one after the other. *)
Fixpoint write_all (ms : list Buffer) : M unit :=
  match ms with
  | [] => ret tt
  | m :: ms' => _ <- write m None ;; write_all ms'
  end.

(** The buffers [write] hands to the socket for the messages [ms]. *)
Definition wire_of (ms : list Buffer) : list Buffer :=
  flat_map (fun m => [hdr_of (blen m); m]) ms.

(** A bound socket that accepts every write at once. *)
Definition open_socket (w : World) : Prop :=
  socket (ss w) = true /\ flushes (sock w) = [] /\ needDrain (ss w) = false.

Lemma write_on_open_socket (w : World) (msg : Buffer) :
  open_socket w ->
  blen msg <= MAX_TRAILER_LENGTH ->
  exists w',
    write msg None w = Ok (true, w') /\
    written (sock w') = written (sock w) ++ [hdr_of (blen msg); msg] /\
    open_socket w' /\
    log w' = log w /\ ticks w' = ticks w.
Proof.
  intros [Hs [Hf Hn]] Hlen.
  rewrite (write_flushed w msg None Hs Hlen)
    by (unfold next_flush; rewrite Hf; reflexivity).
  unfold _writeMsg, socket_write. run. rewrite Hs.
  match goal with
  | |- context [next_flush ?x] =>
      replace (next_flush x) with true
        by (unfold next_flush; cbn [flushes]; rewrite Hf; reflexivity)
  end.
  run. rewrite Hn. run.
  eexists. split; [reflexivity|]. unfold open_socket. run.
  rewrite <- app_assoc, Hf.
  repeat split; first [assumption | reflexivity].
Qed.

Lemma write_all_written (ms : list Buffer) :
  Forall (fun m => blen m <= MAX_TRAILER_LENGTH) ms ->
  forall w,
  open_socket w ->
  exists w',
    write_all ms w = Ok (tt, w') /\
    written (sock w') = written (sock w) ++ wire_of ms /\
    open_socket w' /\
    log w' = log w /\ ticks w' = ticks w.
Proof.
  unfold wire_of.
  induction 1 as [|m ms Hm _ IH]; intros w Ho.
  - exists w. cbn [flat_map]. rewrite app_nil_r.
    split; [reflexivity|]. split; [reflexivity|].
    split; [exact Ho|]. split; reflexivity.
  - destruct (write_on_open_socket w m Ho Hm) as [w1 [E [Hw [Ho1 [Hl Ht]]]]].
    destruct (IH w1 Ho1) as [w' [E' [Hw' [Ho' [Hl' Ht']]]]].
    exists w'. cbn [write_all]. rewrite (bind_Ok _ _ _ _ _ E).
    split; [exact E'|]. rewrite Hw', Hw, Hl', Hl, Ht', Ht.
    cbn [flat_map]. rewrite <- app_assoc.
    split; [reflexivity|]. split; [exact Ho'|]. split; reflexivity.
Qed.

Lemma hdr_of_message (n : Z) :
  0 <= n <= MAX_TRAILER_LENGTH ->
  exists t f hi lo, hdr_of n = [t; f; hi; lo] /\ u8 t = 0.
Proof.
  intros Hn.
  destruct (encodeHeader_bytes message n Hn) as [t [f [hi [lo [E [Ht _]]]]]].
  exists t, f, hi, lo. unfold hdr_of. rewrite E. split; [reflexivity|exact Ht].
Qed.

(** The frame [write] sends for [m]. *)
Definition message_frame (m : Buffer) : WireFrame := (hdr_of (blen m), m).

Lemma message_frame_framed (m : Buffer) :
  blen m <= MAX_TRAILER_LENGTH -> framed (message_frame m).
Proof.
  intros Hm. pose proof (blen_nonneg m).
  unfold framed, message_frame. cbn [fst snd].
  split; [apply hdr_of_blen; lia|].
  exists (T message). apply hdr_of_spec. lia.
Qed.

Lemma message_frame_surfaced (m : Buffer) :
  blen m <= MAX_TRAILER_LENGTH ->
  surfaced (message_frame m) = if 0 <? blen m then [emit_message m] else [].
Proof.
  intros Hm. pose proof (blen_nonneg m).
  destruct (hdr_of_message (blen m)) as [t [f [hi [lo [E Ht]]]]]; [lia|].
  unfold surfaced, is_message, message_frame. cbn [fst snd].
  rewrite E, Ht. reflexivity.
Qed.

Lemma message_frames_bytes (ms : list Buffer) :
  flat_map bytes_of (map message_frame ms) = List.concat (wire_of ms).
Proof.
  unfold wire_of.
  induction ms as [|m ms IH]; [reflexivity|].
  cbn [map flat_map List.concat app]. rewrite IH.
  unfold bytes_of, message_frame. cbn [fst snd].
  rewrite <- app_assoc. reflexivity.
Qed.

Lemma message_frames_surfaced (ms : list Buffer) :
  Forall (fun m => blen m <= MAX_TRAILER_LENGTH) ms ->
  flat_map surfaced (map message_frame ms) =
  map emit_message (filter (fun m => 0 <? blen m) ms).
Proof.
  induction 1 as [|m ms Hm _ IH]; [reflexivity|].
  cbn [map flat_map filter]. rewrite IH, message_frame_surfaced by exact Hm.
  destruct (0 <? blen m); reflexivity.
Qed.

(** The reader has emitted the messages of [ms] that are not empty and
    waits at a frame boundary. *)
Definition received (ms : list Buffer) (w w' : World) : Prop :=
  log w' = log w ++ map emit_message (filter (fun m => 0 <? blen m) ms) /\
  (exists st', inputStream w' = Some st' /\ buffered st' = []) /\
  ticks w' = [].

(** The listener has paused on [m] and, after [resume()], received the
    rest. *)
Definition paused_then_resumed (m : Buffer) (frs : list WireFrame)
    (w w1 w2 : World) : Prop :=
  log w1 = log w ++ [emit_message m] /\
  paused (ss w1) = true /\
  ticks w1 = [] /\
  log w2 = log w ++ emit_message m :: flat_map surfaced frs /\
  paused (ss w2) = false.

Section RoundTrip.

Variable fromBuffer : Buffer -> option Z -> NBName.

(** X21.  What one session writes the other one emits: messages of at most
    131071 bytes each, written one after the other to a socket that takes
    every write, put on the wire exactly the bytes from which an
    established reader emits the same messages, in the same order and each
    once, except that a message of length zero is framed and sent but
    never emitted. *)
Theorem written_is_read (ms : list Buffer) (v w : World) (st : Readable) :
  Forall (fun m => blen m <= MAX_TRAILER_LENGTH) ms ->
  open_socket v ->
  reading w (map message_frame ms) ->
  inputStream w = Some st ->
  ticks w = [tick_doRead] ->
  buffered st = List.concat (wire_of ms) ->
  exists v' w',
    write_all ms v = Ok (tt, v') /\
    written (sock v') = written (sock v) ++ wire_of ms /\
    run_ticks fromBuffer (S (List.length ms)) w = Ok (tt, w') /\
    received ms w w'.
Proof.
  intros Hms Ho Hrd Hst Ht Hbuf.
  destruct (write_all_written ms Hms v Ho) as [v' [E [Hw _]]].
  destruct (stream_delivered fromBuffer (map message_frame ms))
    with (w := w) (st := st)
    as [w' [st' [E' [Hl [_ [_ [_ [_ [_ [Hi [Hb [_ Ht']]]]]]]]]]]];
    try assumption.
  { apply Forall_map. eapply Forall_impl; [|exact Hms].
    intros m. apply message_frame_framed. }
  { rewrite message_frames_bytes. exact Hbuf. }
  exists v', w'. split; [exact E|]. split; [exact Hw|].
  rewrite length_map in E'. split; [exact E'|].
  unfold received.
  rewrite Hl, message_frames_surfaced by exact Hms.
  split; [reflexivity|]. split; [exists st'; split; assumption | exact Ht'].
Qed.

(** X22.  Pausing from the listener, and resuming: when the ['message']
    listener calls [pause()] on a message, the tick that emitted it is the
    last one, however many ticks are given a chance to run: the frames
    behind it stay buffered and nothing more is emitted; after [resume()]
    the read loop emits what these frames hold, in order, and goes on. *)
Theorem pause_holds_until_resume (w : World) (st : Readable) (m : Buffer)
    (frs : list WireFrame) (K : nat) :
  mode (ss w) = Some established ->
  paused (ss w) = false ->
  readFunc (ss w) = readHeader ->
  inputStream w = Some st ->
  buffered st = frame m ++ flat_map bytes_of frs ->
  0 < blen m <= MAX_TRAILER_LENGTH ->
  pause_on_message w m = true ->
  ticks w = [tick_doRead] ->
  Forall framed frs ->
  Forall (fun fr => pause_on_message w (snd fr) = false) frs ->
  exists w1 w2,
    run_ticks fromBuffer (S K) w = Ok (tt, w1) /\
    (resume ;; run_ticks fromBuffer (S (List.length frs))) w1 = Ok (tt, w2) /\
    paused_then_resumed m frs w w1 w2.
Proof.
  intros Hm Hp Hrf Hst Hbuf Hlen Hpom Ht Hfrs Hq.
  destruct (message_tick fromBuffer (with_ticks (fun _ => []) w) st m
              (flat_map bytes_of frs))
    as [w1 [E [Hl [Hm1 [Hrf1 [Hp1 [Hpm1 [Hi1 Ht1]]]]]]]]; try assumption.
  cbn [with_ticks pause_on_message ss ticks log] in Hl, Hp1, Hpm1, Ht1.
  rewrite Hpom in Hp1, Ht1. cbn [orb app] in Hp1, Ht1.
  exists w1.
  erewrite run_ticks_step; [|exact Ht | exact E].
  rewrite run_ticks_quiet by exact Ht1.
  destruct (stream_delivered fromBuffer frs Hfrs
              (with_ticks (fun q => q ++ [tick_doRead])
                 (with_ss (set_paused false) w1))
              {| buffered := flat_map bytes_of frs; readableL := readableL st;
                 reads := (reads st ++ [HEADER_LENGTH]) ++ [blen m] |})
    as [w2 [st2 [E2 [Hl2 [_ [Hp2 _]]]]]].
  { split; [exact Hm1|]. split; [reflexivity|]. split; [exact Hrf1|].
    cbn [pause_on_message with_ticks with_ss]. rewrite Hpm1. exact Hq. }
  { exact Hi1. }
  { reflexivity. }
  { cbn [ticks with_ticks with_ss]. rewrite Ht1. reflexivity. }
  exists w2. split; [reflexivity|]. split.
  - unfold resume. rewrite bind_assoc, bind_gets, Hp1.
    rewrite bind_assoc, bind_modify.
    unfold _doRead, nextTick. rewrite bind_modify. exact E2.
  - unfold paused_then_resumed.
    split; [exact Hl|]. split; [exact Hp1|]. split; [exact Ht1|].
    split; [|exact Hp2].
    rewrite Hl2. cbn [log with_ticks with_ss]. rewrite Hl, <- app_assoc.
    reflexivity.
Qed.

End RoundTrip.

(** An established reader whose listener pauses on the messages for which
    [pom] holds, with [buf] buffered and the first tick queued. *)
Definition reader_of (pom : Buffer -> bool) (buf : Buffer) : World :=
  with_ticks (fun _ => [tick_doRead])
    (with_inputStream (Some (fresh_stream buf))
       (with_ss (fun s => set_socket true (set_mode (Some established) s))
          (NetbiosSession false false false pom))).

Definition sample_messages : list Buffer := [[x68; x69]; []; [x21]].

Lemma written_is_read_witness :
  Forall (fun m => blen m <= MAX_TRAILER_LENGTH) sample_messages /\
  List.concat (wire_of sample_messages) =
    [x00; x00; x00; x02; x68; x69; x00; x00; x00; x00;
     x00; x00; x00; x01; x21] /\
  exists v' w',
    write_all sample_messages (session_in established []) = Ok (tt, v') /\
    written (sock v') =
      written (sock (session_in established [])) ++ wire_of sample_messages /\
    run_ticks fixed_fromBuffer (S (List.length sample_messages))
      (reader_of (fun _ => false) (List.concat (wire_of sample_messages)))
      = Ok (tt, w') /\
    received sample_messages
      (reader_of (fun _ => false) (List.concat (wire_of sample_messages))) w'.
Proof.
  assert (H : Forall (fun m => blen m <= MAX_TRAILER_LENGTH) sample_messages)
    by (repeat constructor; intro H; discriminate H).
  split; [exact H|]. split; [reflexivity|].
  apply (written_is_read fixed_fromBuffer sample_messages
           (session_in established [])
           (reader_of (fun _ => false) (List.concat (wire_of sample_messages)))
           (fresh_stream (List.concat (wire_of sample_messages))) H).
  - repeat split; reflexivity.
  - unfold reading. repeat split; try reflexivity. repeat constructor.
  - reflexivity.
  - reflexivity.
  - reflexivity.
Defined.

(** The listener pauses on messages of one byte. *)
Definition pauses_on_short (m : Buffer) : bool := blen m =? 1.

Definition held_back : list WireFrame :=
  [([x00; x00; x00; x02], [x68; x69]); ([x85; x00; x00; x00], [])].

Lemma pause_holds_until_resume_witness :
  pause_on_message
    (reader_of pauses_on_short (frame [x21] ++ flat_map bytes_of held_back))
    [x21] = true /\
  Forall framed held_back /\
  exists w1 w2,
    run_ticks fixed_fromBuffer 5
      (reader_of pauses_on_short (frame [x21] ++ flat_map bytes_of held_back))
      = Ok (tt, w1) /\
    (resume ;; run_ticks fixed_fromBuffer (S (List.length held_back))) w1
      = Ok (tt, w2) /\
    paused_then_resumed [x21] held_back
      (reader_of pauses_on_short (frame [x21] ++ flat_map bytes_of held_back))
      w1 w2.
Proof.
  assert (H : Forall framed held_back)
    by (repeat constructor; eexists; reflexivity).
  split; [reflexivity|]. split; [exact H|].
  apply (pause_holds_until_resume fixed_fromBuffer
           (reader_of pauses_on_short
              (frame [x21] ++ flat_map bytes_of held_back))
           (fresh_stream (frame [x21] ++ flat_map bytes_of held_back))
           [x21] held_back 4);
    try reflexivity.
  - split; [reflexivity | intro H0; discriminate H0].
  - exact H.
  - repeat constructor.
Defined.

(** ** One frame of the Duplex revision *)

Section SingleFrame.

Import Duplex.

Lemma single_frame_runs (chunk : Buffer) :
  blen chunk <= MAX_TRAILER_LENGTH ->
  Runs 3 (writeChunk_bound chunk 0)
    (fun fl =>
       write_events (hdr_of (blen chunk)) fl ++
       write_events chunk (tl fl) ++ [ev_callback]).
Proof.
  intros Hlen. pose proof (blen_nonneg chunk) as Hnn.
  assert (Hmin : Z.min (blen chunk - 0) MAX_TRAILER_LENGTH = blen chunk)
    by lia.
  assert (Hslice : slice chunk 0 (0 + blen chunk) = chunk).
  { unfold slice. change (Z.to_nat 0) with 0%nat. cbn [skipn].
    replace (0 + blen chunk - 0) with (blen chunk) by lia.
    unfold blen. rewrite Nat2Z.id. apply firstn_all. }
  pose (tr1 := fun _ : list bool => [ev_callback]).
  pose (tr2 := fun fl => write_events (slice chunk 0 (0 + blen chunk)) fl ++
                         tr1 (tl fl)).
  apply Runs_ext with
    (tr := fun fl => write_events
                       (hdr_of (Z.min (blen chunk - 0) MAX_TRAILER_LENGTH)) fl
                     ++ tr2 (tl fl)).
  { intros fl. unfold tr2, tr1. rewrite Hmin, Hslice. reflexivity. }
  apply (Runs_writeChunk 2 chunk 0 tr2); [lia|].
  rewrite Hmin.
  apply (Runs_after_header 1 chunk 0 (blen chunk) tr1).
  replace (0 + blen chunk <? blen chunk) with false
    by (symmetry; apply Z.ltb_ge; lia).
  apply Runs_callback.
Qed.

(** A write that ended in [s] after one frame. *)
Definition one_frame (chunk : Buffer) (s : State) : Prop :=
  writes_of (trace s) = [hdr_of (blen chunk); chunk] /\
  decodeHeader (Some established) (hdr_of (blen chunk)) =
    Ok (T message, blen chunk) /\
  callbacks_of (trace s) = 1%nat /\
  last (trace s) ev_drain = ev_callback /\
  drainL s = [].

(** X23.  A payload that fits in one frame, the empty one included: [_write]
    of the Duplex revision sends exactly one header, which decodes to a
    message of the payload's length, and then the payload itself (an empty
    buffer for an empty payload), whatever the socket's writes return, and
    calls the completion callback once, as the last event. *)
Theorem single_frame_write (chunk : Buffer) (fl : list bool) (fuel : nat) :
  blen chunk <= MAX_TRAILER_LENGTH ->
  (3 <= fuel)%nat ->
  exists s, run_write fuel chunk fl = Ok s /\ one_frame chunk s.
Proof.
  intros Hlen Hfuel. pose proof (blen_nonneg chunk) as Hnn.
  destruct (single_frame_runs chunk Hlen fuel fuel
              {| trace := []; flushes := fl; drainL := [] |}
              Hfuel Hfuel eq_refl) as [s [E [Ht Hd]]].
  cbn [trace flushes app] in Ht.
  exists s. split; [exact E|]. unfold one_frame.
  destruct (write_events_writes (hdr_of (blen chunk)) fl) as [Hw1 Hc1].
  destruct (write_events_writes chunk (tl fl)) as [Hw2 Hc2].
  rewrite Ht, !writes_of_app, !callbacks_of_app, Hw1, Hw2, Hc1, Hc2.
  split; [reflexivity|]. split; [apply hdr_of_spec; lia|].
  split; [reflexivity|]. split; [|exact Hd].
  rewrite app_assoc. apply last_last.
Qed.

End SingleFrame.

(** The empty payload on a socket that holds back the header. *)
Lemma single_frame_write_witness :
  blen [] <= MAX_TRAILER_LENGTH /\
  (3 <= 3)%nat /\
  exists s, Duplex.run_write 3 [] [false] = Ok s /\ one_frame [] s.
Proof.
  assert (H1 : blen [] <= MAX_TRAILER_LENGTH) by (intro H; discriminate H).
  assert (H2 : (3 <= 3)%nat) by apply Nat.le_refl.
  split; [exact H1|]. split; [exact H2|].
  exact (single_frame_write [] [false] 3 H1 H2).
Defined.

(** ** [end] and [attach] *)


(** What [attach] leaves of an active session. *)
Definition untouched (callback : option AttachCallback) (w w' : World)
    : Prop :=
  ss w' = ss w /\ sock w' = sock w /\ inputStream w' = inputStream w /\
  requests w' = requests w /\ log w' = log w /\
  ticks w' =
    ticks w ++
    match callback with
    | Some _ => [tick_attachCallback CannotAttach]
    | None => []
    end.

(** X25.  [attach] on an active session is refused without touching it: a
    session that has a mode or a socket keeps its socket, its callbacks,
    its input stream and its parser state; nothing is called during
    [attach], and the callback, if one was given, is queued for the next
    tick with the error ['Cannot attach Session already active.']. *)
Theorem attach_refused (w : World) (callback : option AttachCallback) :
  mode (ss w) <> None \/ socket (ss w) = true ->
  exists w', attach callback w = Ok (tt, w') /\ untouched callback w w'.
Proof.
  intros H. unfold attach, untouched. run.
  assert (E : (match mode (ss w) with Some _ => true | None => false end)
              || socket (ss w) = true).
  { destruct H as [H|H].
    - destruct (mode (ss w)); [reflexivity | contradiction].
    - rewrite H. apply orb_true_r. }
  unfold orb in E. rewrite E.
  destruct callback; (eexists; split; [reflexivity|]); run;
    rewrite ?app_nil_r; repeat split; reflexivity.
Qed.

Lemma attach_refused_witness :
  (mode (ss (caller [])) <> None \/ socket (ss (caller [])) = true) /\
  exists w',
    attach (Some (fun _ _ => Accept)) (caller []) = Ok (tt, w') /\
    untouched (Some (fun _ _ => Accept)) (caller []) w'.
Proof.
  assert (H : mode (ss (caller [])) <> None \/ socket (ss (caller [])) = true)
    by (right; reflexivity).
  split; [exact H|].
  exact (attach_refused (caller []) (Some (fun _ _ => Accept)) H).
Defined.
